(** * The PX4-style bootloader protocol interpreter of [bl.c]

    A shallow embedding of [bootloader()] and of the helpers it calls
    ([cin_wait], [wait_for_eoc], [cin_word], [cout_word], [crc32],
    [validate_key], [zero_key]) together with the properties of the
    flash-programming state machine; and, each on its own, of the code
    around it: the receive ring ([buf_put], [buf_get]), the choice between
    the transports ([cin], [cout]), the tick ([sys_tick_handler], [delay],
    [led_set]) and the jump into the application ([jump_to_app]).

    Modelling boundary.  The transport drivers ([usb_cin], [uart_cin],
    [usb_cout], ...), the flash driver ([flash_func_*]), the AES block
    primitive and the board description are not part of [bl.c]:
    - in the session, the result of every call of [cin_wait] is taken from
      a script [rx] (a byte, or nothing before the deadline), and the
      deadline that was passed is recorded in the trace;
    - every call of [cout] is recorded in the trace with the bytes handed to
      it; whether they leave, and on which transport, is decided by
      [bl_type], which is modelled apart from the session, in [Transport];
      [step_calls] runs the calls of a command, and the pinning of
      [bl_type], through it;
    - the flash driver, the board and the AES primitive are an interface
      ([Platform]) over an abstract flash [F]; a concrete platform with an
      optional stuck cell is given after the model;
    - LEDs and [delay] have no effect on the state of the session; the
      timers, [delay] and the bootloader LED are modelled apart from it,
      in [SysTick], and the loop of [cin_wait] that the script stands for
      is run against the tick and the transports in [Wait];
    - the local variables of [bootloader()] that live across commands and
      its static buffers form the record [state]. *)

From Stdlib Require Import ZArith List Lia Bool.
Import ListNotations.
Open Scope Z_scope.

(** ** Machine integers *)

Definition u32 (x : Z) : Z := x mod 2 ^ 32.
Definition u8 (x : Z) : Z := x mod 256.

(** ** Protocol bytes *)

Definition BL_PROTOCOL_VERSION : Z := 7.
Definition PROTO_INSYNC : Z := 0x12.
Definition PROTO_EOC : Z := 0x20.

Definition PROTO_OK : Z := 0x10.
Definition PROTO_FAILED : Z := 0x11.
Definition PROTO_INVALID : Z := 0x13.
Definition PROTO_BAD_SILICON_REV : Z := 0x14.
Definition PROTO_BAD_KEY : Z := 0x15.

Definition PROTO_GET_SYNC : Z := 0x21.
Definition PROTO_GET_DEVICE : Z := 0x22.
Definition PROTO_CHIP_ERASE : Z := 0x23.
Definition PROTO_PROG_MULTI : Z := 0x27.
Definition PROTO_GET_CRC : Z := 0x29.
Definition PROTO_GET_OTP : Z := 0x2a.
Definition PROTO_GET_SN : Z := 0x2b.
Definition PROTO_GET_CHIP : Z := 0x2c.
Definition PROTO_SET_DELAY : Z := 0x2d.
Definition PROTO_GET_CHIP_DES : Z := 0x2e.
Definition PROTO_BOOT : Z := 0x30.
Definition PROTO_DEBUG : Z := 0x31.

Definition PROTO_PROG_MULTI_MAX : Z := 255.

Definition PROTO_SET_IV : Z := 0x36.
Definition PROTO_PROG_MULTI_ENCRYPTED : Z := 0x37.
Definition PROTO_CHECK_CRC : Z := 0x38.
Definition PROTO_CHECK_KEY : Z := 0x39.

Definition PROTO_DEVICE_BL_REV : Z := 1.
Definition PROTO_DEVICE_BOARD_ID : Z := 2.
Definition PROTO_DEVICE_BOARD_REV : Z := 3.
Definition PROTO_DEVICE_FW_SIZE : Z := 4.
Definition PROTO_DEVICE_VEC_AREA : Z := 5.

Definition bl_proto_rev : Z := BL_PROTOCOL_VERSION.

(** The erased flash word. *)
Definition ERASED : Z := 0xffffffff.

(** ** Bytes and words

    [flash_buffer_t] is a union of [c[256]] and [w[64]]; it is kept as its
    256 bytes, and a word is read and written through them in the byte
    order of the target (little-endian Cortex-M). *)

Definition word_bytes (w : Z) : list Z :=
  [Z.land w 255; Z.land (Z.shiftr w 8) 255;
   Z.land (Z.shiftr w 16) 255; Z.land (Z.shiftr w 24) 255].

Definition bytes_word (b0 b1 b2 b3 : Z) : Z :=
  b0 + Z.shiftl b1 8 + Z.shiftl b2 16 + Z.shiftl b3 24.

Fixpoint upd (n : nat) (x : Z) (l : list Z) : list Z :=
  match l, n with
  | [], _ => []
  | _ :: t, O => x :: t
  | h :: t, S k => h :: upd k x t
  end.

Definition buf_c (i : Z) (buf : list Z) : Z := nth (Z.to_nat i) buf 0.

Definition set_buf_c (i : Z) (b : Z) (buf : list Z) : list Z :=
  upd (Z.to_nat i) (u8 b) buf.

Definition buf_w (i : Z) (buf : list Z) : Z :=
  bytes_word (buf_c (4 * i) buf) (buf_c (4 * i + 1) buf)
             (buf_c (4 * i + 2) buf) (buf_c (4 * i + 3) buf).

Fixpoint blit (i : Z) (src : list Z) (buf : list Z) : list Z :=
  match src with
  | [] => buf
  | b :: t => blit (i + 1) t (set_buf_c i b buf)
  end.

Definition set_buf_w (i : Z) (w : Z) (buf : list Z) : list Z :=
  blit (4 * i) (word_bytes w) buf.

(** [len] bytes of [buf] from index [i]. *)
Definition slice (i len : Z) (buf : list Z) : list Z :=
  firstn (Z.to_nat len) (skipn (Z.to_nat i) buf).

(** Exactly sixteen bytes of a block, whatever its length. *)
Definition block16 (b : list Z) : list Z :=
  map (fun j => nth j b 0) (seq 0 16).

Definition zero_buffer : list Z := repeat 0 256.

(** ** [crc32]

    The table [crctab] is generated on the first call ([crctab[1]] is
    [0x77073096] afterwards, so it is generated once); an entry is the
    eight-fold shift of its index. *)

Fixpoint crc_shift (j : nat) (c : Z) : Z :=
  match j with
  | O => c
  | S k =>
      crc_shift k (if Z.odd c then Z.lxor 0xedb88320 (Z.shiftr c 1)
                   else Z.shiftr c 1)
  end.

Definition crctab (i : Z) : Z := crc_shift 8 i.

Definition crc32_byte (state b : Z) : Z :=
  Z.lxor (crctab (Z.land (Z.lxor state b) 255)) (Z.shiftr state 8).

Definition crc32 (src : list Z) (state : Z) : Z :=
  fold_left crc32_byte src state.

(** ** The board *)

Record board : Type := mkBoard {
  fw_size : Z;
  board_type : Z;
  board_rev : Z;
  (** the sector table behind [flash_func_sector_size] *)
  flash_sectors : list Z;
  (** [TARGET_HW_PX4_FMU_V4] is defined *)
  TARGET_HW_PX4_FMU_V4 : bool;
  (** the answer of [check_silicon()]: [true] is bad silicon *)
  check_silicon : bool;
  (** [ENABLE_ENCRYPTION] is defined *)
  ENABLE_ENCRYPTION : bool;
  (** the physical address of [key.w[0]] *)
  key_address : Z;
  (** [BOOT_DELAY_ADDRESS], when it is defined *)
  BOOT_DELAY_ADDRESS : option Z;
  BOOT_DELAY_SIGNATURE1 : Z;
  BOOT_DELAY_SIGNATURE2 : Z;
  BOOT_DELAY_MAX : Z;
  (** [get_mcu_id()] and the text [get_mcu_desc] fills in *)
  mcu_id : Z;
  mcu_desc : list Z
}.

(** Modelled from the spec: [flash_func_sector_size] belongs to the flash
    driver, outside [bl.c]; the driver contract gives it as a table
    ended by a 0 sentinel, so an index past the table answers 0. *)
Definition flash_func_sector_size (b : board) (i : nat) : Z :=
  nth i (flash_sectors b) 0.

(** ** The platform: board description, flash driver, AES primitive

    Everything [bl.c] takes from [hw_config.h], [bl.h] and [aes.h]. *)

Class Platform (F : Type) : Type := {
  board_info : board;
  flash_func_erase_sector : Z -> F -> F;
  flash_func_read_word : Z -> F -> Z;
  flash_func_write_word : Z -> Z -> F -> F;
  flash_func_read_otp : Z -> F -> Z;
  flash_func_read_sn : Z -> F -> Z;
  flash_func_phy_write_word : Z -> Z -> F -> F;
  (** a load from a physical address, as [*address] in [validate_key] *)
  phy_read_word : Z -> F -> Z;
  (** [AES128_CBC_decrypt_buffer(out, in, 16, key, iv)]: the sixteen bytes
      written to [out], from the block [in], the key and the vector *)
  AES128_CBC_decrypt_buffer : list Z -> list Z -> list Z -> list Z
}.

(** ** What the bootloader does to the outside *)

Inductive event : Type :=
| EvCin (timeout : Z)        (* cin_wait(timeout) was called *)
| EvCout (bytes : list Z)    (* cout(bytes, len) was called *)
| EvZeroKey.                 (* zero_key() was called *)

(** The labels a command leaves the [switch] through, other than [break]. *)
Inductive label : Type :=
| cmd_bad | cmd_fail | bad_silicon | bad_key
| next_command   (* the [continue] of the [default] case *)
| leave.         (* the [return] of PROTO_BOOT *)

Inductive res (A : Type) : Type :=
| Val (a : A)
| Goto (l : label).
Arguments Val {A} a.
Arguments Goto {A} l.

(** ** The state of a session *)

Section Bootloader.

Context {F : Type} {HW : Platform F}.

Record state : Type := mkState {
  address : Z;
  first_word : Z;
  num_to_flash : Z;
  crc32_sum : Z;
  iv : list Z;
  key_state : Z;
  timeout : Z;
  flash_buffer : list Z;
  encrypted_buffer : list Z;
  flash : F;
  (** what the next calls of [cin_wait] will find *)
  rx : list (option Z);
  (** the calls made so far, oldest first *)
  trace : list event
}.

Definition set_address (v : Z) (s : state) : state :=
  mkState v (first_word s) (num_to_flash s) (crc32_sum s) (iv s)
          (key_state s) (timeout s) (flash_buffer s) (encrypted_buffer s)
          (flash s) (rx s) (trace s).
Definition set_first_word (v : Z) (s : state) : state :=
  mkState (address s) v (num_to_flash s) (crc32_sum s) (iv s)
          (key_state s) (timeout s) (flash_buffer s) (encrypted_buffer s)
          (flash s) (rx s) (trace s).
Definition set_num_to_flash (v : Z) (s : state) : state :=
  mkState (address s) (first_word s) v (crc32_sum s) (iv s)
          (key_state s) (timeout s) (flash_buffer s) (encrypted_buffer s)
          (flash s) (rx s) (trace s).
Definition set_crc32_sum (v : Z) (s : state) : state :=
  mkState (address s) (first_word s) (num_to_flash s) v (iv s)
          (key_state s) (timeout s) (flash_buffer s) (encrypted_buffer s)
          (flash s) (rx s) (trace s).
Definition set_iv (v : list Z) (s : state) : state :=
  mkState (address s) (first_word s) (num_to_flash s) (crc32_sum s) v
          (key_state s) (timeout s) (flash_buffer s) (encrypted_buffer s)
          (flash s) (rx s) (trace s).
Definition set_key_state (v : Z) (s : state) : state :=
  mkState (address s) (first_word s) (num_to_flash s) (crc32_sum s) (iv s)
          v (timeout s) (flash_buffer s) (encrypted_buffer s)
          (flash s) (rx s) (trace s).
Definition set_timeout (v : Z) (s : state) : state :=
  mkState (address s) (first_word s) (num_to_flash s) (crc32_sum s) (iv s)
          (key_state s) v (flash_buffer s) (encrypted_buffer s)
          (flash s) (rx s) (trace s).
Definition set_flash_buffer (v : list Z) (s : state) : state :=
  mkState (address s) (first_word s) (num_to_flash s) (crc32_sum s) (iv s)
          (key_state s) (timeout s) v (encrypted_buffer s)
          (flash s) (rx s) (trace s).
Definition set_encrypted_buffer (v : list Z) (s : state) : state :=
  mkState (address s) (first_word s) (num_to_flash s) (crc32_sum s) (iv s)
          (key_state s) (timeout s) (flash_buffer s) v
          (flash s) (rx s) (trace s).
Definition set_flash (v : F) (s : state) : state :=
  mkState (address s) (first_word s) (num_to_flash s) (crc32_sum s) (iv s)
          (key_state s) (timeout s) (flash_buffer s) (encrypted_buffer s)
          v (rx s) (trace s).
Definition set_rx (v : list (option Z)) (s : state) : state :=
  mkState (address s) (first_word s) (num_to_flash s) (crc32_sum s) (iv s)
          (key_state s) (timeout s) (flash_buffer s) (encrypted_buffer s)
          (flash s) v (trace s).
Definition log (e : event) (s : state) : state :=
  mkState (address s) (first_word s) (num_to_flash s) (crc32_sum s) (iv s)
          (key_state s) (timeout s) (flash_buffer s) (encrypted_buffer s)
          (flash s) (rx s) (trace s ++ [e]).

(** ** A state monad with the [goto]s of the command switch *)

Definition M (A : Type) : Type := state -> res A * state.

Definition ret {A : Type} (a : A) : M A := fun s => (Val a, s).

Definition bind {A B : Type} (m : M A) (k : A -> M B) : M B :=
  fun s =>
    match m s with
    | (Val a, s') => k a s'
    | (Goto l, s') => (Goto l, s')
    end.

Definition goto {A : Type} (l : label) : M A := fun s => (Goto l, s).

Definition get : M state := fun s => (Val s, s).

Definition modify (f : state -> state) : M unit := fun s => (Val tt, f s).

Definition when (b : bool) (m : M unit) : M unit :=
  if b then m else ret tt.

(** [for (i = start; ...; i += step)] run for [n] rounds. *)
Fixpoint for_loop (n : nat) (i step : Z) (body : Z -> M unit) : M unit :=
  match n with
  | O => ret tt
  | S k => bind (body i) (fun _ => for_loop k (i + step) step body)
  end.

Notation "x <- m ;; k" := (bind m (fun x => k))
  (at level 61, m at next level, right associativity).
Notation "m ;; k" := (bind m (fun _ => k))
  (at level 61, right associativity).

(** ** Input and output *)

(** [cin_wait(timeout)]: the next entry of the script, [-1] when nothing
    came before the deadline (or ever). *)
Definition cin_wait (timeout : Z) : M Z :=
  fun s =>
    match rx s with
    | Some b :: r => (Val (u8 b), set_rx r (log (EvCin timeout) s))
    | None :: r => (Val (-1), set_rx r (log (EvCin timeout) s))
    | [] => (Val (-1), set_rx [] (log (EvCin timeout) s))
    end.

Definition wait_for_eoc (timeout : Z) : M bool :=
  c <- cin_wait timeout ;; ret (c =? PROTO_EOC).

(** [cout(buf)] as the session sees it: the call is recorded with the
    bytes handed to it.  Whether those bytes leave, and on which
    transport, is decided inside [cout] by [bl_type]; that test is
    [Transport.cout], and [step_calls] puts the two together. *)
Definition cout (buf : list Z) : M unit := modify (log (EvCout buf)).

Definition cout_word (val : Z) : M unit := cout (word_bytes val).

(** [cin_word(wp, timeout)]: the returned [int] and the content of [*wp]
    afterwards ([wp0] is its content before). *)
Definition cin_word (wp0 : Z) (timeout : Z) : M (Z * Z) :=
  c0 <- cin_wait timeout ;;
  if c0 <? 0 then ret (c0, wp0) else
  c1 <- cin_wait timeout ;;
  if c1 <? 0 then ret (c1, wp0) else
  c2 <- cin_wait timeout ;;
  if c2 <? 0 then ret (c2, wp0) else
  c3 <- cin_wait timeout ;;
  if c3 <? 0 then ret (c3, wp0) else
  ret (0, bytes_word (Z.land c0 255) (Z.land c1 255)
                     (Z.land c2 255) (Z.land c3 255)).

Definition sync_response : M unit := cout [PROTO_INSYNC; PROTO_OK].
Definition bad_silicon_response : M unit :=
  cout [PROTO_INSYNC; PROTO_BAD_SILICON_REV].
Definition bad_key_response : M unit := cout [PROTO_INSYNC; PROTO_BAD_KEY].
Definition invalid_response : M unit := cout [PROTO_INSYNC; PROTO_INVALID].
Definition failure_response : M unit := cout [PROTO_INSYNC; PROTO_FAILED].

(** ** The key *)

Fixpoint validate_key_from (words : nat) (address : Z) (f : F) : Z :=
  match words with
  | O => 1
  | S k =>
      if negb (phy_read_word address f =? 0) then 0
      else validate_key_from k (address + 4) f
  end.

Definition validate_key (f : F) : Z :=
  validate_key_from 4 (key_address board_info) f.

Fixpoint zero_key_from (words : nat) (address : Z) (f : F) : F :=
  match words with
  | O => f
  | S k =>
      zero_key_from k (address + 4)
        (if negb (phy_read_word address f =? 0)
         then flash_func_phy_write_word address 0 f else f)
  end.

Definition zero_key : M unit :=
  modify (fun s =>
    set_flash (zero_key_from 4 (key_address board_info) (flash s))
              (log EvZeroKey s)).

(** [key.w[i]] and [key.b] as they read from the flash. *)
Definition key_w (i : Z) (f : F) : Z :=
  phy_read_word (key_address board_info + 4 * i) f.

Definition key_b (f : F) : list Z :=
  word_bytes (key_w 0 f) ++ word_bytes (key_w 1 f) ++
  word_bytes (key_w 2 f) ++ word_bytes (key_w 3 f).

(** ** Pieces shared by several commands *)

(** [#if defined(TARGET_HW_PX4_FMU_V4) if (check_silicon()) goto bad_silicon;] *)
Definition silicon_gate : M unit :=
  when (TARGET_HW_PX4_FMU_V4 board_info && check_silicon board_info)
       (goto bad_silicon).

(** [for (int i = 0; flash_func_sector_size(i) != 0; i++)
      flash_func_erase_sector(i);] *)
Fixpoint erase_sectors (fuel : nat) (i : nat) (f : F) : F :=
  match fuel with
  | O => f
  | S k =>
      if flash_func_sector_size board_info i =? 0 then f
      else erase_sectors k (S i) (flash_func_erase_sector (Z.of_nat i) f)
  end.

(** The number of rounds of [for (p = 0; p < bound; p += 4)], for a
    [bound] of at most [2^32 - 4] (beyond it the 32-bit counter would
    wrap before it reaches the bound). *)
Definition words_below (bound : Z) : nat := Z.to_nat ((bound + 3) / 4).

(** One round of the programming loops: write [flash_buffer.w[i]] at
    [address], read it back, advance [address]. *)
Definition program_word (i : Z) : M unit :=
  modify (fun s =>
    set_flash (flash_func_write_word (address s)
                 (buf_w i (flash_buffer s)) (flash s)) s) ;;
  s <- get ;;
  when (negb (flash_func_read_word (address s) (flash s)
              =? buf_w i (flash_buffer s)))
       (goto cmd_fail) ;;
  modify (fun s => set_address (u32 (address s + 4)) s).

(** The CRC loops of GET_CRC and CHECK_CRC, [n] rounds from offset [p]. *)
Fixpoint crc_loop (n : nat) (p : Z) (fw : Z) (f : F) (sum : Z) : Z :=
  match n with
  | O => sum
  | S k =>
      let bytes :=
        if (p =? 0) && negb (fw =? ERASED) then fw
        else flash_func_read_word p f in
      crc_loop k (p + 4) fw f (crc32 (word_bytes bytes) sum)
  end.

(** ** The commands *)

Definition do_get_sync : M unit :=
  ok <- wait_for_eoc 2 ;;
  when (negb ok) (goto cmd_bad).

Definition do_get_device : M unit :=
  arg <- cin_wait 1000 ;;
  when (arg <? 0) (goto cmd_bad) ;;
  ok <- wait_for_eoc 2 ;;
  when (negb ok) (goto cmd_bad) ;;
  if arg =? PROTO_DEVICE_BL_REV then cout (word_bytes bl_proto_rev)
  else if arg =? PROTO_DEVICE_BOARD_ID then
    cout (word_bytes (board_type board_info))
  else if arg =? PROTO_DEVICE_BOARD_REV then
    cout (word_bytes (board_rev board_info))
  else if arg =? PROTO_DEVICE_FW_SIZE then
    cout (word_bytes (fw_size board_info))
  else if arg =? PROTO_DEVICE_VEC_AREA then
    for_loop 4 7 1 (fun p =>
      s <- get ;;
      cout (word_bytes (flash_func_read_word (p * 4) (flash s))))
  else goto cmd_bad.

Definition do_chip_erase : M unit :=
  ok <- wait_for_eoc 2 ;;
  when (negb ok) (goto cmd_bad) ;;
  silicon_gate ;;
  modify (fun s =>
    set_flash (erase_sectors (S (length (flash_sectors board_info))) 0
                             (flash s)) s) ;;
  modify (set_address 0) ;;
  for_loop (words_below (fw_size board_info)) 0 4 (fun _ =>
    s <- get ;;
    when (negb (flash_func_read_word (address s) (flash s) =? ERASED))
         (goto cmd_fail) ;;
    modify (set_address (u32 (address s + 4)))) ;;
  modify (set_address 0).

Definition do_prog_multi : M unit :=
  arg <- cin_wait 50 ;;
  when (arg <? 0) (goto cmd_bad) ;;
  when (negb (Z.rem arg 4 =? 0)) (goto cmd_bad) ;;
  s <- get ;;
  when (u32 (address s + arg) >? fw_size board_info) (goto cmd_bad) ;;
  when (arg >? 256) (goto cmd_bad) ;;
  for_loop (Z.to_nat arg) 0 1 (fun i =>
    c <- cin_wait 1000 ;;
    when (c <? 0) (goto cmd_bad) ;;
    modify (fun s => set_flash_buffer (set_buf_c i c (flash_buffer s)) s)) ;;
  ok <- wait_for_eoc 200 ;;
  when (negb ok) (goto cmd_bad) ;;
  s <- get ;;
  when (address s =? 0)
    (silicon_gate ;;
     when (ENABLE_ENCRYPTION board_info) zero_key ;;
     modify (fun s => set_first_word (buf_w 0 (flash_buffer s)) s) ;;
     modify (fun s =>
       set_flash_buffer (set_buf_w 0 ERASED (flash_buffer s)) s)) ;;
  for_loop (Z.to_nat (Z.quot arg 4)) 0 1 program_word.

Definition do_get_crc : M unit :=
  ok <- wait_for_eoc 2 ;;
  when (negb ok) (goto cmd_bad) ;;
  s <- get ;;
  cout_word (crc_loop (words_below (fw_size board_info)) 0
                      (first_word s) (flash s) 0).

Definition do_get_otp : M unit :=
  r <- cin_word 0 100 ;;
  when (negb (fst r =? 0)) (goto cmd_bad) ;;
  ok <- wait_for_eoc 2 ;;
  when (negb ok) (goto cmd_bad) ;;
  s <- get ;;
  cout_word (flash_func_read_otp (snd r) (flash s)).

Definition do_get_sn : M unit :=
  r <- cin_word 0 100 ;;
  when (negb (fst r =? 0)) (goto cmd_bad) ;;
  ok <- wait_for_eoc 2 ;;
  when (negb ok) (goto cmd_bad) ;;
  s <- get ;;
  cout_word (flash_func_read_sn (snd r) (flash s)).

Definition do_get_chip : M unit :=
  ok <- wait_for_eoc 2 ;;
  when (negb ok) (goto cmd_bad) ;;
  cout_word (mcu_id board_info).

Definition do_get_chip_des : M unit :=
  ok <- wait_for_eoc 2 ;;
  when (negb ok) (goto cmd_bad) ;;
  cout_word (Z.of_nat (length (mcu_desc board_info))) ;;
  cout (mcu_desc board_info).

Definition do_set_delay (BOOT_DELAY_ADDRESS : Z) : M unit :=
  v <- cin_wait 100 ;;
  when (v <? 0) (goto cmd_bad) ;;
  let boot_delay := Z.land v 255 in
  when (boot_delay >? BOOT_DELAY_MAX board_info) (goto cmd_bad) ;;
  ok <- wait_for_eoc 2 ;;
  when (negb ok) (goto cmd_bad) ;;
  s <- get ;;
  let sig1 := flash_func_read_word BOOT_DELAY_ADDRESS (flash s) in
  let sig2 := flash_func_read_word (BOOT_DELAY_ADDRESS + 4) (flash s) in
  when (negb (sig1 =? BOOT_DELAY_SIGNATURE1 board_info)
        || negb (sig2 =? BOOT_DELAY_SIGNATURE2 board_info))
       (goto cmd_bad) ;;
  let value :=
    Z.lor (Z.land (BOOT_DELAY_SIGNATURE1 board_info) 0xFFFFFF00) boot_delay in
  modify (fun s =>
    set_flash (flash_func_write_word BOOT_DELAY_ADDRESS value (flash s)) s) ;;
  s <- get ;;
  when (negb (flash_func_read_word BOOT_DELAY_ADDRESS (flash s) =? value))
       (goto cmd_fail).

Definition do_boot : M unit :=
  ok <- wait_for_eoc 1000 ;;
  when (negb ok) (goto cmd_bad) ;;
  s <- get ;;
  when (negb (first_word s =? ERASED))
    (modify (fun s =>
       set_flash (flash_func_write_word 0 (first_word s) (flash s)) s) ;;
     s <- get ;;
     when (negb (flash_func_read_word 0 (flash s) =? first_word s))
          (goto cmd_fail) ;;
     modify (set_first_word ERASED)) ;;
  sync_response ;;
  goto leave.

Definition do_debug : M unit := ret tt.

Definition do_set_iv : M unit :=
  for_loop 16 0 1 (fun i =>
    c <- cin_wait 1000 ;;
    when (c <? 0) (goto cmd_bad) ;;
    modify (fun s => set_iv (set_buf_c i c (iv s)) s)) ;;
  ok <- wait_for_eoc 200 ;;
  when (negb ok) (goto cmd_bad).

(** One round of the decryption loop, on the block at [i]. *)
Definition decrypt_block (i : Z) : M unit :=
  modify (fun s =>
    set_flash_buffer
      (blit i (block16 (AES128_CBC_decrypt_buffer
                          (slice i 16 (encrypted_buffer s))
                          (key_b (flash s)) (iv s)))
            (flash_buffer s)) s) ;;
  for_loop 16 0 1 (fun j =>
    modify (fun s =>
      set_iv (set_buf_c j (buf_c (i + j) (encrypted_buffer s)) (iv s)) s)).

Definition do_prog_multi_encrypted : M unit :=
  arg <- cin_wait 50 ;;
  when (arg <? 0) (goto cmd_bad) ;;
  when (negb (Z.rem arg 4 =? 0)) (goto cmd_bad) ;;
  s <- get ;;
  when (u32 (address s + arg) >? fw_size board_info) (goto cmd_bad) ;;
  when (arg >? 256) (goto cmd_bad) ;;
  for_loop (Z.to_nat arg) 0 1 (fun i =>
    c <- cin_wait 1000 ;;
    when (c <? 0) (goto cmd_bad) ;;
    modify (fun s =>
      set_encrypted_buffer (set_buf_c i c (encrypted_buffer s)) s)) ;;
  ok <- wait_for_eoc 200 ;;
  when (negb ok) (goto cmd_bad) ;;
  s <- get ;;
  when (negb (key_state s =? 0)) (goto bad_key) ;;
  (if (Z.rem arg 16 =? 0) && (arg <? PROTO_PROG_MULTI_MAX)
   then for_loop (Z.to_nat (Z.quot arg 16)) 0 16 decrypt_block
   else goto cmd_bad) ;;
  s <- get ;;
  start <-
    (if address s =? 0 then
       silicon_gate ;;
       modify (fun s => set_num_to_flash (buf_w 0 (flash_buffer s)) s) ;;
       modify (fun s => set_crc32_sum (buf_w 1 (flash_buffer s)) s) ;;
       modify (fun s => set_first_word (buf_w 4 (flash_buffer s)) s) ;;
       modify (fun s =>
         set_flash_buffer (set_buf_w 4 ERASED (flash_buffer s)) s) ;;
       ret 4
     else ret 0) ;;
  s <- get ;;
  when (num_to_flash s >? fw_size board_info) (goto cmd_fail) ;;
  for_loop (Z.to_nat (Z.quot arg 4 - start)) start 1 program_word.

Definition do_check_crc : M unit :=
  ok <- wait_for_eoc 2 ;;
  when (negb ok) (goto cmd_bad) ;;
  s <- get ;;
  when (num_to_flash s >? fw_size board_info) (goto cmd_fail) ;;
  let crc32_sum_read :=
    crc_loop (words_below (num_to_flash s)) 0 (first_word s) (flash s) 0 in
  when (negb (crc32_sum_read =? crc32_sum s)) (goto cmd_fail).

Definition do_check_key : M unit :=
  ok <- wait_for_eoc 2 ;;
  when (negb ok) (goto cmd_bad) ;;
  s <- get ;;
  if ENABLE_ENCRYPTION board_info
  then when (negb (key_state s =? 0)) (goto bad_key)
  else goto bad_key.

(** The [switch (c)]. *)
Definition command (c : Z) : M unit :=
  if c =? PROTO_GET_SYNC then do_get_sync
  else if c =? PROTO_GET_DEVICE then do_get_device
  else if c =? PROTO_CHIP_ERASE then do_chip_erase
  else if c =? PROTO_PROG_MULTI then do_prog_multi
  else if c =? PROTO_GET_CRC then do_get_crc
  else if c =? PROTO_GET_OTP then do_get_otp
  else if c =? PROTO_GET_SN then do_get_sn
  else if c =? PROTO_GET_CHIP then do_get_chip
  else if c =? PROTO_GET_CHIP_DES then do_get_chip_des
  else if c =? PROTO_SET_DELAY then
    match BOOT_DELAY_ADDRESS board_info with
    | Some a => do_set_delay a
    | None => goto next_command
    end
  else if c =? PROTO_BOOT then do_boot
  else if c =? PROTO_DEBUG then do_debug
  else if (c =? PROTO_SET_IV) && ENABLE_ENCRYPTION board_info
  then do_set_iv
  else if (c =? PROTO_PROG_MULTI_ENCRYPTED) && ENABLE_ENCRYPTION board_info
  then do_prog_multi_encrypted
  else if (c =? PROTO_CHECK_CRC) && ENABLE_ENCRYPTION board_info
  then do_check_crc
  else if c =? PROTO_CHECK_KEY then do_check_key
  else goto next_command.

(** ** One round of the [while (true)] loop, from the command byte on *)

Inductive reply : Type :=
| OK | INVALID | FAILED | BAD_SILICON | BAD_KEY
| NO_REPLY    (* an unknown command byte *)
| BOOTED.     (* [sync_response()] was called and [bootloader()] returned *)

Definition bootloader_step (c : Z) (s : state) : reply * state :=
  match command c s with
  | (Val _, s1) => (OK, snd (sync_response (set_timeout 0 s1)))
  | (Goto cmd_bad, s1) => (INVALID, snd (invalid_response s1))
  | (Goto cmd_fail, s1) => (FAILED, snd (failure_response s1))
  | (Goto bad_silicon, s1) => (BAD_SILICON, snd (bad_silicon_response s1))
  | (Goto bad_key, s1) => (BAD_KEY, snd (bad_key_response s1))
  | (Goto next_command, s1) => (NO_REPLY, s1)
  | (Goto leave, s1) => (BOOTED, s1)
  end.

(** ** The session *)

(** The state [bootloader(timeout)] starts from: [f] is the flash and
    [script] what the host will send; the static buffers and vector are as
    after reset, all zero. *)
Definition bootloader_init (timeout : Z) (f : F) (script : list (option Z))
  : state :=
  mkState (fw_size board_info) ERASED 0 0 (repeat 0 16)
          (if ENABLE_ENCRYPTION board_info then validate_key f else -1)
          timeout zero_buffer zero_buffer f script [].

Inductive ending : Type :=
| Returned_boot      (* the [return] of PROTO_BOOT *)
| Returned_timeout   (* nothing more arrives and the wait timer runs out *)
| Waiting.           (* nothing more arrives, no timer armed *)

(** The [while (true)] loop: the commands answered, with their command
    byte, how the run ends, and the last state.  The wait for a command
    byte polls with [cin_wait(0)]; an empty poll goes round again.  The
    tick that runs [timer[TIMER_BL_WAIT]] down is not modelled: the wait
    timer is taken to run out only once the script is used up, so a run
    in which it runs out earlier is the run of a shorter script.  Every
    round takes at least one entry of the script, so [S (length (rx s))]
    rounds are enough (lemma [bootloader_loop_fuel]). *)
Fixpoint bootloader_loop (fuel : nat) (s : state)
  : list (Z * reply) * ending * state :=
  match fuel with
  | O => ([], Waiting, s)
  | S k =>
      match rx s with
      | [] => ([], if timeout s =? 0 then Waiting else Returned_timeout, s)
      | _ :: _ =>
          match cin_wait 0 s with
          | (Val c, s1) =>
              if c <? 0 then bootloader_loop k s1
              else
                match bootloader_step c s1 with
                | (BOOTED, s2) => ([(c, BOOTED)], Returned_boot, s2)
                | (r, s2) =>
                    match bootloader_loop k s2 with
                    | (h, e, s3) => ((c, r) :: h, e, s3)
                    end
                end
          | (Goto _, s1) => ([], Waiting, s1)
          end
      end
  end.

Definition bootloader (timeout : Z) (f : F) (script : list (option Z))
  : list (Z * reply) * ending * state :=
  bootloader_loop (S (length script)) (bootloader_init timeout f script).

(** ** Reasoning about commands: weakest preconditions

    [wp m Q E s]: run from [s], the computation [m] either ends normally
    in a state and value that satisfy [Q], or jumps to a label [l] in a
    state that satisfies [E l]. *)

Definition wp {A : Type} (m : M A) (Q : A -> state -> Prop)
  (E : label -> state -> Prop) (s : state) : Prop :=
  match m s with
  | (Val a, s') => Q a s'
  | (Goto l, s') => E l s'
  end.

(** What one call of [cin_wait] returns and leaves of the script. *)
Definition cin_result (script : list (option Z)) (c : Z)
  (r : list (option Z)) : Prop :=
  match script with
  | Some b :: r' => c = u8 b /\ r = r'
  | None :: r' => c = -1 /\ r = r'
  | [] => c = -1 /\ r = []
  end.

(** ** Observations on the trace *)

Fixpoint zero_key_calls (t : list event) : nat :=
  match t with
  | [] => O
  | EvZeroKey :: t' => S (zero_key_calls t')
  | _ :: t' => zero_key_calls t'
  end.

Fixpoint cin_deadlines (t : list event) : list Z :=
  match t with
  | [] => []
  | EvCin d :: t' => d :: cin_deadlines t'
  | _ :: t' => cin_deadlines t'
  end.

(** The offsets [0, 4, 8, ...] below [bound]. *)
Definition offsets (bound : Z) : list Z :=
  map (fun k => 4 * Z.of_nat k) (seq 0 (words_below bound)).

(** ** Relations between the states before and after a command *)

(** Nothing but the script, the trace, the vector and the buffers moved,
    and [zero_key] was not called. *)
Definition same_core (s s' : state) : Prop :=
  address s' = address s /\ first_word s' = first_word s /\
  num_to_flash s' = num_to_flash s /\ crc32_sum s' = crc32_sum s /\
  flash s' = flash s /\ key_state s' = key_state s /\
  flash_buffer s' = flash_buffer s /\
  encrypted_buffer s' = encrypted_buffer s /\
  zero_key_calls (trace s') = zero_key_calls (trace s).

(** A computation that changes nothing of the core. *)
Definition quiet (m : M unit) : Prop :=
  forall s, wp m (fun _ s' => same_core s s') (fun _ s' => same_core s s') s.

(** ** Contracts of the flash driver

    The driver is outside [bl.c]; the invariants of the session hold for
    a driver that behaves. *)

(** An erased word takes what is written to it, the other words keep
    theirs, and erased words stay erased when a sector is erased or a
    key word is written. *)
Class Reliable : Prop := {
  write_read_same : forall f a w,
    flash_func_read_word a f = ERASED ->
    flash_func_read_word a (flash_func_write_word a w f) = w;
  write_read_other : forall f a b w,
    a <> b ->
    flash_func_read_word b (flash_func_write_word a w f)
    = flash_func_read_word b f;
  erase_keeps_erased : forall f i a,
    flash_func_read_word a f = ERASED ->
    flash_func_read_word a (flash_func_erase_sector i f) = ERASED;
  phy_write_keeps_app : forall f p w a,
    flash_func_read_word a (flash_func_phy_write_word p w f)
    = flash_func_read_word a f
}.

(** The key words are out of the reach of the application-region
    operations, and a physical write touches one word. *)
Class KeyIsolated : Prop := {
  write_keeps_key : forall f a w i,
    0 <= i < 4 -> key_w i (flash_func_write_word a w f) = key_w i f;
  erase_keeps_key : forall f j i,
    0 <= i < 4 -> key_w i (flash_func_erase_sector j f) = key_w i f;
  phy_write_other : forall f p q w,
    p <> q ->
    phy_read_word q (flash_func_phy_write_word p w f) = phy_read_word q f
}.

(** The board leaves room for the arithmetic on [address]. *)
Definition board_ok : Prop :=
  0 <= fw_size board_info /\ fw_size board_info + 256 <= 2 ^ 32 /\
  BOOT_DELAY_ADDRESS board_info <> Some 0.


(** ** What CHIP_ERASE computes *)

(** The flash after the erase loop. *)
Definition erase_all (f : F) : F :=
  erase_sectors (S (length (flash_sectors board_info))) 0 f.

(** Every word of [0, fw_size) reads erased. *)
Definition all_erased (f : F) : bool :=
  forallb (fun p => flash_func_read_word p f =? ERASED)
          (offsets (fw_size board_info)).

(** ** What the CRC commands sum

    The whole words at the offsets 0, 4, 8, ... below [bound], as bytes,
    with a pending first word [fw] in the place of the flash word at
    offset 0: the bytes at [0, bound) when [bound] is a multiple of 4,
    and on to the end of the last word begun when it is not. *)
Definition pending_image (fw : Z) (f : F) (bound : Z) : list Z :=
  flat_map
    (fun p => word_bytes (if p =? 0 then fw else flash_func_read_word p f))
    (offsets bound).

(** ** When [zero_key] runs

    In the PROG_MULTI packets that get past their EOC at address 0 (and
    past the silicon check): the ones answered OK or FAILED. *)
Definition zero_key_called (c : Z) (s : state) (r : reply) : bool :=
  (c =? PROTO_PROG_MULTI) && ENABLE_ENCRYPTION board_info
  && (address s =? 0)
  && match r with OK | FAILED => true | _ => false end.

(** The bookkeeping of the key between two states: [n] more calls of
    [zero_key], and the key words of [fb]. *)
Definition key_is (n : nat) (fb : F) (s s' : state) : Prop :=
  zero_key_calls (trace s') = (zero_key_calls (trace s) + n)%nat /\
  forall i, 0 <= i < 4 -> key_w i (flash s') = key_w i fb.

Definition key_same (s s' : state) : Prop := key_is 0 (flash s) s s'.

(** What a PROG_MULTI does to the key, by whether it got to its
    programming loop. *)
Definition key_post (reached : bool) (s s' : state) : Prop :=
  if reached && ENABLE_ENCRYPTION board_info && (address s =? 0)
  then key_is 1 (zero_key_from 4 (key_address board_info) (flash s)) s s'
  else key_same s s'.

(** ** The header of the encrypted image *)

Definition header_same (s s' : state) : Prop :=
  num_to_flash s' = num_to_flash s /\ crc32_sum s' = crc32_sum s.

(** A PROG_MULTI_ENCRYPTED packet that got as far as the header: the
    ones answered OK or FAILED. *)
Definition header_read (c : Z) (r : reply) : bool :=
  (c =? PROTO_PROG_MULTI_ENCRYPTED)
  && match r with OK | FAILED => true | _ => false end.

Definition is_booted (r : reply) : bool :=
  match r with BOOTED => true | _ => false end.

(** ** The invariant behind the boot gate

    Word 0 of the application region reads erased, [address] is inside
    the region, and the flash buffer has its 256 bytes. *)
Definition gate_closed (s : state) : Prop :=
  flash_func_read_word 0 (flash s) = ERASED /\
  0 <= address s <= fw_size board_info /\
  length (flash_buffer s) = 256%nat.

(** ** The deadlines of the reads

    [schedule c script]: the deadlines, in milliseconds, of the reads a
    command with byte [c] makes after its command byte, in order; for
    the two programming commands the number of payload reads is the
    length byte, the first entry of [script]. *)
Definition payload_schedule (script : list (option Z)) : list Z :=
  50 :: match script with
        | Some len :: _ => repeat 1000 (Z.to_nat (u8 len)) ++ [200]
        | _ => []
        end.

Definition schedule (c : Z) (script : list (option Z)) : list Z :=
  if c =? PROTO_GET_SYNC then [2]
  else if c =? PROTO_GET_DEVICE then [1000; 2]
  else if c =? PROTO_CHIP_ERASE then [2]
  else if c =? PROTO_PROG_MULTI then payload_schedule script
  else if c =? PROTO_GET_CRC then [2]
  else if c =? PROTO_GET_OTP then [100; 100; 100; 100; 2]
  else if c =? PROTO_GET_SN then [100; 100; 100; 100; 2]
  else if c =? PROTO_GET_CHIP then [2]
  else if c =? PROTO_GET_CHIP_DES then [2]
  else if c =? PROTO_SET_DELAY then
    match BOOT_DELAY_ADDRESS board_info with
    | Some _ => [100; 2]
    | None => []
    end
  else if c =? PROTO_BOOT then [1000]
  else if c =? PROTO_DEBUG then []
  else if (c =? PROTO_SET_IV) && ENABLE_ENCRYPTION board_info
  then repeat 1000 16 ++ [200]
  else if (c =? PROTO_PROG_MULTI_ENCRYPTED) && ENABLE_ENCRYPTION board_info
  then payload_schedule script
  else if (c =? PROTO_CHECK_CRC) && ENABLE_ENCRYPTION board_info then [2]
  else if c =? PROTO_CHECK_KEY then [2]
  else [].

(** The reads made between [s] and [s'] had the deadlines [d]. *)
Definition dl (s : state) (d : list Z) (s' : state) : Prop :=
  cin_deadlines (trace s') = cin_deadlines (trace s) ++ d.

(** A command that ends in [cmd_bad] made a first part of its reads, an
    ignored command byte none, any other all of them. *)
Definition dl_exit (sch : list Z) (s : state) (l : label) (s' : state)
  : Prop :=
  match l with
  | cmd_bad => exists d rest, dl s d s' /\ sch = d ++ rest
  | next_command => dl s [] s'
  | _ => dl s sch s'
  end.

Definition follows_schedule (sch : list Z) (m : M unit) (s : state) : Prop :=
  wp m (fun _ s' => dl s sch s') (dl_exit sch s) s.

(** A command only takes from the script. *)
Definition rx_shrinks (s s' : state) : Prop :=
  (length (rx s') <= length (rx s))%nat.

End Bootloader.

Arguments state F : clear implicits.
Arguments M F A : clear implicits.

(** ** The session as the host sees it *)

Section Session.

Context {F : Type} {HW : Platform F}.

(** The status byte that follows INSYNC in the answer of a reply. *)
Definition reply_code (r : reply) : option Z :=
  match r with
  | OK | BOOTED => Some PROTO_OK
  | INVALID => Some PROTO_INVALID
  | FAILED => Some PROTO_FAILED
  | BAD_SILICON => Some PROTO_BAD_SILICON_REV
  | BAD_KEY => Some PROTO_BAD_KEY
  | NO_REPLY => None
  end.

Definition accepted (r : reply) : bool :=
  match r with OK => true | _ => false end.

(** The replies of a command that was turned down before it did
    anything. *)
Definition refused (r : reply) : bool :=
  match r with
  | INVALID | BAD_SILICON | BAD_KEY | NO_REPLY => true
  | _ => false
  end.

(** What a command never touches: the wait timer, the key state, the
    sizes of the vector and of the buffers; and it only adds to the
    trace. *)
Definition session_frame (s s' : state F) : Prop :=
  timeout s' = timeout s /\ key_state s' = key_state s /\
  length (iv s') = length (iv s) /\
  length (flash_buffer s') = length (flash_buffer s) /\
  length (encrypted_buffer s') = length (encrypted_buffer s) /\
  exists evs, trace s' = trace s ++ evs.

(** How a command may leave the switch without [break]: only BOOT
    returns, after its INSYNC/OK, and a command byte that is not served
    goes round with nothing done. *)
Definition exit_ok (s : state F) (l : label) (s' : state F) : Prop :=
  match l with
  | leave =>
      exists evs,
        trace s' = trace s ++ evs ++ [EvCout [PROTO_INSYNC; PROTO_OK]]
  | next_command => s' = s
  | _ => True
  end.

(** The byte strings handed to [cout] so far, oldest first. *)
Fixpoint handed (t : list event) : list (list Z) :=
  match t with
  | [] => []
  | EvCout b :: t' => b :: handed t'
  | _ :: t' => handed t'
  end.

(** A command that leaves the switch without [break] has handed nothing
    to [cout], but for the INSYNC/OK of BOOT. *)
Definition silent_exit (s : state F) (l : label) (s' : state F) : Prop :=
  handed (trace s')
  = handed (trace s)
    ++ match l with
       | leave => [[PROTO_INSYNC; PROTO_OK]]
       | _ => []
       end.

(** The number of data bytes an accepted command hands to [cout] ahead
    of its INSYNC/OK, by its command byte and, for GET_DEVICE, its
    argument (the first entry of [script]). *)
Definition answer_bytes (c : Z) (script : list (option Z)) : nat :=
  if c =? PROTO_GET_DEVICE then
    match script with
    | Some arg :: _ => if u8 arg =? PROTO_DEVICE_VEC_AREA then 16 else 4
    | _ => 0
    end
  else if (c =? PROTO_GET_CRC) || (c =? PROTO_GET_OTP) || (c =? PROTO_GET_SN)
          || (c =? PROTO_GET_CHIP)
  then 4
  else if c =? PROTO_GET_CHIP_DES then 4 + length (mcu_desc board_info)
  else 0.

(** Between [s] and [s'], [n] data bytes were handed to [cout]. *)
Definition handed_bytes (s : state F) (n : nat) (s' : state F) : Prop :=
  exists data,
    handed (trace s') = handed (trace s) ++ data /\ length (concat data) = n.

(** The flash and the programming state are as they were. *)
Definition untouched (s s' : state F) : Prop :=
  flash s' = flash s /\ address s' = address s /\
  first_word s' = first_word s /\ num_to_flash s' = num_to_flash s /\
  crc32_sum s' = crc32_sum s.

(** A command that leaves without having programmed anything: through
    [cmd_bad], [bad_silicon], [bad_key] or the [default] case. *)
Definition refused_exit (s : state F) (l : label) (s' : state F) : Prop :=
  match l with
  | cmd_bad | bad_silicon | bad_key | next_command => untouched s s'
  | _ => True
  end.

(** The state [bootloader()] starts in, as far as programming goes:
    [address] at the end of the region, no first word held back. *)
Definition before_erase (s : state F) : Prop :=
  address s = fw_size board_info /\ first_word s = ERASED.

(** The command bytes of the [switch]. *)
Definition command_bytes : list Z :=
  [PROTO_GET_SYNC; PROTO_GET_DEVICE; PROTO_CHIP_ERASE; PROTO_PROG_MULTI;
   PROTO_GET_CRC; PROTO_GET_OTP; PROTO_GET_SN; PROTO_GET_CHIP;
   PROTO_GET_CHIP_DES; PROTO_SET_DELAY; PROTO_BOOT; PROTO_DEBUG;
   PROTO_SET_IV; PROTO_PROG_MULTI_ENCRYPTED; PROTO_CHECK_CRC;
   PROTO_CHECK_KEY].

(** The commands that ask and do not program. *)
Definition query_bytes : list Z :=
  [PROTO_GET_SYNC; PROTO_GET_DEVICE; PROTO_GET_CRC; PROTO_GET_OTP;
   PROTO_GET_SN; PROTO_GET_CHIP; PROTO_GET_CHIP_DES; PROTO_DEBUG;
   PROTO_CHECK_CRC; PROTO_CHECK_KEY].

(** A CHIP_ERASE that got to its erase loop: answered OK or FAILED. *)
Definition erase_ran (c : Z) (r : reply) : bool :=
  (c =? PROTO_CHIP_ERASE)
  && match r with OK | FAILED => true | _ => false end.

(** Word [k] of a payload, in the byte order of the target. *)
Definition payload_word (bs : list Z) (k : Z) : Z :=
  bytes_word (u8 (nth (Z.to_nat (4 * k)) bs 0))
             (u8 (nth (Z.to_nat (4 * k + 1)) bs 0))
             (u8 (nth (Z.to_nat (4 * k + 2)) bs 0))
             (u8 (nth (Z.to_nat (4 * k + 3)) bs 0)).

(** ** More contracts of the flash driver *)

(** A zero written to a physical word is read back. *)
Class KeyWritable : Prop := {
  phy_write_zero : forall f p,
    phy_read_word p (flash_func_phy_write_word p 0 f) = 0
}.

(** [writes f]: the offsets [flash_func_write_word] was called with on
    the way to the flash [f], oldest first. *)
Class Journal (writes : F -> list Z) : Prop := {
  journal_write : forall a w f,
    writes (flash_func_write_word a w f) = writes f ++ [a];
  journal_erase : forall i f,
    writes (flash_func_erase_sector i f) = writes f;
  journal_phy_write : forall p w f,
    writes (flash_func_phy_write_word p w f) = writes f
}.

(** The offsets written are inside the application region. *)
Definition in_region (ws : list Z) : Prop :=
  Forall (fun a => 0 <= a < fw_size board_info) ws.

(** What the session has written stays inside the application region:
    [address] is inside it, and every offset written since the flash
    [f0] is. *)
Definition writes_inside (writes : F -> list Z) (f0 : F) (s : state F)
  : Prop :=
  0 <= address s <= fw_size board_info /\
  exists ws, writes (flash s) = writes f0 ++ ws /\ in_region ws.

(** Once [zero_key] has been called the key reads as void. *)
Definition void_if_zeroed (s : state F) : Prop :=
  zero_key_calls (trace s) = O \/ validate_key (flash s) = 1.

(** ** What the decryption loop computes

    The sixteen bytes of the block at [i] of a buffer, and the chained
    decryption of [n] blocks from [i] on: every block is handed to the
    block primitive with the key and the vector, and becomes the vector
    of the next one. *)
Definition cipher_block (i : Z) (enc : list Z) : list Z :=
  map (fun j => u8 (buf_c (i + Z.of_nat j) enc)) (seq 0 16).

Fixpoint cbc_blocks (n : nat) (i : Z) (enc key ivec : list Z) : list Z :=
  match n with
  | O => []
  | S k =>
      block16 (AES128_CBC_decrypt_buffer (slice i 16 enc) key ivec)
      ++ cbc_blocks k (i + 16) enc key (cipher_block i enc)
  end.

(** The vector after [n] blocks from [i] on. *)
Definition cbc_vector (n : nat) (i : Z) (enc ivec : list Z) : list Z :=
  match n with
  | O => ivec
  | S k => cipher_block (i + 16 * Z.of_nat k) enc
  end.

(** Only the vector and the flash buffer moved. *)
Definition decrypted (s s' : state F) : Prop :=
  address s' = address s /\ first_word s' = first_word s /\
  num_to_flash s' = num_to_flash s /\ crc32_sum s' = crc32_sum s /\
  flash s' = flash s /\ key_state s' = key_state s /\ rx s' = rx s /\
  encrypted_buffer s' = encrypted_buffer s.

(** The flash buffer after the packet [bs] was received into the
    encrypted buffer and decrypted, and the vector left by it. *)
Definition plaintext (s : state F) (bs : list Z) : list Z :=
  blit 0 (cbc_blocks (Z.to_nat (Z.quot (Z.of_nat (length bs)) 16)) 0
                     (blit 0 bs (encrypted_buffer s))
                     (key_b (flash s)) (iv s))
       (flash_buffer s).

Definition next_vector (s : state F) (bs : list Z) : list Z :=
  cbc_vector (Z.to_nat (Z.quot (Z.of_nat (length bs)) 16)) 0
             (blit 0 bs (encrypted_buffer s)) (iv s).

(** The word SET_DELAY writes for a delay of [d] seconds. *)
Definition delay_word (d : Z) : Z :=
  Z.lor (Z.land (BOOT_DELAY_SIGNATURE1 board_info) 0xFFFFFF00) d.

(** ** Leaving for the application

    [app_base[i]] is a load from the physical address
    [APP_LOAD_ADDRESS + 4 * i].  [jump_to_app] either returns, or it
    shuts the bootloader down and calls [do_jump(stacktop, entrypoint)],
    which does not return: [Some (stacktop, entrypoint)]. *)

Section Application.

(** [APP_LOAD_ADDRESS] of [hw_config.h]. *)
Variable APP_LOAD_ADDRESS : Z.

Definition app_base (i : Z) (f : F) : Z :=
  phy_read_word (APP_LOAD_ADDRESS + 4 * i) f.

Definition jump_to_app (f : F) : option (Z * Z) :=
  if app_base 0 f =? 0xffffffff then None
  else if app_base 1 f <? APP_LOAD_ADDRESS then None
  else if app_base 1 f >=? u32 (APP_LOAD_ADDRESS + fw_size board_info)
  then None
  else Some (app_base 0 f, app_base 1 f).

(** Modelled from the spec: the flash driver is outside [bl.c]; the
    offsets of [flash_func_read_word] are offsets within the application
    region, which starts at [APP_LOAD_ADDRESS]. *)
Class AppMapped : Prop := {
  app_mapped : forall a f,
    0 <= a < fw_size board_info ->
    phy_read_word (APP_LOAD_ADDRESS + a) f = flash_func_read_word a f
}.

End Application.

End Session.

(** ** A concrete platform

    A small flash to run the model on: cells keyed by their offset in the
    application region (an absent cell is erased), the four key words, and
    a table of faulty cells.  A fault [(a, (hi, lo))] makes the cell at
    offset [a] read with the bits of [hi] stuck at one and only the bits
    of [lo] able to be one.  The block primitive is a stand-in, not AES:
    it only has to be some function of the block, the key and the vector. *)

Record sim_flash : Type := mkSim {
  cells : list (Z * Z);
  keyw : list Z
}.

Fixpoint lookup (a : Z) (l : list (Z * Z)) : option Z :=
  match l with
  | [] => None
  | (k, v) :: t => if k =? a then Some v else lookup a t
  end.

Definition sim_fault (faults : list (Z * (Z * Z))) (a : Z) (v : Z) : Z :=
  match find (fun e => fst e =? a) faults with
  | Some (_, (hi, lo)) => Z.land (Z.lor v hi) lo
  | None => v
  end.

Definition sim_read_word (faults : list (Z * (Z * Z))) (a : Z)
  (f : sim_flash) : Z :=
  sim_fault faults a
    (match lookup a (cells f) with Some v => v | None => ERASED end).

Definition sim_write_word (a w : Z) (f : sim_flash) : sim_flash :=
  mkSim ((a, w) :: cells f) (keyw f).

(** The first offset of sector [i] in the table [t]. *)
Definition sector_start (t : list Z) (i : Z) : Z :=
  fold_right Z.add 0 (firstn (Z.to_nat i) t).

Definition sim_erase_sector (t : list Z) (i : Z) (f : sim_flash)
  : sim_flash :=
  let lo := sector_start t i in
  let hi := lo + nth (Z.to_nat i) t 0 in
  mkSim (filter (fun e => negb ((lo <=? fst e) && (fst e <? hi))) (cells f))
        (keyw f).

Definition sim_phy_read_word (ka : Z) (p : Z) (f : sim_flash) : Z :=
  if (ka <=? p) && (p <? ka + 16) && ((p - ka) mod 4 =? 0)
  then nth (Z.to_nat ((p - ka) / 4)) (keyw f) 0 else 0.

Definition sim_phy_write_word (ka : Z) (p w : Z) (f : sim_flash)
  : sim_flash :=
  if (ka <=? p) && (p <? ka + 16) && ((p - ka) mod 4 =? 0)
  then mkSim (cells f) (upd (Z.to_nat ((p - ka) / 4)) w (keyw f)) else f.

Fixpoint xor_bytes (a b : list Z) : list Z :=
  match a, b with
  | x :: a', y :: b' => Z.lxor x y :: xor_bytes a' b'
  | _, _ => []
  end.

Definition sim_decrypt (inb key ivb : list Z) : list Z :=
  xor_bytes (xor_bytes inb key) ivb.

Definition sim_platform (b : board) (faults : list (Z * (Z * Z)))
  : Platform sim_flash := {|
  board_info := b;
  flash_func_erase_sector := sim_erase_sector (flash_sectors b);
  flash_func_read_word := sim_read_word faults;
  flash_func_write_word := sim_write_word;
  flash_func_read_otp := fun _ _ => 0;
  flash_func_read_sn := fun _ _ => 0;
  flash_func_phy_write_word := sim_phy_write_word (key_address b);
  phy_read_word := sim_phy_read_word (key_address b);
  AES128_CBC_decrypt_buffer := sim_decrypt
|}.

(** A board with 32 bytes of application flash in two sectors, encryption
    enabled, and a boot-delay signature at offset 16. *)
Definition tiny_board : board :=
  mkBoard 32 9 0 [16; 16] false false true 0x08003000
          (Some 16) 0xb7b1b200 0x7ea85eed 30 0x10016413 [83; 84].

Definition intact_key : list Z := [0xdeadbeef; 1; 2; 3].

(** A flash with an application installed. *)
Definition installed_app : sim_flash :=
  mkSim [(0, 0x20001000); (4, 0x08004101)] intact_key.

(** An empty flash. *)
Definition blank : sim_flash := mkSim [] intact_key.

(** The tiny board on a sound flash, and on flashes with one bad cell. *)
Definition sim_hw : Platform sim_flash := sim_platform tiny_board [].

(** Bit 0 of the word at offset 4 cannot be programmed to zero. *)
Definition sticky_hw : Platform sim_flash :=
  sim_platform tiny_board [(4, (1, ERASED))].

(** Bit 0 of word 0 cannot be programmed to zero. *)
Definition sticky0_hw : Platform sim_flash :=
  sim_platform tiny_board [(0, (1, ERASED))].

(** Bit 0 of the word at offset 8 cannot be erased to one. *)
Definition unerasable_hw : Platform sim_flash :=
  sim_platform tiny_board [(8, (0, 0xfffffffe))].

(** The state in which a session that received [bytes] is left. *)
Definition session_state (HW : Platform sim_flash) (f : sim_flash)
  (bytes : list Z) : state sim_flash :=
  snd (bootloader (HW := HW) 1000 f (map Some bytes)).

(** The host sends [bytes] to a bootloader waiting in state [s]. *)
Definition feed {F : Type} (bytes : list Z) (s : state F) : state F :=
  set_rx (map Some bytes) s.

Definition cmd_erase : list Z := [PROTO_CHIP_ERASE; PROTO_EOC].

Definition cmd_prog8 : list Z :=
  [PROTO_PROG_MULTI; 8; 0xAA; 0xBB; 0xCC; 0xDD; 0x11; 0x22; 0x33; 0x44;
   PROTO_EOC].

(** PROG_MULTI of the one word 0x20001000. *)
Definition cmd_prog4 : list Z :=
  [PROTO_PROG_MULTI; 4; 0x00; 0x10; 0x00; 0x20; PROTO_EOC].

(** PROG_MULTI and PROG_MULTI_ENCRYPTED with a length byte of zero. *)
Definition cmd_prog0 : list Z := [PROTO_PROG_MULTI; 0; PROTO_EOC].
Definition cmd_enc0 : list Z := [PROTO_PROG_MULTI_ENCRYPTED; 0; PROTO_EOC].

(** A flash whose key has been zeroed. *)
Definition voided : sim_flash := mkSim [] [0; 0; 0; 0].

(** How a session that received [bytes] ended, and what it answered. *)
Definition session_ending (HW : Platform sim_flash) (f : sim_flash)
  (bytes : list Z) : ending :=
  snd (fst (bootloader (HW := HW) 1000 f (map Some bytes))).

Definition session_history (HW : Platform sim_flash) (f : sim_flash)
  (bytes : list Z) : list (Z * reply) :=
  fst (fst (bootloader (HW := HW) 1000 f (map Some bytes))).

(** An erased chip waiting for a command. *)
Definition s_erased : state sim_flash :=
  session_state sim_hw installed_app cmd_erase.

(** After an upload of one word, waiting for a command. *)
Definition s_uploaded : state sim_flash :=
  session_state sim_hw installed_app (cmd_erase ++ cmd_prog4).

(** The same on the flash whose word 0 does not take the first word. *)
Definition s_uploaded_sticky0 : state sim_flash :=
  session_state sticky0_hw blank (cmd_erase ++ cmd_prog4).

(** * The code around the interpreter

    The receive ring of the serial driver ([buf_put], [buf_get]), the
    choice between the two transports ([cin], [cout] and the pinning of
    [bl_type]), the millisecond tick ([sys_tick_handler], [delay],
    [led_set]) and the jump into the application ([jump_to_app]). *)

(** ** The receive ring: [head], [tail] and [rx_buf[256]] *)

Module Rx.

Record ring : Type := mkRing {
  head : Z;
  tail : Z;
  rx_buf : list Z
}.

(** [rx_buf[head] = b] is an update inside the array for a [head] below
    256, which [buf_put] and [buf_get] keep. *)
Definition buf_put (b : Z) (r : ring) : ring :=
  let next := u32 (head r + 1) mod 256 in
  if negb (next =? tail r)
  then mkRing next (tail r) (upd (Z.to_nat (head r)) (u8 b) (rx_buf r))
  else r.

(** The returned [int] and the ring afterwards. *)
Definition buf_get (r : ring) : Z * ring :=
  if negb (tail r =? head r)
  then (nth (Z.to_nat (tail r)) (rx_buf r) 0,
        mkRing (head r) (u32 (tail r + 1) mod 256) (rx_buf r))
  else (-1, r).

(** The statics after reset. *)
Definition reset : ring := mkRing 0 0 (repeat 0 256).

Definition ring_ok (r : ring) : Prop :=
  0 <= head r < 256 /\ 0 <= tail r < 256 /\ length (rx_buf r) = 256%nat.

(** The bytes waiting in the ring, oldest first. *)
Definition queued (r : ring) : list Z :=
  map (fun k => nth (Z.to_nat ((tail r + Z.of_nat k) mod 256)) (rx_buf r) 0)
      (seq 0 (Z.to_nat ((head r - tail r) mod 256))).

(** [buf_put] of each byte in turn, and [n] calls of [buf_get]. *)
Definition puts (bs : list Z) (r : ring) : ring :=
  fold_left (fun r b => buf_put b r) bs r.

Fixpoint gets (n : nat) (r : ring) : list Z * ring :=
  match n with
  | O => ([], r)
  | S k =>
      let (c, r1) := buf_get r in
      let (cs, r2) := gets k r1 in
      (c :: cs, r2)
  end.

End Rx.

(** ** The two transports: [cin], [cout] and [bl_type]

    Modelled from the spec: the drivers ([usb_cin], [uart_cin],
    [usb_cout], [uart_cout]) are outside [bl.c]; a non-blocking read
    gives the next byte that arrived on its transport or a negative
    value, a write sends the bytes on its transport.  Each transport is
    kept as the bytes that arrived and were not read yet, and the bytes
    sent so far. *)

Module Transport.

(** [NONE], [USART] and [USB] of [bl.h]. *)
Inductive interface : Type := NONE | USART | USB.

Definition interface_eqb (a b : interface) : bool :=
  match a, b with
  | NONE, NONE | USART, USART | USB, USB => true
  | _, _ => false
  end.

Record port : Type := mkPort {
  bl_type : interface;
  last_input : interface;
  usb_rx : list Z;
  uart_rx : list Z;
  usb_tx : list Z;
  uart_tx : list Z
}.

Definition set_bl_type (v : interface) (p : port) : port :=
  mkPort v (last_input p) (usb_rx p) (uart_rx p) (usb_tx p) (uart_tx p).
Definition set_last_input (v : interface) (p : port) : port :=
  mkPort (bl_type p) v (usb_rx p) (uart_rx p) (usb_tx p) (uart_tx p).

Definition usb_cin (p : port) : Z * port :=
  match usb_rx p with
  | [] => (-1, p)
  | b :: t =>
      (u8 b, mkPort (bl_type p) (last_input p) t (uart_rx p)
                    (usb_tx p) (uart_tx p))
  end.

Definition uart_cin (p : port) : Z * port :=
  match uart_rx p with
  | [] => (-1, p)
  | b :: t =>
      (u8 b, mkPort (bl_type p) (last_input p) (usb_rx p) t
                    (usb_tx p) (uart_tx p))
  end.

Definition usb_cout (buf : list Z) (p : port) : port :=
  mkPort (bl_type p) (last_input p) (usb_rx p) (uart_rx p)
         (usb_tx p ++ buf) (uart_tx p).

Definition uart_cout (buf : list Z) (p : port) : port :=
  mkPort (bl_type p) (last_input p) (usb_rx p) (uart_rx p)
         (usb_tx p) (uart_tx p ++ buf).

Section Build.

(** [INTERFACE_USB] and [INTERFACE_USART] of the build. *)
Variables INTERFACE_USB INTERFACE_USART : bool.

(** The [#if INTERFACE_USART] part of [cin]. *)
Definition cin_usart (p : port) : Z * port :=
  if INTERFACE_USART
     && (interface_eqb (bl_type p) NONE || interface_eqb (bl_type p) USART)
  then
    let (uart_in, p1) := uart_cin p in
    if uart_in >=? 0 then (uart_in, set_last_input USART p1)
    else (-1, p1)
  else (-1, p).

Definition cin (p : port) : Z * port :=
  if INTERFACE_USB
     && (interface_eqb (bl_type p) NONE || interface_eqb (bl_type p) USB)
  then
    let (usb_in, p1) := usb_cin p in
    if usb_in >=? 0 then (usb_in, set_last_input USB p1)
    else cin_usart p1
  else cin_usart p.

Definition cout (buf : list Z) (p : port) : port :=
  let p1 :=
    if INTERFACE_USB && interface_eqb (bl_type p) USB
    then usb_cout buf p else p in
  if INTERFACE_USART && interface_eqb (bl_type p1) USART
  then uart_cout buf p1 else p1.

(** [if (bl_type == NONE) bl_type = last_input;] on the way to the
    INSYNC/OK of an accepted command. *)
Definition lock (p : port) : port :=
  if interface_eqb (bl_type p) NONE then set_bl_type (last_input p) p else p.

(** What [bootloader()] does with the transports, in any order. *)
Inductive op : Type :=
| Cin
| Cout (buf : list Z)
| Lock.

Definition run_op (p : port) (o : op) : port :=
  match o with
  | Cin => snd (cin p)
  | Cout buf => cout buf p
  | Lock => lock p
  end.

Definition run (ops : list op) (p : port) : port := fold_left run_op ops p.

Definition is_lock (o : op) : bool :=
  match o with Lock => true | _ => false end.

Definition is_cin (o : op) : bool :=
  match o with Cin => true | _ => false end.

(** The calls other than the polls of [cin]. *)
Definition calls (ops : list op) : list op :=
  filter (fun o => negb (is_cin o)) ops.

(** The bytes handed to [cout], over all its calls. *)
Definition bufs (ops : list op) : list Z :=
  flat_map (fun o => match o with Cout buf => buf | _ => [] end) ops.

(** Whether [cout] forwards to the transport [t]: the test on [bl_type]
    under the [#if] of that transport. *)
Definition forwards (t : interface) (p : port) : bool :=
  match t with
  | USB => INTERFACE_USB && interface_eqb (bl_type p) USB
  | USART => INTERFACE_USART && interface_eqb (bl_type p) USART
  | NONE => false
  end.

End Build.

(** The queues of a transport. *)
Definition rx_of (t : interface) (p : port) : list Z :=
  match t with USB => usb_rx p | USART => uart_rx p | NONE => [] end.
Definition tx_of (t : interface) (p : port) : list Z :=
  match t with USB => usb_tx p | USART => uart_tx p | NONE => [] end.

End Transport.

(** ** The millisecond tick: [timer[NTIMERS]] and the bootloader LED

    Modelled from the spec: [led_on], [led_off] and [led_toggle] are the
    board's, outside [bl.c]; they switch the LED they are given on or off,
    or change it over.  Of the LEDs only [LED_BOOTLOADER] is kept. *)

Module SysTick.

Inductive led_state : Type := LED_BLINK | LED_ON | LED_OFF.

Record clock : Type := mkClock {
  timer : list Z;
  _led_state : led_state;
  (** [LED_BOOTLOADER] is lit *)
  led_bootloader : bool
}.

Section Timers.

(** The indices [TIMER_LED] and [TIMER_DELAY] of [bl.h]. *)
Variables TIMER_LED TIMER_DELAY : nat.

(** [if (timer[i] > 0) timer[i]--;] *)
Definition count_down (t : Z) : Z := if t >? 0 then t - 1 else t.

Definition sys_tick_handler (c : clock) : clock :=
  let timer1 := map count_down (timer c) in
  match _led_state c with
  | LED_BLINK =>
      if nth TIMER_LED timer1 0 =? 0
      then mkClock (upd TIMER_LED 50 timer1) LED_BLINK
                   (negb (led_bootloader c))
      else mkClock timer1 LED_BLINK (led_bootloader c)
  | st => mkClock timer1 st (led_bootloader c)
  end.

Definition led_set (st : led_state) (c : clock) : clock :=
  match st with
  | LED_OFF => mkClock (timer c) LED_OFF false
  | LED_ON => mkClock (timer c) LED_ON true
  | LED_BLINK =>
      mkClock (upd TIMER_LED 0 (timer c)) LED_BLINK (led_bootloader c)
  end.

(** [n] ticks of the system timer. *)
Fixpoint ticks (n : nat) (c : clock) : clock :=
  match n with
  | O => c
  | S k => ticks k (sys_tick_handler c)
  end.

(** [while (timer[i] > 0);] with the tick running, for at most [fuel]
    ticks: the ticks it took and the clock it left. *)
Fixpoint wait_timer (fuel : nat) (i : nat) (c : clock)
  : option (nat * clock) :=
  if nth i (timer c) 0 >? 0 then
    match fuel with
    | O => None
    | S k =>
        match wait_timer k i (sys_tick_handler c) with
        | Some (n, c') => Some (S n, c')
        | None => None
        end
    end
  else Some (O, c).

Definition delay (fuel : nat) (msec : Z) (c : clock) : option (nat * clock) :=
  wait_timer fuel TIMER_DELAY
    (mkClock (upd TIMER_DELAY msec (timer c)) (_led_state c)
             (led_bootloader c)).

End Timers.

End SysTick.

(** ** [cin_wait] against the tick

    [cin_wait] polls [cin] while the tick handler, an interrupt, counts
    [timer[TIMER_CIN]] down.  What happens between two statements of the
    loop - ticks of the system timer, bytes arriving on the transports -
    is given by a schedule: one entry for each round of the loop, saying
    what happened after the call of [cin] and what happened after the test
    of the timer. *)

Module Wait.

Record meanwhile : Type := mkMeanwhile {
  elapsed : nat;
  usb_new : list Z;
  uart_new : list Z
}.

Definition arrive (m : meanwhile) (p : Transport.port) : Transport.port :=
  Transport.mkPort (Transport.bl_type p) (Transport.last_input p)
    (Transport.usb_rx p ++ usb_new m) (Transport.uart_rx p ++ uart_new m)
    (Transport.usb_tx p) (Transport.uart_tx p).

(** The ticks of a schedule. *)
Fixpoint total (sched : list (meanwhile * meanwhile)) : nat :=
  match sched with
  | [] => O
  | (m1, m2) :: rest => (elapsed m1 + elapsed m2 + total rest)%nat
  end.

Section Timed.

Variables INTERFACE_USB INTERFACE_USART : bool.

(** The indices [TIMER_LED] and [TIMER_CIN] of [bl.h]. *)
Variables TIMER_LED TIMER_CIN : nat.

(** The [do ... while (timer[TIMER_CIN] > 0)] of [cin_wait]: the value
    returned, the schedule not used, and the port and the clock on return;
    nothing when the schedule ends with the loop still running. *)
Fixpoint cin_loop (sched : list (meanwhile * meanwhile))
  (p : Transport.port) (c : SysTick.clock)
  : option (Z * list (meanwhile * meanwhile)
            * Transport.port * SysTick.clock) :=
  let (x, p1) := Transport.cin INTERFACE_USB INTERFACE_USART p in
  if x >=? 0 then Some (x, sched, p1, c)
  else
    match sched with
    | [] =>
        if nth TIMER_CIN (SysTick.timer c) 0 >? 0 then None
        else Some (x, [], p1, c)
    | (m1, m2) :: rest =>
        let p2 := arrive m1 p1 in
        let c2 := SysTick.ticks TIMER_LED (elapsed m1) c in
        if nth TIMER_CIN (SysTick.timer c2) 0 >? 0
        then cin_loop rest (arrive m2 p2)
                      (SysTick.ticks TIMER_LED (elapsed m2) c2)
        else Some (x, rest, p2, c2)
    end.

Definition cin_wait (sched : list (meanwhile * meanwhile)) (timeout : Z)
  (p : Transport.port) (c : SysTick.clock) :=
  cin_loop sched p
    (SysTick.mkClock (upd TIMER_CIN timeout (SysTick.timer c))
                     (SysTick._led_state c) (SysTick.led_bootloader c)).

End Timed.

End Wait.

(** ** The session on the transports

    What one round of the loop of [bootloader()] does with [cout] and
    [bl_type], in order: the calls of [cout] of the command, which the
    session has recorded in its trace, and then what follows the
    [switch] - on the way out of an accepted command the pinning
    statement [if (bl_type == NONE) bl_type = last_input;] and
    [sync_response()], at the labels [cmd_bad], [cmd_fail], [bad_silicon]
    and [bad_key] the response of the label.  The polls of [cin] are left
    to whoever runs the calls: they may come anywhere in between. *)

Section OnTheWire.

Context {F : Type} {HW : Platform F}.

(** The events added to the trace between [s] and [s']. *)
Definition added (s s' : state F) : list event :=
  skipn (length (trace s)) (trace s').

(** The calls of [cout] that [m] makes from [s]. *)
Definition cout_calls {A : Type} (m : M F A) (s : state F)
  : list Transport.op :=
  map Transport.Cout (handed (added s (snd (m s)))).

Definition step_calls (c : Z) (s : state F) : list Transport.op :=
  cout_calls (command c) s
  ++ match command c s with
     | (Val _, s1) =>
         Transport.Lock :: cout_calls sync_response (set_timeout 0 s1)
     | (Goto cmd_bad, s1) => cout_calls invalid_response s1
     | (Goto cmd_fail, s1) => cout_calls failure_response s1
     | (Goto bad_silicon, s1) => cout_calls bad_silicon_response s1
     | (Goto bad_key, s1) => cout_calls bad_key_response s1
     | (Goto next_command, _) => []
     | (Goto leave, _) => []
     end.

End OnTheWire.

(** ** More of the concrete platform *)

(** A driver that keeps a journal of the offsets written, beside the
    flash of the driver it wraps. *)
Definition journaled {F : Type} (HW : Platform F) : Platform (F * list Z) := {|
  board_info := board_info;
  flash_func_erase_sector :=
    fun i fl => (flash_func_erase_sector i (fst fl), snd fl);
  flash_func_read_word := fun a fl => flash_func_read_word a (fst fl);
  flash_func_write_word :=
    fun a w fl => (flash_func_write_word a w (fst fl), snd fl ++ [a]);
  flash_func_read_otp := fun a fl => flash_func_read_otp a (fst fl);
  flash_func_read_sn := fun a fl => flash_func_read_sn a (fst fl);
  flash_func_phy_write_word :=
    fun p w fl => (flash_func_phy_write_word p w (fst fl), snd fl);
  phy_read_word := fun p fl => phy_read_word p (fst fl);
  AES128_CBC_decrypt_buffer := AES128_CBC_decrypt_buffer
|}.

Definition journal_hw : Platform (sim_flash * list Z) := journaled sim_hw.

(** The tiny board with its application region mapped at [app]: a load
    from a physical address inside the region reads the cell at that
    offset. *)
Definition mapped_platform (b : board) (app : Z) : Platform sim_flash := {|
  board_info := b;
  flash_func_erase_sector := sim_erase_sector (flash_sectors b);
  flash_func_read_word := sim_read_word [];
  flash_func_write_word := sim_write_word;
  flash_func_read_otp := fun _ _ => 0;
  flash_func_read_sn := fun _ _ => 0;
  flash_func_phy_write_word := sim_phy_write_word (key_address b);
  phy_read_word :=
    fun p f =>
      if (app <=? p) && (p <? app + fw_size b)
      then sim_read_word [] (p - app) f
      else sim_phy_read_word (key_address b) p f;
  AES128_CBC_decrypt_buffer := sim_decrypt
|}.

Definition tiny_app_address : Z := 0x08004000.

Definition mapped_hw : Platform sim_flash :=
  mapped_platform tiny_board tiny_app_address.

(** PROG_MULTI of the stack top 0x20001000 and the entry point
    0x08004009, and BOOT. *)
Definition cmd_prog_vectors : list Z :=
  [PROTO_PROG_MULTI; 8; 0x00; 0x10; 0x00; 0x20; 0x09; 0x40; 0x00; 0x08;
   PROTO_EOC].

Definition cmd_boot : list Z := [PROTO_BOOT; PROTO_EOC].

(** A flash with the boot-delay signature in place. *)
Definition with_signature : sim_flash :=
  mkSim [(16, 0xb7b1b200); (20, 0x7ea85eed)] intact_key.

(** The first eight bytes of a small image: the stack top 0x20001000 and
    the entry point 0x08004101. *)
Definition image8 : list Z := [0x00; 0x10; 0x00; 0x20; 0x01; 0x41; 0x00; 0x08].

(** A first encrypted packet of two blocks carrying that image (and eight
    zero bytes): under the stand-in block primitive and the intact key its
    first block decrypts to a header with [num_to_flash] 5 and, as
    [crc32_sum], the sum 0xb29a43ab of the five bytes of the image at
    [0, 5). *)
Definition enc_payload5 : list Z :=
  [234; 190; 173; 222; 170; 67; 154; 178; 2; 0; 0; 0; 3; 0; 0; 0;
   5; 16; 0; 32; 170; 2; 154; 186; 0; 0; 0; 0; 0; 0; 0; 0].

Definition cmd_enc5 : list Z :=
  PROTO_PROG_MULTI_ENCRYPTED :: 32 :: enc_payload5 ++ [PROTO_EOC].

(** The same packet with, as [crc32_sum], the sum 0x6120bb6a of the eight
    bytes at [0, 8). *)
Definition enc_payload5_rounded : list Z :=
  [234; 190; 173; 222; 107; 187; 32; 97; 2; 0; 0; 0; 3; 0; 0; 0;
   5; 16; 0; 32; 107; 250; 32; 105; 0; 0; 0; 0; 0; 0; 0; 0].

Definition cmd_enc5_rounded : list Z :=
  PROTO_PROG_MULTI_ENCRYPTED :: 32 :: enc_payload5_rounded ++ [PROTO_EOC].

(** SET_DELAY of five seconds. *)
Definition cmd_delay5 : list Z := [PROTO_SET_DELAY; 5; PROTO_EOC].

(** A first encrypted packet of two blocks: under the stand-in block
    primitive and the intact key its first block decrypts to a header
    with [num_to_flash] 16. *)
Definition enc_payload : list Z :=
  [0xff; 0xbe; 0xad; 0xde; 1; 0; 0; 0; 2; 0; 0; 0; 3; 0; 0; 0;
   0; 0; 0; 0; 0; 0; 0; 0; 0; 0; 0; 0; 0; 0; 0; 0].

Definition cmd_enc32 : list Z :=
  PROTO_PROG_MULTI_ENCRYPTED :: 32 :: enc_payload ++ [PROTO_EOC].

(** A session just entered, waiting for a command. *)
Definition s_entered : state sim_flash :=
  session_state sim_hw blank [].

(** A clock with four timers, the LED's at index 2 and the delay's at
    index 3. *)
Definition four_timers : SysTick.clock :=
  SysTick.mkClock [1000; 5; 0; 0] SysTick.LED_BLINK false.

(** Bytes waiting on both transports, nothing pinned yet. *)
Definition both_waiting : Transport.port :=
  Transport.mkPort Transport.NONE Transport.NONE [0x21; 0x20] [0x21] [] [].

(** Pinned to USB. *)
Definition on_usb : Transport.port :=
  Transport.mkPort Transport.USB Transport.USB [0x21; 0x20] [0x21] [] [].

(** Nothing waiting, nothing pinned. *)
Definition nothing_waiting : Transport.port :=
  Transport.mkPort Transport.NONE Transport.NONE [] [] [] [].

(** One round of a waiting loop, with thirty ticks after the poll and
    thirty after the test of the timer, and no byte arriving. *)
Definition slow_rounds : list (Wait.meanwhile * Wait.meanwhile) :=
  [(Wait.mkMeanwhile 30 [] [], Wait.mkMeanwhile 30 [] [])].

(** GET_DEVICE asking for the vector area, as the first command of a
    session, and its calls on the transports after two polls of [cin]. *)
Definition first_get_device : state sim_flash :=
  feed [PROTO_DEVICE_VEC_AREA; PROTO_EOC] s_entered.

Definition first_get_device_calls : list Transport.op :=
  Transport.Cin :: Transport.Cin
  :: step_calls (HW := sim_hw) PROTO_GET_DEVICE first_get_device.

(** GET_SYNC followed by a byte that is not the EOC, and its calls after
    one poll of [cin]. *)
Definition refused_sync : state sim_flash := feed [0x55] s_entered.

Definition refused_sync_calls : list Transport.op :=
  Transport.Cin :: step_calls (HW := sim_hw) PROTO_GET_SYNC refused_sync.

(** Sixteen bytes for SET_IV, the first wider than eight bits. *)
Definition vector_bytes : list Z :=
  [0x101; 2; 3; 4; 5; 6; 7; 8; 9; 10; 11; 12; 13; 14; 15; 16].

(** * Properties *)

Section Proofs.

Context {F : Type} {HW : Platform F}.

(** ** Rules of the weakest precondition *)

Lemma wp_ret {A} (a : A) Q E (s : state F) : Q a s -> wp (ret a) Q E s.
Proof. exact (fun H => H). Qed.

Lemma wp_goto {A} l (Q : A -> state F -> Prop) E (s : state F) :
  E l s -> wp (goto l) Q E s.
Proof. exact (fun H => H). Qed.

Lemma wp_get Q E (s : state F) : Q s s -> wp get Q E s.
Proof. exact (fun H => H). Qed.

Lemma wp_modify f Q E (s : state F) : Q tt (f s) -> wp (modify f) Q E s.
Proof. exact (fun H => H). Qed.

Lemma wp_bind {A B} (m : M F A) (k : A -> M F B) Q E (s : state F) :
  wp m (fun a s' => wp (k a) Q E s') E s -> wp (bind m k) Q E s.
Proof.
  unfold wp, bind. destruct (m s) as [[a|l] s']; auto.
Qed.

Lemma wp_mono {A} (m : M F A) (Q Q' : A -> state F -> Prop)
  (E E' : label -> state F -> Prop) (s : state F) :
  wp m Q E s ->
  (forall a s', Q a s' -> Q' a s') ->
  (forall l s', E l s' -> E' l s') ->
  wp m Q' E' s.
Proof.
  unfold wp. destruct (m s) as [[a|l] s']; auto.
Qed.

Lemma wp_when (b : bool) m Q E (s : state F) :
  (b = true -> wp m Q E s) -> (b = false -> Q tt s) -> wp (when b m) Q E s.
Proof.
  destruct b; simpl; intros H1 H2; [apply H1 | apply H2]; reflexivity.
Qed.

Lemma wp_cin_wait t Q E (s : state F) :
  (forall c r, cin_result (rx s) c r ->
               Q c (set_rx r (log (EvCin t) s))) ->
  wp (cin_wait t) Q E s.
Proof.
  intros H. unfold wp, cin_wait.
  pose proof (fun c r => H c r) as H'. unfold cin_result in H'.
  destruct (rx s) as [|[b|] r].
  - apply (H' (-1) []). auto.
  - apply (H' (u8 b) r). auto.
  - apply (H' (-1) r). auto.
Qed.

(** A counted loop keeps an invariant indexed by the round. *)
Lemma wp_for_loop (I : nat -> state F -> Prop) body E n :
  forall i step k (s : state F),
    I k s ->
    (forall j s', (k <= j < k + n)%nat -> I j s' ->
       wp (body (i + Z.of_nat (j - k) * step)) (fun _ s'' => I (S j) s'') E s') ->
    wp (for_loop n i step body) (fun _ s' => I (k + n)%nat s') E s.
Proof.
  induction n as [|n IH]; intros i step k s HI Hbody.
  - simpl. apply wp_ret. now rewrite Nat.add_0_r.
  - simpl. apply wp_bind.
    eapply wp_mono.
    + specialize (Hbody k s). rewrite Nat.sub_diag in Hbody. simpl in Hbody.
      replace (i + 0) with i in Hbody by lia.
      apply Hbody; [lia | exact HI].
    + simpl. intros _ s' HS.
      replace (k + S n)%nat with (S k + n)%nat by lia.
      apply IH; [exact HS |].
      intros j s'' Hj Hs''.
      replace (i + step + Z.of_nat (j - S k) * step)
        with (i + Z.of_nat (j - k) * step).
      * apply Hbody; [lia | exact Hs''].
      * replace (j - k)%nat with (S (j - S k)) by lia. lia.
    + auto.
Qed.

(** The same with an invariant that does not look at the round. *)
Lemma wp_for_loop_inv (I : state F -> Prop) body E n i step (s : state F) :
  I s ->
  (forall j s', I s' -> wp (body j) (fun _ s'' => I s'') E s') ->
  wp (for_loop n i step body) (fun _ s' => I s') E s.
Proof.
  intros HI Hbody.
  apply (wp_for_loop (fun _ => I) body E n i step O s HI).
  intros j s' _ Hs'. apply Hbody, Hs'.
Qed.

Lemma cin_result_range script c r :
  cin_result script c r -> -1 <= c < 256.
Proof.
  unfold cin_result, u8.
  destruct script as [|[b|] t]; intros [-> _]; try lia.
  pose proof (Z.mod_pos_bound b 256). lia.
Qed.

Lemma wp_for_loop_then (I : state F -> Prop) body Q E n i step (s : state F) :
  I s ->
  (forall j s', I s' -> wp (body j) (fun _ s'' => I s'') E s') ->
  (forall s', I s' -> Q tt s') ->
  wp (for_loop n i step body) Q E s.
Proof.
  intros HI Hbody HQ.
  eapply wp_mono;
    [apply (wp_for_loop_inv I body E n i step s HI Hbody) | | auto].
  intros [] s' Hs'. apply HQ, Hs'.
Qed.

Lemma zero_key_calls_app t1 t2 :
  zero_key_calls (t1 ++ t2) = (zero_key_calls t1 + zero_key_calls t2)%nat.
Proof.
  induction t1 as [|[d|b|] t1 IH]; simpl; auto.
Qed.

Lemma cin_deadlines_app t1 t2 :
  cin_deadlines (t1 ++ t2) = cin_deadlines t1 ++ cin_deadlines t2.
Proof.
  induction t1 as [|[d|b|] t1 IH]; simpl; auto. now rewrite IH.
Qed.

(** ** Stepping through a command *)

Ltac head_of t :=
  lazymatch t with
  | ?f _ => head_of f
  | _ => t
  end.

Ltac wp_step :=
  lazymatch goal with
  | |- wp (bind _ _) _ _ _ => apply wp_bind
  | |- wp (ret _) _ _ _ => apply wp_ret
  | |- wp (goto _) _ _ _ => apply wp_goto
  | |- wp get _ _ _ => apply wp_get
  | |- wp (modify _) _ _ _ => apply wp_modify
  | |- wp (when _ _) _ _ _ => apply wp_when; intros ?
  | |- wp (cin_wait _) _ _ _ => apply wp_cin_wait; intros ? ? ?
  | |- wp (for_loop _ _ _ _) _ _ _ => fail
  | |- wp (if ?b then _ else _) _ _ _ => destruct b eqn:?
  | |- wp (match ?o with Some _ => _ | None => _ end) _ _ _ =>
      destruct o eqn:?
  | |- wp ?m _ _ _ => let h := head_of m in unfold h
  end; cbv beta.

Ltac wp_run := repeat wp_step.

(** A loop that keeps the predicate [I]. *)
Ltac wp_loop I :=
  apply (wp_for_loop_then I); cbv beta; [ | intros ? ? ? | intros ? ? ].

(** Projections of updated states, and nothing else. *)
Ltac st_simpl :=
  cbn [address first_word num_to_flash crc32_sum iv key_state timeout
       flash_buffer encrypted_buffer flash rx trace
       set_address set_first_word set_num_to_flash set_crc32_sum set_iv
       set_key_state set_timeout set_flash_buffer set_encrypted_buffer
       set_flash set_rx log
       fst snd sync_response invalid_response failure_response
       bad_silicon_response bad_key_response cout modify] in *.

(** Leaves only: fail on a goal that still has code to run. *)
Ltac not_wp :=
  lazymatch goal with
  | |- wp _ _ _ _ => fail
  | _ => idtac
  end.

Ltac core_solve :=
  not_wp; unfold same_core in *; st_simpl;
  rewrite ?zero_key_calls_app; simpl; rewrite ?Nat.add_0_r;
  intuition congruence.

(** ** Commands that only talk *)

Lemma same_core_refl (s : state F) : same_core s s.
Proof. core_solve. Qed.

Lemma do_get_sync_quiet : @quiet F do_get_sync.
Proof. intros s. wp_run; core_solve. Qed.

Lemma do_get_device_quiet : @quiet F do_get_device.
Proof.
  intros s. wp_run; try core_solve.
  wp_loop (same_core s); wp_run; core_solve.
Qed.

Lemma do_get_crc_quiet : @quiet F do_get_crc.
Proof. intros s. wp_run; core_solve. Qed.

Lemma do_get_otp_quiet : @quiet F do_get_otp.
Proof. intros s. wp_run; core_solve. Qed.

Lemma do_get_sn_quiet : @quiet F do_get_sn.
Proof. intros s. wp_run; core_solve. Qed.

Lemma do_get_chip_quiet : @quiet F do_get_chip.
Proof. intros s. wp_run; core_solve. Qed.

Lemma do_get_chip_des_quiet : @quiet F do_get_chip_des.
Proof. intros s. wp_run; core_solve. Qed.

Lemma do_debug_quiet : @quiet F do_debug.
Proof. intros s. wp_run; core_solve. Qed.

Lemma do_set_iv_quiet : @quiet F do_set_iv.
Proof.
  intros s. wp_run.
  wp_loop (same_core s); wp_run; core_solve.
Qed.

Lemma do_check_crc_quiet : @quiet F do_check_crc.
Proof. intros s. wp_run; core_solve. Qed.

Lemma do_check_key_quiet : @quiet F do_check_key.
Proof. intros s. wp_run; core_solve. Qed.

Lemma goto_quiet l : @quiet F (goto l).
Proof. intros s. wp_run; core_solve. Qed.

(** ** Case analysis on the command byte *)

Lemma command_elim (P : Z -> M F unit -> Prop) :
  P PROTO_GET_SYNC do_get_sync ->
  P PROTO_GET_DEVICE do_get_device ->
  P PROTO_CHIP_ERASE do_chip_erase ->
  P PROTO_PROG_MULTI do_prog_multi ->
  P PROTO_GET_CRC do_get_crc ->
  P PROTO_GET_OTP do_get_otp ->
  P PROTO_GET_SN do_get_sn ->
  P PROTO_GET_CHIP do_get_chip ->
  P PROTO_GET_CHIP_DES do_get_chip_des ->
  (forall a, BOOT_DELAY_ADDRESS board_info = Some a ->
             P PROTO_SET_DELAY (do_set_delay a)) ->
  P PROTO_BOOT do_boot ->
  P PROTO_DEBUG do_debug ->
  (ENABLE_ENCRYPTION board_info = true -> P PROTO_SET_IV do_set_iv) ->
  (ENABLE_ENCRYPTION board_info = true ->
   P PROTO_PROG_MULTI_ENCRYPTED do_prog_multi_encrypted) ->
  (ENABLE_ENCRYPTION board_info = true -> P PROTO_CHECK_CRC do_check_crc) ->
  P PROTO_CHECK_KEY do_check_key ->
  (forall c, P c (goto next_command)) ->
  forall c, P c (command c).
Proof.
  intros H1 H2 H3 H4 H5 H6 H7 H8 H9 H10 H11 H12 H13 H14 H15 H16 H17 c.
  unfold command.
  repeat
    match goal with
    | |- P c (if ?b then _ else _) =>
        let E := fresh "E" in
        destruct b eqn:E;
        [ first [ apply Z.eqb_eq in E; subst c
                | apply andb_true_iff in E; destruct E as [E ?];
                  apply Z.eqb_eq in E; subst c ] | clear E ]
    | |- P _ (match ?o with Some _ => _ | None => _ end) =>
        destruct o eqn:?
    end; auto.
Qed.

Lemma wp_for_loop_idx (I : nat -> state F -> Prop) body Q E n i step
  (s : state F) :
  I O s ->
  (forall j s', (j < n)%nat -> I j s' ->
     wp (body (i + Z.of_nat j * step)) (fun _ s'' => I (S j) s'') E s') ->
  (forall s', I n s' -> Q tt s') ->
  wp (for_loop n i step body) Q E s.
Proof.
  intros HI Hbody HQ.
  eapply wp_mono;
    [apply (wp_for_loop I body E n i step O s HI) | | auto].
  - intros j s' Hj Hs'. rewrite Nat.sub_0_r. apply Hbody; [lia | exact Hs'].
  - intros [] s' Hs'. apply HQ, Hs'.
Qed.

Ltac wp_loop_idx I :=
  apply (wp_for_loop_idx I); cbv beta; [ | intros ? ? ? ? | intros ? ? ].

(** ** INVALID leaves [address] and [first_word] alone *)









(** ** An accepted PROG_MULTI advances [address] by its length byte *)

Lemma u32_small x : 0 <= x < 2 ^ 32 -> u32 x = x.
Proof. intros H. unfold u32. apply Z.mod_small, H. Qed.

Lemma cin_result_byte script c r :
  cin_result script c r -> (c <? 0) = false ->
  exists b, script = Some b :: r /\ c = u8 b.
Proof.
  unfold cin_result. destruct script as [|[b|] t]; intros [-> ->] Hc;
    try discriminate.
  exists b. auto.
Qed.


Lemma step_of_wp (c : Z) (s : state F)
  (Q : unit -> state F -> Prop) (E : label -> state F -> Prop)
  (R : reply -> state F -> Prop) :
  wp (command c) Q E s ->
  (forall s1, Q tt s1 -> R OK (snd (sync_response (set_timeout 0 s1)))) ->
  (forall s1, E cmd_bad s1 -> R INVALID (snd (invalid_response s1))) ->
  (forall s1, E cmd_fail s1 -> R FAILED (snd (failure_response s1))) ->
  (forall s1, E bad_silicon s1 ->
              R BAD_SILICON (snd (bad_silicon_response s1))) ->
  (forall s1, E bad_key s1 -> R BAD_KEY (snd (bad_key_response s1))) ->
  (forall s1, E next_command s1 -> R NO_REPLY s1) ->
  (forall s1, E leave s1 -> R BOOTED s1) ->
  R (fst (bootloader_step c s)) (snd (bootloader_step c s)).
Proof.
  unfold wp, bootloader_step.
  destruct (command c s) as [[[]|[]] s1]; simpl; auto.
Qed.


(** ** CHIP_ERASE *)

(** The erase loop stops at the sentinel: more rounds change nothing. *)
Lemma erase_sectors_fuel fuel :
  forall i f extra,
    (length (flash_sectors board_info) < fuel + i)%nat ->
    erase_sectors (fuel + extra) i f = erase_sectors fuel i f.
Proof.
  induction fuel as [|fuel IH]; intros i f extra Hlen.
  - destruct extra as [|extra]; simpl; auto.
    unfold flash_func_sector_size.
    rewrite nth_overflow by lia. reflexivity.
  - simpl. destruct (flash_func_sector_size board_info i =? 0); auto.
    apply IH. lia.
Qed.

Lemma offsets_spec bound p :
  In p (offsets bound) <-> 0 <= p < bound /\ p mod 4 = 0.
Proof.
  unfold offsets, words_below. rewrite in_map_iff. split.
  - intros (k & <- & Hk). apply in_seq in Hk.
    assert (Z.of_nat k < (bound + 3) / 4) by lia.
    pose proof (Z.div_mod (bound + 3) 4 ltac:(lia)).
    pose proof (Z.mod_pos_bound (bound + 3) 4 ltac:(lia)).
    split; [lia |].
    rewrite Z.mul_comm. apply Z.mod_mul. lia.
  - intros [Hp Hm]. exists (Z.to_nat (p / 4)).
    pose proof (Z.div_mod p 4 ltac:(lia)).
    pose proof (Z.div_mod (bound + 3) 4 ltac:(lia)).
    pose proof (Z.mod_pos_bound (bound + 3) 4 ltac:(lia)).
    assert (0 <= p / 4) by (apply Z.div_pos; lia).
    split; [lia |]. apply in_seq. split; [lia |]. simpl.
    apply Z2Nat.inj_lt; try lia; apply Z.div_pos; lia.
Qed.

Lemma all_erased_true f :
  all_erased f = true <->
  forall j, (j < words_below (fw_size board_info))%nat ->
            flash_func_read_word (4 * Z.of_nat j) f = ERASED.
Proof.
  unfold all_erased, offsets. rewrite forallb_forall. split.
  - intros H j Hj. apply Z.eqb_eq, H, in_map_iff.
    exists j. split; [reflexivity | apply in_seq; lia].
  - intros H p Hp. apply in_map_iff in Hp as (j & <- & Hj).
    apply in_seq in Hj. apply Z.eqb_eq, H. lia.
Qed.

Lemma words_below_bound bound j :
  0 <= bound -> (j < words_below bound)%nat -> 4 * Z.of_nat j < bound.
Proof.
  unfold words_below. intros Hb Hj.
  assert (Z.of_nat j < (bound + 3) / 4) by lia.
  pose proof (Z.div_mod (bound + 3) 4 ltac:(lia)).
  pose proof (Z.mod_pos_bound (bound + 3) 4 ltac:(lia)).
  lia.
Qed.

Lemma cin_result_eoc (s : state F) rest c r :
  rx s = Some PROTO_EOC :: rest -> cin_result (rx s) c r ->
  c = PROTO_EOC /\ r = rest.
Proof.
  intros -> [-> ->]. split; reflexivity.
Qed.

Lemma do_chip_erase_spec (s : state F) rest :
  rx s = Some PROTO_EOC :: rest ->
  TARGET_HW_PX4_FMU_V4 board_info && check_silicon board_info = false ->
  0 <= fw_size board_info <= 2 ^ 32 - 4 ->
  wp do_chip_erase
     (fun _ s' => all_erased (erase_all (flash s)) = true /\
                  address s' = 0 /\ first_word s' = first_word s /\
                  flash s' = erase_all (flash s))
     (fun l s' => l = cmd_fail /\
                  all_erased (erase_all (flash s)) = false) s.
Proof.
  intros Hrx Hsil Hfw. wp_run; st_simpl.
  - destruct (cin_result_eoc _ _ _ _ Hrx H) as [-> _]. discriminate.
  - congruence.
  - wp_loop_idx (fun (j : nat) (s' : state F) =>
        flash s' = erase_all (flash s) /\ first_word s' = first_word s /\
        address s' = 4 * Z.of_nat j /\
        forall k, (k < j)%nat ->
          flash_func_read_word (4 * Z.of_nat k) (erase_all (flash s))
          = ERASED); st_simpl.
    + repeat split; auto. intros k Hk. lia.
    + destruct H3 as (Hf & Hw & Ha & Hall). wp_run; st_simpl.
      * split; [reflexivity |].
        apply not_true_is_false. intros Hall'.
        rewrite all_erased_true in Hall'. specialize (Hall' j H2).
        rewrite Hf, Ha in H3. rewrite Hall' in H3. discriminate.
      * pose proof (words_below_bound _ _ (proj1 Hfw) H2).
        repeat split; auto.
        -- rewrite Ha. rewrite u32_small by lia. lia.
        -- intros k Hk.
           destruct (Nat.eq_dec k j) as [-> | Hne]; [| apply Hall; lia].
           apply negb_false_iff, Z.eqb_eq in H3.
           rewrite Hf, Ha in H3. exact H3.
    + destruct H2 as (Hf & Hw & Ha & Hall). wp_run; st_simpl.
      repeat split; auto. apply all_erased_true. exact Hall.
Qed.

(** C4 (as amended): a CHIP_ERASE whose EOC arrives erases every sector
    and checks every word of [0, fw_size); when all read 0xFFFFFFFF it
    is answered OK with [address] reset to 0 and [first_word] left as it
    was; when one does not, it is answered FAILED. *)
Theorem chip_erase_resets_address_only (s : state F) rest :
  rx s = Some PROTO_EOC :: rest ->
  TARGET_HW_PX4_FMU_V4 board_info && check_silicon board_info = false ->
  0 <= fw_size board_info <= 2 ^ 32 - 4 ->
  (all_erased (erase_all (flash s)) = true ->
   fst (bootloader_step PROTO_CHIP_ERASE s) = OK /\
   address (snd (bootloader_step PROTO_CHIP_ERASE s)) = 0 /\
   first_word (snd (bootloader_step PROTO_CHIP_ERASE s)) = first_word s /\
   flash (snd (bootloader_step PROTO_CHIP_ERASE s)) = erase_all (flash s)) /\
  (all_erased (erase_all (flash s)) = false ->
   fst (bootloader_step PROTO_CHIP_ERASE s) = FAILED).
Proof.
  intros Hrx Hsil Hfw.
  apply (step_of_wp PROTO_CHIP_ERASE s _ _
           (fun r s' =>
              (all_erased (erase_all (flash s)) = true ->
               r = OK /\ address s' = 0 /\ first_word s' = first_word s /\
               flash s' = erase_all (flash s)) /\
              (all_erased (erase_all (flash s)) = false -> r = FAILED))
           (do_chip_erase_spec s rest Hrx Hsil Hfw));
    intros s1 H; st_simpl; try (destruct H; discriminate).
  - destruct H as (He & Ha & Hw & Hf). split; [auto | congruence].
  - destruct H as [_ He]. split; [congruence | auto].
Qed.

(** ** PROG_MULTI with a length byte of zero *)

Lemma wp_cin_wait_some t Q E (s : state F) b r :
  rx s = Some b :: r ->
  Q (u8 b) (set_rx r (log (EvCin t) s)) ->
  wp (cin_wait t) Q E s.
Proof.
  intros Hrx HQ. apply wp_cin_wait. intros c r' Hc.
  rewrite Hrx in Hc. destruct Hc as [-> ->]. exact HQ.
Qed.

Lemma do_prog_multi_zero (s : state F) len rest :
  rx s = Some len :: Some PROTO_EOC :: rest ->
  u8 len = 0 ->
  0 <= address s <= fw_size board_info ->
  fw_size board_info < 2 ^ 32 ->
  TARGET_HW_PX4_FMU_V4 board_info && check_silicon board_info = false ->
  wp do_prog_multi
     (fun _ s' =>
        address s' = address s /\
        (address s <> 0 ->
         flash s' = flash s /\ first_word s' = first_word s /\
         flash_buffer s' = flash_buffer s) /\
        (address s = 0 ->
         flash s' = (if ENABLE_ENCRYPTION board_info
                     then zero_key_from 4 (key_address board_info) (flash s)
                     else flash s) /\
         first_word s' = buf_w 0 (flash_buffer s)))
     (fun _ _ => False) s.
Proof.
  intros Hrx Hlen Ha Hfw Hsil.
  unfold do_prog_multi.
  apply wp_bind. apply (wp_cin_wait_some _ _ _ _ _ _ Hrx). rewrite Hlen.
  change (Z.to_nat 0) with O. change (Z.to_nat (0 ÷ 4)) with O.
  cbn [for_loop].
  wp_run; st_simpl; try discriminate.
  all: repeat match goal with
       | H : (address _ =? 0) = true |- _ => apply Z.eqb_eq in H
       | H : (address _ =? 0) = false |- _ => apply Z.eqb_neq in H
       | H : cin_result (Some _ :: _) _ _ |- _ => destruct H as [-> ->]
       | H : ENABLE_ENCRYPTION board_info = _ |- _ => rewrite H in *
       end; try discriminate; try congruence.
  - rewrite Z.add_0_r, u32_small in H1 by lia. lia.
  - repeat split; intros; congruence.
  - repeat split; intros; congruence.
  - repeat split; intros; congruence.
Qed.

(** C5 (as amended): a PROG_MULTI whose length byte is 0 and whose EOC
    follows is accepted with OK; it programs no word and leaves [address]
    in place; away from address 0 it changes neither the flash nor
    [first_word] nor the buffer, and at address 0 it still zeroes the key
    and captures [first_word] from the buffer as it stands. *)
Theorem prog_multi_zero_length_accepted (s : state F) len rest :
  rx s = Some len :: Some PROTO_EOC :: rest ->
  u8 len = 0 ->
  0 <= address s <= fw_size board_info ->
  fw_size board_info < 2 ^ 32 ->
  TARGET_HW_PX4_FMU_V4 board_info && check_silicon board_info = false ->
  fst (bootloader_step PROTO_PROG_MULTI s) = OK /\
  address (snd (bootloader_step PROTO_PROG_MULTI s)) = address s /\
  (address s <> 0 ->
   flash (snd (bootloader_step PROTO_PROG_MULTI s)) = flash s /\
   first_word (snd (bootloader_step PROTO_PROG_MULTI s)) = first_word s /\
   flash_buffer (snd (bootloader_step PROTO_PROG_MULTI s))
   = flash_buffer s) /\
  (address s = 0 ->
   flash (snd (bootloader_step PROTO_PROG_MULTI s))
   = (if ENABLE_ENCRYPTION board_info
      then zero_key_from 4 (key_address board_info) (flash s)
      else flash s) /\
   first_word (snd (bootloader_step PROTO_PROG_MULTI s))
   = buf_w 0 (flash_buffer s)).
Proof.
  intros Hrx Hlen Ha Hfw Hsil.
  apply (step_of_wp PROTO_PROG_MULTI s _ _
           (fun r s' =>
              r = OK /\ address s' = address s /\
              (address s <> 0 ->
               flash s' = flash s /\ first_word s' = first_word s /\
               flash_buffer s' = flash_buffer s) /\
              (address s = 0 ->
               flash s' = (if ENABLE_ENCRYPTION board_info
                           then zero_key_from 4 (key_address board_info)
                                              (flash s)
                           else flash s) /\
               first_word s' = buf_w 0 (flash_buffer s)))
           (do_prog_multi_zero s len rest Hrx Hlen Ha Hfw Hsil));
    intros s1 H; st_simpl; try contradiction.
  split; [reflexivity | exact H].
Qed.

(** ** PROG_MULTI_ENCRYPTED with a length that is no multiple of 16 *)

Lemma command_prog_multi_encrypted :
  ENABLE_ENCRYPTION board_info = true ->
  command PROTO_PROG_MULTI_ENCRYPTED = do_prog_multi_encrypted.
Proof. intros H. unfold command. rewrite H. reflexivity. Qed.

Lemma command_check_crc :
  ENABLE_ENCRYPTION board_info = true ->
  command PROTO_CHECK_CRC = do_check_crc.
Proof. intros H. unfold command. rewrite H. reflexivity. Qed.



(** ** The CRC commands *)

Lemma crc32_app a b st : crc32 (a ++ b) st = crc32 b (crc32 a st).
Proof. unfold crc32. apply fold_left_app. Qed.

Lemma crc_loop_spec fw (f : F) :
  fw <> ERASED ->
  forall n p sum,
    crc_loop n p fw f sum
    = crc32 (flat_map
               (fun q => word_bytes
                           (if q =? 0 then fw else flash_func_read_word q f))
               (map (fun k => p + 4 * Z.of_nat k) (seq 0 n)))
            sum.
Proof.
  intros Hfw. apply Z.eqb_neq in Hfw.
  induction n as [|n IH]; intros p sum.
  - reflexivity.
  - rewrite <- cons_seq, <- seq_shift, map_cons, map_map.
    unfold flat_map at 1.
    fold (flat_map (fun q => word_bytes
                     (if q =? 0 then fw else flash_func_read_word q f))).
    rewrite crc32_app.
    unfold crc_loop at 1. fold crc_loop.
    rewrite Hfw, andb_true_r, IH.
    replace (p + 4 * Z.of_nat 0) with p by lia.
    f_equal. f_equal. apply map_ext. intros k. lia.
Qed.

Lemma crc_loop_image fw (f : F) bound :
  fw <> ERASED ->
  crc_loop (words_below bound) 0 fw f 0
  = crc32 (pending_image fw f bound) 0.
Proof.
  intros Hfw. rewrite (crc_loop_spec fw f Hfw). reflexivity.
Qed.

Lemma do_get_crc_spec (s : state F) rest :
  rx s = Some PROTO_EOC :: rest ->
  wp do_get_crc
     (fun _ s' =>
        trace s' = trace s ++
          [EvCin 2;
           EvCout (word_bytes
                     (crc_loop (words_below (fw_size board_info)) 0
                               (first_word s) (flash s) 0))])
     (fun _ _ => False) s.
Proof.
  intros Hrx. unfold do_get_crc, wait_for_eoc.
  apply wp_bind, wp_bind. apply (wp_cin_wait_some _ _ _ _ _ _ Hrx).
  wp_run; st_simpl; try discriminate.
  rewrite <- app_assoc. reflexivity.
Qed.

Lemma do_check_crc_spec (s : state F) rest :
  rx s = Some PROTO_EOC :: rest ->
  wp do_check_crc
     (fun _ _ =>
        num_to_flash s <= fw_size board_info /\
        crc_loop (words_below (num_to_flash s)) 0 (first_word s) (flash s) 0
        = crc32_sum s)
     (fun l _ =>
        l = cmd_fail /\
        (num_to_flash s > fw_size board_info \/
         crc_loop (words_below (num_to_flash s)) 0 (first_word s) (flash s) 0
         <> crc32_sum s)) s.
Proof.
  intros Hrx. unfold do_check_crc, wait_for_eoc.
  apply wp_bind, wp_bind. apply (wp_cin_wait_some _ _ _ _ _ _ Hrx).
  wp_run; st_simpl; try discriminate.
  - split; [reflexivity | left]. apply Z.gtb_lt in H0. lia.
  - split; [reflexivity | right].
    apply negb_true_iff, Z.eqb_neq in H1. exact H1.
  - split.
    + destruct (Z.gtb_spec (num_to_flash s) (fw_size board_info));
        [discriminate | lia].
    + apply negb_false_iff, Z.eqb_eq in H1. exact H1.
Qed.

Lemma pending_image_length fw (f : F) bound :
  0 <= bound ->
  Z.of_nat (length (pending_image fw f bound)) = 4 * ((bound + 3) / 4) /\
  (bound mod 4 = 0 -> Z.of_nat (length (pending_image fw f bound)) = bound).
Proof.
  intros Hb.
  assert (H : Z.of_nat (length (pending_image fw f bound))
              = 4 * ((bound + 3) / 4)).
  { unfold pending_image, offsets, words_below.
    assert (G : forall l : list Z,
              length (flat_map
                        (fun p => word_bytes
                           (if p =? 0 then fw else flash_func_read_word p f))
                        l) = (4 * length l)%nat).
    { induction l as [|x l IH]; [reflexivity |].
      cbn [flat_map]. rewrite length_app, IH. cbn [length word_bytes]. lia. }
    rewrite G, length_map, length_seq.
    assert (0 <= (bound + 3) / 4) by (apply Z.div_pos; lia). lia. }
  split; [exact H |]. intros Hm. rewrite H.
  revert Hm. Z.div_mod_to_equations. lia.
Qed.

(** What the two sums cover.  With a pending first word, GET_CRC answers
    the CRC32 of [pending_image] up to [fw_size] and CHECK_CRC compares
    the CRC32 of [pending_image] up to [num_to_flash] with the expected
    sum.  [pending_image] has [first_word] in the place of the flash word
    at offset 0 and the flash content everywhere else, and it is made of
    whole words: it runs to the end of the last word that begins below
    the bound, as the loops of the two commands do. *)
Lemma crc_commands_sum_the_pending_image (s : state F) rest :
  rx s = Some PROTO_EOC :: rest ->
  first_word s <> ERASED ->
  (fst (bootloader_step PROTO_GET_CRC s) = OK /\
   trace (snd (bootloader_step PROTO_GET_CRC s))
   = trace s ++
     [EvCin 2;
      EvCout (word_bytes
                (crc32 (pending_image (first_word s) (flash s)
                                      (fw_size board_info)) 0));
      EvCout [PROTO_INSYNC; PROTO_OK]]) /\
  (ENABLE_ENCRYPTION board_info = true ->
   num_to_flash s <= fw_size board_info ->
   (crc32 (pending_image (first_word s) (flash s) (num_to_flash s)) 0
    = crc32_sum s ->
    fst (bootloader_step PROTO_CHECK_CRC s) = OK) /\
   (crc32 (pending_image (first_word s) (flash s) (num_to_flash s)) 0
    <> crc32_sum s ->
    fst (bootloader_step PROTO_CHECK_CRC s) = FAILED)).
Proof.
  intros Hrx Hfw. split.
  - apply (step_of_wp PROTO_GET_CRC s _ _
             (fun r s' => r = OK /\ trace s' = trace s ++ _)
             (do_get_crc_spec s rest Hrx));
      intros s1 H; st_simpl; try contradiction.
    split; [reflexivity |].
    rewrite H, <- app_assoc, (crc_loop_image _ _ _ Hfw). reflexivity.
  - intros Henc Hn.
    pose proof (do_check_crc_spec s rest Hrx) as Hwp.
    rewrite <- (command_check_crc Henc) in Hwp.
    rewrite <- (crc_loop_image _ _ _ Hfw).
    apply (step_of_wp PROTO_CHECK_CRC s _ _
             (fun r _ =>
                (crc_loop (words_below (num_to_flash s)) 0 (first_word s)
                          (flash s) 0 = crc32_sum s -> r = OK) /\
                (crc_loop (words_below (num_to_flash s)) 0 (first_word s)
                          (flash s) 0 <> crc32_sum s -> r = FAILED))
             Hwp);
      intros s1 H; st_simpl; try (destruct H; discriminate).
    + destruct H as [_ H]. split; [auto | intros Hd; contradiction].
    + destruct H as [_ [H | H]]; [lia |].
      split; [intros He; contradiction | auto].
Qed.

(** ** BOOT *)

Lemma do_boot_spec (s : state F) rest :
  rx s = Some PROTO_EOC :: rest ->
  first_word s <> ERASED ->
  wp do_boot (fun _ _ => False)
     (fun l s' =>
        flash s' = flash_func_write_word 0 (first_word s) (flash s) /\
        ((l = leave /\
          flash_func_read_word 0 (flash s') = first_word s /\
          first_word s' = ERASED) \/
         (l = cmd_fail /\
          flash_func_read_word 0 (flash s') <> first_word s /\
          first_word s' = first_word s))) s.
Proof.
  intros Hrx Hfw. unfold do_boot, wait_for_eoc.
  apply wp_bind, wp_bind. apply (wp_cin_wait_some _ _ _ _ _ _ Hrx).
  wp_run; st_simpl; try discriminate.
  - split; [reflexivity | right].
    apply negb_true_iff, Z.eqb_neq in H1. auto.
  - split; [reflexivity | left].
    apply negb_false_iff, Z.eqb_eq in H1. auto.
  - apply negb_false_iff, Z.eqb_eq in H0. contradiction.
Qed.

(** C2, on the code: a BOOT whose EOC arrives with a first word pending
    writes it at offset 0 and reads it back; when the read-back agrees the
    bootloader answers OK and returns with [first_word] reverted; when it
    does not, the answer is FAILED and [first_word] is still pending -
    it is not put back to 0xFFFFFFFF. *)
Theorem boot_writes_first_word (s : state F) rest :
  rx s = Some PROTO_EOC :: rest ->
  first_word s <> ERASED ->
  flash (snd (bootloader_step PROTO_BOOT s))
  = flash_func_write_word 0 (first_word s) (flash s) /\
  (flash_func_read_word 0 (flash_func_write_word 0 (first_word s) (flash s))
   = first_word s ->
   fst (bootloader_step PROTO_BOOT s) = BOOTED /\
   first_word (snd (bootloader_step PROTO_BOOT s)) = ERASED) /\
  (flash_func_read_word 0 (flash_func_write_word 0 (first_word s) (flash s))
   <> first_word s ->
   fst (bootloader_step PROTO_BOOT s) = FAILED /\
   first_word (snd (bootloader_step PROTO_BOOT s)) = first_word s).
Proof.
  intros Hrx Hfw.
  apply (step_of_wp PROTO_BOOT s _ _
     (fun r s' =>
        flash s' = flash_func_write_word 0 (first_word s) (flash s) /\
        (flash_func_read_word 0
           (flash_func_write_word 0 (first_word s) (flash s))
         = first_word s ->
         r = BOOTED /\ first_word s' = ERASED) /\
        (flash_func_read_word 0
           (flash_func_write_word 0 (first_word s) (flash s))
         <> first_word s ->
         r = FAILED /\ first_word s' = first_word s))
     (do_boot_spec s rest Hrx Hfw));
    intros s1 H; st_simpl; try contradiction;
    destruct H as [Hf [(Hl & Hr & Hw) | (Hl & Hr & Hw)]];
    try discriminate; rewrite Hf in Hr;
    (split; [exact Hf | split; intros Hv; [| ]]);
    try contradiction; auto.
Qed.

(** ** The key *)

Section Key.

Context {KI : KeyIsolated}.

Lemma zero_key_keeps_zero q :
  forall words a (f : F),
    phy_read_word q f = 0 ->
    phy_read_word q (zero_key_from words a f) = 0.
Proof.
  induction words as [|words IH]; intros a f Hq; [exact Hq |].
  simpl. apply IH.
  destruct (phy_read_word a f =? 0) eqn:Ha; simpl; [exact Hq |].
  destruct (Z.eq_dec a q) as [-> | Hne].
  - rewrite Hq in Ha. discriminate.
  - rewrite phy_write_other by exact Hne. exact Hq.
Qed.

Lemma erase_sectors_keeps_key i :
  0 <= i < 4 ->
  forall fuel j (f : F), key_w i (erase_sectors fuel j f) = key_w i f.
Proof.
  intros Hi. induction fuel as [|fuel IH]; intros j f; [reflexivity |].
  simpl. destruct (flash_func_sector_size board_info j =? 0); auto.
  rewrite IH. apply erase_keeps_key, Hi.
Qed.

Ltac key_solve :=
  not_wp;
  unfold key_same, key_is in *; st_simpl;
  rewrite ?zero_key_calls_app; cbn [zero_key_calls];
  repeat match goal with
         | H : _ /\ _ |- _ => destruct H
         end;
  try (split;
       [ lia
       | intros i Hi;
         rewrite ?write_keeps_key, ?erase_sectors_keeps_key by exact Hi;
         auto ]).

Lemma key_same_refl (s : state F) : key_same s s.
Proof. key_solve. Qed.

Lemma quiet_key_same m (s : state F) :
  quiet m ->
  wp m (fun _ s' => key_same s s') (fun _ s' => key_same s s') s.
Proof.
  intros H. eapply wp_mono; [apply H | |]; cbv beta;
    unfold same_core; intros ? s' Hc; unfold key_same, key_is;
    (split; [lia | intros i _; f_equal; tauto]).
Qed.

Lemma do_chip_erase_key (s : state F) :
  wp do_chip_erase (fun _ s' => key_same s s')
     (fun _ s' => key_same s s') s.
Proof.
  wp_run; try key_solve.
  wp_loop (key_same s); wp_run; key_solve.
Qed.

Lemma do_set_delay_key a (s : state F) :
  wp (do_set_delay a) (fun _ s' => key_same s s')
     (fun _ s' => key_same s s') s.
Proof. wp_run; key_solve. Qed.

Lemma do_boot_key (s : state F) :
  wp do_boot (fun _ s' => key_same s s') (fun _ s' => key_same s s') s.
Proof. wp_run; key_solve. Qed.

Lemma do_prog_multi_encrypted_key (s : state F) :
  wp do_prog_multi_encrypted (fun _ s' => key_same s s')
     (fun _ s' => key_same s s') s.
Proof.
  wp_run; try key_solve.
  wp_loop (key_same s); wp_run; try key_solve.
  all: try (wp_loop (key_same s); wp_run; try key_solve).
  all: try (wp_loop (key_same s); wp_run; try key_solve).
  all: try (wp_loop (key_same s); wp_run; try key_solve).
Qed.

Lemma program_loop_key n fb (s s1 : state F) count start Q E :
  key_is n fb s s1 ->
  (forall s', key_is n fb s s' -> E cmd_fail s') ->
  (forall s', key_is n fb s s' -> Q tt s') ->
  wp (for_loop count start 1 program_word) Q E s1.
Proof.
  intros H HE HQ.
  wp_loop (key_is n fb s); [exact H | | auto].
  wp_run; [apply HE |]; key_solve.
Qed.

Ltac key_leaf :=
  not_wp; cbn [andb]; unfold key_same, key_is in *; st_simpl;
  rewrite ?zero_key_calls_app; cbn [zero_key_calls];
  intuition (try congruence; try lia).

Lemma do_prog_multi_key (s : state F) :
  wp do_prog_multi (fun _ s' => key_post true s s')
     (fun l s' =>
        key_post (match l with cmd_fail => true | _ => false end) s s') s.
Proof.
  unfold key_post.
  wp_run; try key_leaf.
  wp_loop (fun s' : state F =>
             flash s' = flash s /\ address s' = address s /\
             zero_key_calls (trace s') = zero_key_calls (trace s)).
  - key_leaf.
  - wp_run; key_leaf.
  - match goal with
    | H : _ /\ _ /\ _ |- _ => destruct H as (Hf & Ha & Hz)
    end.
    wp_run; try key_leaf.
    all: st_simpl; rewrite Ha in *;
      repeat match goal with
             | H : (address _ =? 0) = _ |- _ => rewrite H
             | H : ENABLE_ENCRYPTION _ = _ |- _ => rewrite H
             end;
      try destruct (ENABLE_ENCRYPTION board_info);
      cbn [andb]; unfold key_same.
    all: eapply program_loop_key;
      [ | intros ? Hk; exact Hk | intros ? Hk; exact Hk ].
    all: unfold key_is; st_simpl; rewrite ?zero_key_calls_app;
      cbn [zero_key_calls]; rewrite ?Hf; split; [lia | auto].
Qed.

(** What any command does to the key. *)
Lemma command_key c (s : state F) :
  wp (command c)
     (fun _ s' =>
        if (c =? PROTO_PROG_MULTI) then key_post true s s'
        else key_same s s')
     (fun l s' =>
        if (c =? PROTO_PROG_MULTI)
        then key_post (match l with cmd_fail => true | _ => false end) s s'
        else key_same s s') s.
Proof.
  revert c.
  apply (command_elim (fun c m =>
    wp m
     (fun _ s' =>
        if (c =? PROTO_PROG_MULTI) then key_post true s s'
        else key_same s s')
     (fun l s' =>
        if (c =? PROTO_PROG_MULTI)
        then key_post (match l with cmd_fail => true | _ => false end) s s'
        else key_same s s') s)); intros;
    try (change (?x =? PROTO_PROG_MULTI) with false; cbv iota);
    first [ apply do_prog_multi_key | apply do_chip_erase_key
          | apply do_set_delay_key | apply do_boot_key
          | apply do_prog_multi_encrypted_key
          | apply quiet_key_same;
            first [ apply do_get_sync_quiet | apply do_get_device_quiet
                  | apply do_get_crc_quiet | apply do_get_otp_quiet
                  | apply do_get_sn_quiet | apply do_get_chip_quiet
                  | apply do_get_chip_des_quiet | apply do_debug_quiet
                  | apply do_set_iv_quiet | apply do_check_crc_quiet
                  | apply do_check_key_quiet ]
          | idtac ].
  wp_run. unfold key_post. cbn [andb].
  destruct (c =? PROTO_PROG_MULTI); apply key_same_refl.
Qed.

(** C7 (as amended): [zero_key] runs once in every PROG_MULTI packet that
    is received whole while [address] is 0 - the packets answered OK or
    FAILED - and in no other command; the key words change only then, to
    what [zero_key] makes of them; and a key word that is zero stays
    zero. *)
Theorem zero_key_runs_in_every_prog_multi_at_zero (c : Z) (s : state F) :
  zero_key_calls (trace (snd (bootloader_step c s)))
  = (zero_key_calls (trace s)
     + (if zero_key_called c s (fst (bootloader_step c s)) then 1 else 0))%nat
  /\
  (forall i, 0 <= i < 4 ->
     key_w i (flash (snd (bootloader_step c s)))
     = key_w i (if zero_key_called c s (fst (bootloader_step c s))
                then zero_key_from 4 (key_address board_info) (flash s)
                else flash s)) /\
  (forall i, 0 <= i < 4 ->
     key_w i (flash s) = 0 ->
     key_w i (flash (snd (bootloader_step c s))) = 0).
Proof.
  assert (Hmono : forall r s',
    (zero_key_calls (trace s')
     = (zero_key_calls (trace s)
        + (if zero_key_called c s r then 1 else 0))%nat /\
     (forall i, 0 <= i < 4 ->
        key_w i (flash s')
        = key_w i (if zero_key_called c s r
                   then zero_key_from 4 (key_address board_info) (flash s)
                   else flash s))) ->
    zero_key_calls (trace s')
    = (zero_key_calls (trace s)
       + (if zero_key_called c s r then 1 else 0))%nat /\
    (forall i, 0 <= i < 4 ->
       key_w i (flash s')
       = key_w i (if zero_key_called c s r
                  then zero_key_from 4 (key_address board_info) (flash s)
                  else flash s)) /\
    (forall i, 0 <= i < 4 -> key_w i (flash s) = 0 ->
               key_w i (flash s') = 0)).
  { intros r s' [Hc Hk]. split; [exact Hc | split; [exact Hk |]].
    intros i Hi Hz. rewrite (Hk i Hi).
    destruct (zero_key_called c s r); [| exact Hz].
    apply zero_key_keeps_zero, Hz. }
  apply (step_of_wp c s _ _
    (fun r s' =>
       zero_key_calls (trace s')
       = (zero_key_calls (trace s)
          + (if zero_key_called c s r then 1 else 0))%nat /\
       (forall i, 0 <= i < 4 ->
          key_w i (flash s')
          = key_w i (if zero_key_called c s r
                     then zero_key_from 4 (key_address board_info) (flash s)
                     else flash s)) /\
       (forall i, 0 <= i < 4 -> key_w i (flash s) = 0 ->
                  key_w i (flash s') = 0))
    (command_key c s));
    intros s1 H; apply Hmono; unfold zero_key_called, key_post in *;
    rewrite ?andb_false_r, ?andb_true_r in *;
    destruct (c =? PROTO_PROG_MULTI); cbn [andb] in *;
    try destruct (ENABLE_ENCRYPTION board_info && (address s =? 0));
    unfold key_same, key_is in *; st_simpl;
    rewrite ?zero_key_calls_app; cbn [zero_key_calls];
    (split; [lia | tauto]).
Qed.

End Key.

(** ** The header fields [num_to_flash] and [crc32_sum] *)

Ltac header_leaf :=
  not_wp; unfold header_same in *; st_simpl;
  intuition (try congruence; try discriminate).

Lemma quiet_header_same m (s : state F) :
  quiet m ->
  wp m (fun _ s' => header_same s s') (fun _ s' => header_same s s') s.
Proof.
  intros H. eapply wp_mono; [apply H | |]; cbv beta;
    unfold same_core, header_same; intros ? s' Hc; tauto.
Qed.

Lemma do_chip_erase_header (s : state F) :
  wp do_chip_erase (fun _ s' => header_same s s')
     (fun _ s' => header_same s s') s.
Proof.
  wp_run; try header_leaf.
  wp_loop (header_same s); wp_run; header_leaf.
Qed.

Lemma do_prog_multi_header (s : state F) :
  wp do_prog_multi (fun _ s' => header_same s s')
     (fun _ s' => header_same s s') s.
Proof.
  wp_run; try header_leaf.
  wp_loop (header_same s); wp_run; try header_leaf.
  all: wp_loop (header_same s); wp_run; header_leaf.
Qed.

Lemma do_set_delay_header a (s : state F) :
  wp (do_set_delay a) (fun _ s' => header_same s s')
     (fun _ s' => header_same s s') s.
Proof. wp_run; header_leaf. Qed.

Lemma do_boot_header (s : state F) :
  wp do_boot (fun _ s' => header_same s s')
     (fun _ s' => header_same s s') s.
Proof. wp_run; header_leaf. Qed.

Lemma decrypt_block_header i (s s1 : state F) E :
  header_same s s1 ->
  wp (decrypt_block i) (fun _ s' => header_same s s') E s1.
Proof.
  intros H. wp_run.
  wp_loop (header_same s); wp_run; header_leaf.
Qed.

Lemma do_prog_multi_encrypted_header (s : state F) :
  wp do_prog_multi_encrypted (fun _ _ => True)
     (fun l s' => l <> cmd_fail -> header_same s s') s.
Proof.
  wp_run; try header_leaf.
  wp_loop (header_same s); wp_run; try header_leaf.
  - wp_loop (header_same s);
      [ header_leaf | apply decrypt_block_header; assumption | ].
    wp_run; try header_leaf.
    all: wp_loop (fun _ : state F => True); wp_run; header_leaf.
Qed.

Lemma command_header c (s : state F) :
  wp (command c)
     (fun _ s' => c = PROTO_PROG_MULTI_ENCRYPTED \/ header_same s s')
     (fun l s' =>
        (c = PROTO_PROG_MULTI_ENCRYPTED /\ l = cmd_fail) \/
        header_same s s') s.
Proof.
  revert c.
  apply (command_elim (fun c m =>
    wp m
     (fun _ s' => c = PROTO_PROG_MULTI_ENCRYPTED \/ header_same s s')
     (fun l s' =>
        (c = PROTO_PROG_MULTI_ENCRYPTED /\ l = cmd_fail) \/
        header_same s s') s)); intros;
    try (eapply wp_mono;
         [ first [ apply do_prog_multi_header | apply do_chip_erase_header
                 | apply do_set_delay_header | apply do_boot_header
                 | apply quiet_header_same;
                   first [ apply do_get_sync_quiet
                         | apply do_get_device_quiet
                         | apply do_get_crc_quiet | apply do_get_otp_quiet
                         | apply do_get_sn_quiet | apply do_get_chip_quiet
                         | apply do_get_chip_des_quiet
                         | apply do_debug_quiet
                         | apply do_set_iv_quiet | apply do_check_crc_quiet
                         | apply do_check_key_quiet | apply goto_quiet ] ]
         | cbv beta; auto | cbv beta; auto ]).
  eapply wp_mono; [apply do_prog_multi_encrypted_header | |];
    cbv beta; auto.
  intros l s' Hl. destruct l; try (right; apply Hl; discriminate).
  left. auto.
Qed.

Lemma step_header c (s : state F) :
  header_read c (fst (bootloader_step c s)) = false ->
  header_same s (snd (bootloader_step c s)).
Proof.
  apply (step_of_wp c s _ _
           (fun r s' => header_read c r = false -> header_same s s')
           (command_header c s));
    intros s1 H Hr; unfold header_read in Hr;
    (destruct H as [H | H];
     [exfalso | unfold header_same in *; st_simpl; exact H]).
  - subst c. discriminate.
  - destruct H as [_ H]. discriminate.
  - destruct H as [-> _]. discriminate.
  - destruct H as [_ H]. discriminate.
  - destruct H as [_ H]. discriminate.
  - destruct H as [_ H]. discriminate.
  - destruct H as [_ H]. discriminate.
Qed.

(** ** The session loop *)

Lemma cin_wait_eq t (s : state F) :
  exists c r,
    cin_wait t s = (Val c, set_rx r (log (EvCin t) s)) /\
    cin_result (rx s) c r.
Proof.
  unfold cin_wait, cin_result.
  destruct (rx s) as [|[b|] r]; eauto.
Qed.

(** A predicate kept by the commands whose byte and answer pass [G] is
    kept by a run whose history passes [G]. *)
Lemma bootloader_loop_inv (P : state F -> Prop) (G : Z -> reply -> bool) :
  (forall s t r, P s -> P (set_rx r (log (EvCin t) s))) ->
  (forall c s, P s -> G c (fst (bootloader_step c s)) = true ->
               P (snd (bootloader_step c s))) ->
  forall fuel s h e s',
    bootloader_loop fuel s = (h, e, s') ->
    P s ->
    forallb (fun cr => G (fst cr) (snd cr)) h = true ->
    P s'.
Proof.
  intros Hcin Hstep.
  induction fuel as [|fuel IH]; intros s h e s' Hrun HP Hh.
  - simpl in Hrun. inversion Hrun. subst. exact HP.
  - simpl in Hrun. destruct (rx s) as [|x rest] eqn:Hrx.
    + inversion Hrun. subst. exact HP.
    + destruct (cin_wait_eq 0 s) as (c & r & Hc & _).
      rewrite Hc in Hrun.
      assert (HP1 : P (set_rx r (log (EvCin 0) s))) by (apply Hcin, HP).
      destruct (c <? 0); [apply (IH _ _ _ _ Hrun HP1 Hh) |].
      pose proof (Hstep c _ HP1) as Hs.
      destruct (bootloader_step c (set_rx r (log (EvCin 0) s)))
        as [rep s2].
      cbn [fst snd] in Hs.
      destruct rep;
        try (destruct (bootloader_loop fuel s2) as [[h' e'] s3] eqn:Hl;
             inversion Hrun; subst; cbn [forallb fst snd] in Hh;
             apply andb_true_iff in Hh as [Hg Hh];
             apply (IH _ _ _ _ Hl (Hs Hg) Hh)).
      inversion Hrun. subst. cbn [forallb fst snd] in Hh.
      apply andb_true_iff in Hh as [Hg _]. apply Hs, Hg.
Qed.

(** C10 (as amended): as long as no PROG_MULTI_ENCRYPTED packet has been
    answered OK or FAILED in the session, [num_to_flash] and [crc32_sum]
    still hold their initial 0, and a CHECK_CRC followed by its EOC is
    answered OK. *)
Theorem check_crc_before_any_header (t : Z) (f : F) script fuel h e s rest :
  ENABLE_ENCRYPTION board_info = true ->
  0 <= fw_size board_info ->
  bootloader_loop fuel (bootloader_init t f script) = (h, e, s) ->
  (forall r, In (PROTO_PROG_MULTI_ENCRYPTED, r) h ->
             r <> OK /\ r <> FAILED) ->
  (num_to_flash s = 0 /\ crc32_sum s = 0) /\
  fst (bootloader_step PROTO_CHECK_CRC (set_rx (Some PROTO_EOC :: rest) s))
  = OK.
Proof.
  intros Henc Hfw Hrun Hh.
  assert (Hz : num_to_flash s = 0 /\ crc32_sum s = 0).
  { apply (bootloader_loop_inv
             (fun s => num_to_flash s = 0 /\ crc32_sum s = 0)
             (fun c r => negb (header_read c r))) with (3 := Hrun).
    - intros s0 t0 r0 H. exact H.
    - intros c s0 [Hn Hc] Hg. apply negb_true_iff in Hg.
      destruct (step_header c s0 Hg) as [Hn' Hc']. split; congruence.
    - split; reflexivity.
    - apply forallb_forall. intros [c r] Hin. cbn [fst snd].
      apply negb_true_iff. unfold header_read.
      destruct (c =? PROTO_PROG_MULTI_ENCRYPTED) eqn:Hc; [| reflexivity].
      apply Z.eqb_eq in Hc. subst c.
      destruct (Hh r Hin) as [H1 H2].
      destruct r; try reflexivity; contradiction. }
  split; [exact Hz |]. destruct Hz as [Hn Hc].
  pose proof (do_check_crc_spec (set_rx (Some PROTO_EOC :: rest) s) rest
                eq_refl) as Hwp.
  rewrite <- (command_check_crc Henc) in Hwp.
  apply (step_of_wp PROTO_CHECK_CRC _ _ _ (fun r _ => r = OK) Hwp);
    intros s1 H; st_simpl; try reflexivity;
    try (destruct H as [H _]; discriminate).
  destruct H as [_ [H | H]]; rewrite Hn in H; [lia |].
  rewrite Hc in H. exfalso. apply H. reflexivity.
Qed.

(** ** Buffers *)

Lemma length_upd n x l : length (upd n x l) = length l.
Proof.
  revert n. induction l as [|h t IH]; intros [|n]; simpl; auto.
Qed.

Lemma nth_upd_same n x l d :
  (n < length l)%nat -> nth n (upd n x l) d = x.
Proof.
  revert n. induction l as [|h t IH]; intros [|n] H; simpl in *;
    try lia; auto. apply IH. lia.
Qed.

Lemma nth_upd_other n m x l d :
  n <> m -> nth m (upd n x l) d = nth m l d.
Proof.
  revert n m. induction l as [|h t IH]; intros [|n] [|m] H; simpl;
    auto; try congruence.
Qed.

Lemma length_set_buf_c i b buf : length (set_buf_c i b buf) = length buf.
Proof. apply length_upd. Qed.

Lemma length_blit src : forall i buf, length (blit i src buf) = length buf.
Proof.
  induction src as [|b t IH]; intros i buf; simpl; auto.
  rewrite IH. apply length_set_buf_c.
Qed.

Lemma length_set_buf_w i w buf : length (set_buf_w i w buf) = length buf.
Proof. apply length_blit. Qed.

Lemma buf_c_set_same i b buf :
  0 <= i -> (Z.to_nat i < length buf)%nat ->
  buf_c i (set_buf_c i b buf) = u8 b.
Proof. intros _ H. apply nth_upd_same, H. Qed.

Lemma buf_c_set_other i j b buf :
  0 <= i -> 0 <= j -> i <> j ->
  buf_c j (set_buf_c i b buf) = buf_c j buf.
Proof. intros Hi Hj H. apply nth_upd_other. lia. Qed.

Lemma buf_w_set_erased i buf :
  0 <= i -> (Z.to_nat (4 * i + 3) < length buf)%nat ->
  buf_w i (set_buf_w i ERASED buf) = ERASED.
Proof.
  intros Hi Hlen. unfold buf_w, set_buf_w.
  change (word_bytes ERASED) with [255; 255; 255; 255].
  cbn [blit].
  replace (4 * i + 1 + 1 + 1) with (4 * i + 3) by lia.
  replace (4 * i + 1 + 1) with (4 * i + 2) by lia.
  repeat first
    [ rewrite buf_c_set_same
        by (rewrite ?length_set_buf_c; lia)
    | rewrite buf_c_set_other by lia ].
  reflexivity.
Qed.

(** ** The boot gate *)

Section Gate.

Context {RL : Reliable}.
Hypothesis Hboard : board_ok.

Lemma erase_sectors_keeps_erased a :
  forall fuel j (f : F),
    flash_func_read_word a f = ERASED ->
    flash_func_read_word a (erase_sectors fuel j f) = ERASED.
Proof.
  induction fuel as [|fuel IH]; intros j f H; [exact H |].
  simpl. destruct (flash_func_sector_size board_info j =? 0); auto.
  apply IH, erase_keeps_erased, H.
Qed.

Lemma zero_key_keeps_app a :
  forall words p (f : F),
    flash_func_read_word a (zero_key_from words p f)
    = flash_func_read_word a f.
Proof.
  induction words as [|words IH]; intros p f; [reflexivity |].
  simpl. rewrite IH.
  destruct (phy_read_word p f =? 0); simpl; auto.
  apply phy_write_keeps_app.
Qed.

Ltac gate_leaf :=
  not_wp; unfold gate_closed in *; st_simpl;
  rewrite ?length_set_buf_c, ?length_set_buf_w, ?length_blit,
          ?zero_key_keeps_app;
  intuition (try congruence; try lia).

Lemma quiet_gate m (s : state F) :
  quiet m -> gate_closed s ->
  wp m (fun _ s' => gate_closed s') (fun _ s' => gate_closed s') s.
Proof.
  intros H Hg. eapply wp_mono; [apply H | |]; cbv beta;
    unfold same_core, gate_closed in *; intros ? s' Hc;
    destruct Hc as (-> & _ & _ & _ & -> & _ & -> & _); exact Hg.
Qed.

Lemma do_chip_erase_gate (s : state F) :
  gate_closed s ->
  wp do_chip_erase (fun _ s' => gate_closed s')
     (fun _ s' => gate_closed s') s.
Proof.
  intros Hg. destruct Hboard as (Hfw0 & Hfw1 & _).
  wp_run; try gate_leaf.
  wp_loop_idx (fun (j : nat) (s' : state F) =>
      flash_func_read_word 0 (flash s') = ERASED /\
      address s' = 4 * Z.of_nat j /\
      length (flash_buffer s') = 256%nat).
  - unfold gate_closed in Hg. st_simpl.
    split; [apply erase_sectors_keeps_erased; tauto | split; [lia | tauto]].
  - match goal with
    | H : (_ < _)%nat |- _ => pose proof (words_below_bound _ _ Hfw0 H)
    end.
    match goal with
    | H : _ /\ _ /\ _ |- _ => destruct H as (Hr & Ha & Hl)
    end.
    wp_run; unfold gate_closed; st_simpl.
    + repeat split; auto; lia.
    + rewrite Ha, u32_small by lia. repeat split; auto; lia.
  - wp_run. gate_leaf.
Qed.

(** The programming loop writes at offset 0 only in its first round, and
    then the erased word the address-0 branch put in the buffer. *)
Lemma program_loop_gate count start (s1 : state F) E :
  flash_func_read_word 0 (flash s1) = ERASED ->
  0 <= address s1 ->
  address s1 + 4 * Z.of_nat count <= fw_size board_info ->
  length (flash_buffer s1) = 256%nat ->
  (address s1 = 0 -> buf_w start (flash_buffer s1) = ERASED) ->
  (forall s', gate_closed s' -> E cmd_fail s') ->
  wp (for_loop count start 1 program_word) (fun _ s' => gate_closed s') E s1.
Proof.
  intros H0 Ha Hend Hlen Hw HE. destruct Hboard as (Hfw0 & Hfw1 & _).
  wp_loop_idx (fun (j : nat) (s' : state F) =>
      flash_func_read_word 0 (flash s') = ERASED /\
      address s' = address s1 + 4 * Z.of_nat j /\
      flash_buffer s' = flash_buffer s1).
  - repeat split; auto; lia.
  - match goal with
    | H : _ /\ _ /\ _ |- _ => destruct H as (Hr & Haj & Hbuf)
    end.
    match goal with
    | H : (?k < count)%nat |- _ => rename k into j; rename H into Hj
    end.
    assert (Hwr : flash_func_read_word 0
              (flash_func_write_word (address s')
                 (buf_w (start + Z.of_nat j * 1) (flash_buffer s'))
                 (flash s')) = ERASED).
    { destruct (Z.eq_dec (address s') 0) as [Hz | Hnz].
      - rewrite Hz. rewrite write_read_same by exact Hr.
        assert (j = O) by lia. subst j.
        rewrite Hbuf. replace (start + Z.of_nat 0 * 1) with start by lia.
        apply Hw. lia.
      - rewrite write_read_other by exact Hnz. exact Hr. }
    wp_run.
    + apply HE. unfold gate_closed. st_simpl.
      split; [exact Hwr | split; [lia | congruence]].
    + st_simpl. split; [exact Hwr | split; [| exact Hbuf]].
      rewrite Haj. rewrite u32_small by lia. lia.
  - match goal with
    | H : _ /\ _ /\ _ |- _ => destruct H as (Hr & Haj & Hbuf)
    end.
    unfold gate_closed. split; [exact Hr | split; [lia | congruence]].
Qed.

Lemma do_prog_multi_gate (s : state F) :
  gate_closed s ->
  wp do_prog_multi (fun _ s' => gate_closed s')
     (fun _ s' => gate_closed s') s.
Proof.
  intros Hg. pose proof Hboard as (Hfw0 & Hfw1 & _).
  wp_run; try gate_leaf.
  match goal with
  | H : cin_result _ _ _ |- _ => pose proof (cin_result_range _ _ _ H) as Hr
  end.
  match goal with
  | H : negb (Z.rem ?c 4 =? 0) = false |- _ =>
      apply negb_false_iff, Z.eqb_eq in H;
      assert (Hq : c = 4 * (c ÷ 4)) by (pose proof (Z.quot_rem' c 4); lia)
  end.
  assert (Hsum : address s + c <= fw_size board_info).
  { destruct Hg as (_ & Hga & _). st_simpl.
    match goal with
    | H : (u32 _ >? _) = false |- _ => rewrite u32_small in H by lia
    end. lia. }
  wp_loop (fun s' : state F => gate_closed s' /\ address s' = address s).
  - split; [gate_leaf | reflexivity].
  - wp_run; [gate_leaf | split; [gate_leaf | st_simpl; tauto]].
  - match goal with
    | H : gate_closed _ /\ _ |- _ => destruct H as ((G0 & Ga & Gl) & Hsame)
    end.
    wp_run; try (unfold gate_closed; st_simpl; tauto).
    all: apply program_loop_gate; st_simpl;
      rewrite ?length_set_buf_w, ?zero_key_keeps_app; auto; try lia.
    all: try (intros _; apply buf_w_set_erased; lia).
    all: match goal with
         | H : (address _ =? 0) = false |- _ =>
             apply Z.eqb_neq in H; st_simpl; intros; contradiction
         end.
Qed.

Lemma do_set_delay_gate a (s : state F) :
  a <> 0 ->
  gate_closed s ->
  wp (do_set_delay a) (fun _ s' => gate_closed s')
     (fun _ s' => gate_closed s') s.
Proof.
  intros Ha Hg. wp_run; try gate_leaf.
  all: unfold gate_closed in *; st_simpl;
    rewrite write_read_other by exact Ha; tauto.
Qed.

Lemma do_boot_gate (s : state F) :
  gate_closed s ->
  wp do_boot (fun _ s' => gate_closed s')
     (fun l s' => l <> leave -> gate_closed s') s.
Proof.
  intros Hg. wp_run; try gate_leaf.
  all: match goal with
       | H : negb (_ =? _) = true |- _ =>
           rewrite write_read_same in H by assumption;
           rewrite Z.eqb_refl in H; discriminate
       end.
Qed.

Lemma decrypt_block_gate i a (s1 : state F) (Q : unit -> state F -> Prop)
  E :
  gate_closed s1 -> address s1 = a ->
  (forall s', gate_closed s' /\ address s' = a -> Q tt s') ->
  wp (decrypt_block i) Q E s1.
Proof.
  intros H Ha HQ. wp_run.
  wp_loop (fun s' : state F => gate_closed s' /\ address s' = a);
    [ gate_leaf | wp_run; gate_leaf | apply HQ; assumption ].
Qed.

Lemma do_prog_multi_encrypted_gate (s : state F) :
  gate_closed s ->
  wp do_prog_multi_encrypted (fun _ s' => gate_closed s')
     (fun _ s' => gate_closed s') s.
Proof.
  intros Hg. pose proof Hboard as (Hfw0 & Hfw1 & _).
  wp_run; try gate_leaf.
  match goal with
  | H : cin_result _ _ _ |- _ => pose proof (cin_result_range _ _ _ H) as Hr
  end.
  match goal with
  | H : negb (Z.rem ?c 4 =? 0) = false |- _ =>
      apply negb_false_iff, Z.eqb_eq in H;
      assert (Hq : c = 4 * (c ÷ 4)) by (pose proof (Z.quot_rem' c 4); lia)
  end.
  assert (Hsum : address s + c <= fw_size board_info).
  { destruct Hg as (_ & Hga & _). st_simpl.
    match goal with
    | H : (u32 _ >? _) = false |- _ => rewrite u32_small in H by lia
    end. lia. }
  wp_loop (fun s' : state F => gate_closed s' /\ address s' = address s).
  - split; [gate_leaf | reflexivity].
  - wp_run; [gate_leaf | split; [gate_leaf | st_simpl; tauto]].
  - wp_run; try gate_leaf.
    wp_loop (fun s' : state F => gate_closed s' /\ address s' = address s).
    + st_simpl. assumption.
    + match goal with
      | H : gate_closed _ /\ _ |- _ => destruct H as (Hg' & Hsame)
      end.
      apply (decrypt_block_gate _ (address s)); auto.
    + match goal with
      | H : gate_closed _ /\ _ |- _ => destruct H as ((G0 & Ga & Gl) & Hsame)
      end.
      wp_run;
        try (not_wp; unfold gate_closed; st_simpl;
             rewrite ?length_set_buf_w; tauto).
      all: apply program_loop_gate; st_simpl;
        rewrite ?length_set_buf_w; auto; try lia.
      all: try (intros _; apply buf_w_set_erased; lia).
      all: match goal with
           | H : (address _ =? 0) = false |- _ =>
               apply Z.eqb_neq in H; st_simpl; intros; contradiction
           end.
Qed.

Lemma command_gate c (s : state F) :
  gate_closed s ->
  wp (command c) (fun _ s' => gate_closed s')
     (fun l s' => l <> leave -> gate_closed s') s.
Proof.
  intros Hg. revert c.
  apply (command_elim (fun c m =>
    wp m (fun _ s' => gate_closed s')
       (fun l s' => l <> leave -> gate_closed s') s)); intros;
    try (eapply wp_mono;
         [ first [ apply do_prog_multi_gate; exact Hg
                 | apply do_chip_erase_gate; exact Hg
                 | apply do_prog_multi_encrypted_gate; exact Hg
                 | apply quiet_gate;
                   [ first [ apply do_get_sync_quiet
                           | apply do_get_device_quiet
                           | apply do_get_crc_quiet | apply do_get_otp_quiet
                           | apply do_get_sn_quiet | apply do_get_chip_quiet
                           | apply do_get_chip_des_quiet
                           | apply do_debug_quiet
                           | apply do_set_iv_quiet
                           | apply do_check_crc_quiet
                           | apply do_check_key_quiet | apply goto_quiet ]
                   | exact Hg ] ]
         | cbv beta; auto | cbv beta; auto ]).
  - eapply wp_mono; [apply do_set_delay_gate; [| exact Hg] | |];
      cbv beta; auto.
    destruct Hboard as (_ & _ & Hd). congruence.
  - apply do_boot_gate, Hg.
Qed.

Lemma step_gate c (s : state F) :
  gate_closed s ->
  fst (bootloader_step c s) <> BOOTED ->
  gate_closed (snd (bootloader_step c s)).
Proof.
  intros Hg.
  apply (step_of_wp c s _ _
           (fun r s' => r <> BOOTED -> gate_closed s')
           (command_gate c s Hg));
    intros s1 H Hr; unfold gate_closed in *; st_simpl;
    try (apply H; discriminate); try exact H.
  contradiction.
Qed.

Lemma bootloader_loop_ending fuel :
  forall (s : state F) h e s',
    bootloader_loop fuel s = (h, e, s') ->
    e <> Returned_boot ->
    forallb (fun cr => negb (is_booted (snd cr))) h = true.
Proof.
  induction fuel as [|fuel IH]; intros s h e s' Hrun He.
  - simpl in Hrun. inversion Hrun. reflexivity.
  - simpl in Hrun. destruct (rx s) as [|x rest].
    + inversion Hrun. reflexivity.
    + destruct (cin_wait_eq 0 s) as (c & r & Hc & _).
      rewrite Hc in Hrun.
      destruct (c <? 0); [apply (IH _ _ _ _ Hrun He) |].
      destruct (bootloader_step c (set_rx r (log (EvCin 0) s)))
        as [rep s2].
      destruct rep;
        try (destruct (bootloader_loop fuel s2) as [[h' e'] s3] eqn:Hl;
             inversion Hrun; subst; cbn [forallb snd is_booted negb andb];
             apply (IH _ _ _ _ Hl He)).
      inversion Hrun. subst. contradiction.
Qed.

End Gate.

(** ** The deadlines of the reads *)

Lemma cin_deadlines_cin t d :
  cin_deadlines (t ++ [EvCin d]) = cin_deadlines t ++ [d].
Proof. apply cin_deadlines_app. Qed.

Lemma cin_deadlines_cout t b :
  cin_deadlines (t ++ [EvCout b]) = cin_deadlines t.
Proof. rewrite cin_deadlines_app. apply app_nil_r. Qed.

Lemma cin_deadlines_zero_key t :
  cin_deadlines (t ++ [EvZeroKey]) = cin_deadlines t.
Proof. rewrite cin_deadlines_app. apply app_nil_r. Qed.

Ltac dl_norm :=
  unfold dl in *; st_simpl;
  repeat first [ rewrite cin_deadlines_cin | rewrite cin_deadlines_cout
               | rewrite cin_deadlines_zero_key
               | match goal with
                 | H : cin_deadlines (trace ?s') = _
                   |- context [cin_deadlines (trace ?s')] => rewrite H
                 end ];
  rewrite <- ?app_assoc; cbn [app].

Ltac dl_leaf :=
  not_wp; cbv beta iota delta [dl_exit];
  first [ exfalso; cbn [fst snd] in *; lia | idtac ];
  lazymatch goal with
  | |- exists _ _, _ /\ _ =>
      eexists; eexists; split; [dl_norm; reflexivity | reflexivity]
  | |- _ => dl_norm; reflexivity
  end.

Lemma do_get_sync_deadlines (s : state F) : follows_schedule [2] do_get_sync s.
Proof. unfold follows_schedule. wp_run; dl_leaf. Qed.

Lemma do_get_device_deadlines (s : state F) :
  follows_schedule [1000; 2] do_get_device s.
Proof.
  unfold follows_schedule. wp_run; try dl_leaf.
  wp_loop (dl s [1000; 2]); wp_run; dl_leaf.
Qed.

Lemma do_chip_erase_deadlines (s : state F) :
  follows_schedule [2] do_chip_erase s.
Proof.
  unfold follows_schedule. wp_run; try dl_leaf.
  wp_loop (dl s [2]); wp_run; dl_leaf.
Qed.

Lemma do_get_crc_deadlines (s : state F) : follows_schedule [2] do_get_crc s.
Proof. unfold follows_schedule. wp_run; dl_leaf. Qed.

Lemma do_get_otp_deadlines (s : state F) :
  follows_schedule [100; 100; 100; 100; 2] do_get_otp s.
Proof. unfold follows_schedule. wp_run; dl_leaf. Qed.

Lemma do_get_sn_deadlines (s : state F) :
  follows_schedule [100; 100; 100; 100; 2] do_get_sn s.
Proof. unfold follows_schedule. wp_run; dl_leaf. Qed.

Lemma do_get_chip_deadlines (s : state F) :
  follows_schedule [2] do_get_chip s.
Proof. unfold follows_schedule. wp_run; dl_leaf. Qed.

Lemma do_get_chip_des_deadlines (s : state F) :
  follows_schedule [2] do_get_chip_des s.
Proof. unfold follows_schedule. wp_run; dl_leaf. Qed.

Lemma do_set_delay_deadlines a (s : state F) :
  follows_schedule [100; 2] (do_set_delay a) s.
Proof. unfold follows_schedule. wp_run; dl_leaf. Qed.

Lemma do_boot_deadlines (s : state F) : follows_schedule [1000] do_boot s.
Proof. unfold follows_schedule. wp_run; dl_leaf. Qed.

Lemma do_debug_deadlines (s : state F) : follows_schedule [] do_debug s.
Proof.
  unfold follows_schedule. wp_run. unfold dl. now rewrite app_nil_r.
Qed.

Lemma do_check_crc_deadlines (s : state F) :
  follows_schedule [2] do_check_crc s.
Proof. unfold follows_schedule. wp_run; dl_leaf. Qed.

Lemma do_check_key_deadlines (s : state F) :
  follows_schedule [2] do_check_key s.
Proof. unfold follows_schedule. wp_run; dl_leaf. Qed.

Lemma goto_next_deadlines sch (s : state F) :
  follows_schedule sch (goto next_command) s.
Proof.
  unfold follows_schedule. wp_run. unfold dl_exit, dl.
  now rewrite app_nil_r.
Qed.

Lemma repeat_split (x : Z) n j :
  (j < n)%nat -> repeat x n = (repeat x j ++ [x]) ++ repeat x (n - S j).
Proof.
  intros H. replace n with (j + 1 + (n - S j))%nat at 1 by lia.
  rewrite !repeat_app. reflexivity.
Qed.

(** The loops that read a payload: one read of 1000 ms per byte. *)
Lemma read_loop_deadlines (s s1 : state F) pre n
  (store : Z -> Z -> state F -> state F)
  (Q : unit -> state F -> Prop) E :
  (forall i c s', trace (store i c s') = trace s') ->
  dl s pre s1 ->
  (forall s', dl s (pre ++ repeat 1000 n) s' -> Q tt s') ->
  (forall j s', (j < n)%nat ->
     dl s (pre ++ repeat 1000 j ++ [1000]) s' -> E cmd_bad s') ->
  wp (for_loop n 0 1 (fun i =>
        bind (cin_wait 1000) (fun c =>
          bind (when (c <? 0) (goto cmd_bad))
               (fun _ => modify (store i c))))) Q E s1.
Proof.
  intros Hst H1 HQ HE.
  wp_loop_idx (fun (j : nat) (s' : state F) =>
                 dl s (pre ++ repeat 1000 j) s').
  - cbn [repeat]. rewrite app_nil_r. exact H1.
  - wp_run.
    + match goal with
      | H : (?k < n)%nat |- _ => apply (HE k); [exact H |]
      end.
      unfold dl in *. st_simpl. rewrite cin_deadlines_cin.
      match goal with
      | H : cin_deadlines _ = _ |- _ => rewrite H
      end.
      rewrite <- !app_assoc. reflexivity.
    + unfold dl in *. rewrite Hst. st_simpl. rewrite cin_deadlines_cin.
      match goal with
      | H : cin_deadlines _ = _ |- _ => rewrite H
      end.
      rewrite <- !app_assoc. f_equal. f_equal.
      change (repeat 1000 (S j)) with ([1000] ++ repeat 1000 j).
      rewrite <- repeat_cons. reflexivity.
  - apply HQ. assumption.
Qed.

Lemma do_set_iv_deadlines (s : state F) :
  follows_schedule (repeat 1000 16 ++ [200]) do_set_iv s.
Proof.
  unfold follows_schedule, do_set_iv. apply wp_bind.
  apply (read_loop_deadlines s s [] 16
           (fun i c s0 => set_iv (set_buf_c i c (iv s0)) s0)).
  - reflexivity.
  - unfold dl. now rewrite app_nil_r.
  - intros s' Hs'. cbn [app] in Hs'. wp_run.
    + unfold dl_exit. exists (repeat 1000 16 ++ [200]), [].
      split; [dl_norm; reflexivity | now rewrite app_nil_r].
    + dl_norm. reflexivity.
  - intros j s' Hj Hs'. unfold dl_exit. cbn [app] in Hs'.
    exists (repeat 1000 j ++ [1000]), (repeat 1000 (16 - S j) ++ [200]).
    split; [exact Hs' |].
    rewrite (repeat_split 1000 16 j Hj), <- !app_assoc. reflexivity.
Qed.

Lemma payload_schedule_byte script b r :
  script = Some b :: r ->
  payload_schedule script = 50 :: repeat 1000 (Z.to_nat (u8 b)) ++ [200].
Proof. intros ->. reflexivity. Qed.

Lemma payload_prefix n j :
  (j < n)%nat ->
  50 :: repeat 1000 n ++ [200]
  = ([50] ++ repeat 1000 j ++ [1000]) ++ repeat 1000 (n - S j) ++ [200].
Proof.
  intros Hj. rewrite (repeat_split 1000 n j Hj), <- !app_assoc.
  reflexivity.
Qed.

Lemma do_prog_multi_deadlines (s : state F) :
  follows_schedule (payload_schedule (rx s)) do_prog_multi s.
Proof.
  unfold follows_schedule, do_prog_multi.
  apply wp_bind, wp_cin_wait. intros c r Hc. cbv beta.
  apply wp_bind, wp_when; intros Hneg;
    [wp_run; unfold payload_schedule; dl_leaf | ].
  destruct (cin_result_byte _ _ _ Hc Hneg) as (b & Hrx & Hb).
  rewrite (payload_schedule_byte _ _ _ Hrx), <- Hb.
  wp_run; try dl_leaf.
  apply (read_loop_deadlines s _ [50] (Z.to_nat c)
           (fun i c0 s0 =>
              set_flash_buffer (set_buf_c i c0 (flash_buffer s0)) s0)).
  - reflexivity.
  - dl_norm. reflexivity.
  - intros s' Hs'. cbn [app] in Hs'. wp_run; try dl_leaf.
    + unfold dl_exit. exists (50 :: repeat 1000 (Z.to_nat c) ++ [200]), [].
      split; [dl_norm; reflexivity | now rewrite app_nil_r].
    + wp_loop (dl s (50 :: repeat 1000 (Z.to_nat c) ++ [200]));
        wp_run; dl_leaf.
    + wp_loop (dl s (50 :: repeat 1000 (Z.to_nat c) ++ [200]));
        wp_run; dl_leaf.
    + wp_loop (dl s (50 :: repeat 1000 (Z.to_nat c) ++ [200]));
        wp_run; dl_leaf.
  - intros j s' Hj Hs'. unfold dl_exit.
    exists ([50] ++ repeat 1000 j ++ [1000]),
           (repeat 1000 (Z.to_nat c - S j) ++ [200]).
    split; [exact Hs' | apply payload_prefix, Hj].
Qed.

Lemma decrypt_block_deadlines i d (s s1 : state F) E :
  dl s d s1 ->
  wp (decrypt_block i) (fun _ s' => dl s d s') E s1.
Proof.
  intros H. wp_run.
  wp_loop (dl s d); [dl_leaf | wp_run; dl_leaf | auto].
Qed.

Lemma do_prog_multi_encrypted_deadlines (s : state F) :
  follows_schedule (payload_schedule (rx s)) do_prog_multi_encrypted s.
Proof.
  unfold follows_schedule, do_prog_multi_encrypted.
  apply wp_bind, wp_cin_wait. intros c r Hc. cbv beta.
  apply wp_bind, wp_when; intros Hneg;
    [wp_run; unfold payload_schedule; dl_leaf | ].
  destruct (cin_result_byte _ _ _ Hc Hneg) as (b & Hrx & Hb).
  rewrite (payload_schedule_byte _ _ _ Hrx), <- Hb.
  wp_run; try dl_leaf.
  apply (read_loop_deadlines s _ [50] (Z.to_nat c)
           (fun i c0 s0 =>
              set_encrypted_buffer
                (set_buf_c i c0 (encrypted_buffer s0)) s0)).
  - reflexivity.
  - dl_norm. reflexivity.
  - intros s' Hs'. cbn [app] in Hs'. wp_run; try dl_leaf.
    + unfold dl_exit. exists (50 :: repeat 1000 (Z.to_nat c) ++ [200]), [].
      split; [dl_norm; reflexivity | now rewrite app_nil_r].
    + wp_loop (dl s (50 :: repeat 1000 (Z.to_nat c) ++ [200]));
        [ dl_leaf | apply decrypt_block_deadlines; assumption | ].
      wp_run; try dl_leaf.
      all: wp_loop (dl s (50 :: repeat 1000 (Z.to_nat c) ++ [200]));
        wp_run; dl_leaf.
    + unfold dl_exit. exists (50 :: repeat 1000 (Z.to_nat c) ++ [200]), [].
      split; [dl_norm; reflexivity | now rewrite app_nil_r].
  - intros j s' Hj Hs'. unfold dl_exit.
    exists ([50] ++ repeat 1000 j ++ [1000]),
           (repeat 1000 (Z.to_nat c - S j) ++ [200]).
    split; [exact Hs' | apply payload_prefix, Hj].
Qed.

(** Every command keeps to its row of the schedule. *)
Lemma command_deadlines c (s : state F) :
  follows_schedule (schedule c (rx s)) (command c) s.
Proof.
  revert c.
  apply (command_elim (fun c m =>
           follows_schedule (schedule c (rx s)) m s)); intros.
  all: try match goal with
           | H : ENABLE_ENCRYPTION board_info = true |- _ =>
               unfold schedule; rewrite H
           | H : BOOT_DELAY_ADDRESS board_info = Some _ |- _ =>
               unfold schedule; rewrite H
           end.
  all: try first
    [ apply do_get_sync_deadlines | apply do_get_device_deadlines
    | apply do_chip_erase_deadlines | apply do_prog_multi_deadlines
    | apply do_get_crc_deadlines | apply do_get_otp_deadlines
    | apply do_get_sn_deadlines | apply do_get_chip_deadlines
    | apply do_get_chip_des_deadlines | apply do_set_delay_deadlines
    | apply do_boot_deadlines | apply do_debug_deadlines
    | apply do_set_iv_deadlines
    | apply do_prog_multi_encrypted_deadlines
    | apply do_check_crc_deadlines | apply do_check_key_deadlines
    | apply goto_next_deadlines ].
Qed.

(** C9 (as amended): the reads of a command have, in order, the
    deadlines of its row in [schedule] - 1000 ms for the argument of
    GET_DEVICE, 100 ms for each argument byte of GET_OTP and GET_SN and
    for the argument of SET_DELAY, 50 ms for the length byte of
    PROG_MULTI and PROG_MULTI_ENCRYPTED, 1000 ms for each payload byte,
    and for the EOC 2 ms in the short commands, 200 ms after a payload
    and 1000 ms in BOOT.  A command answered INVALID stopped somewhere
    in its row, an ignored byte reads nothing, and every other command
    made all the reads of its row. *)
Theorem reads_follow_the_schedule (c : Z) (s : state F) :
  exists d rest,
    cin_deadlines (trace (snd (bootloader_step c s)))
    = cin_deadlines (trace s) ++ d /\
    (fst (bootloader_step c s) = NO_REPLY -> d = []) /\
    (fst (bootloader_step c s) <> NO_REPLY ->
     schedule c (rx s) = d ++ rest) /\
    (fst (bootloader_step c s) <> INVALID ->
     fst (bootloader_step c s) <> NO_REPLY -> rest = []).
Proof.
  apply (step_of_wp c s _ _
    (fun r s' =>
       exists d rest,
         cin_deadlines (trace s') = cin_deadlines (trace s) ++ d /\
         (r = NO_REPLY -> d = []) /\
         (r <> NO_REPLY -> schedule c (rx s) = d ++ rest) /\
         (r <> INVALID -> r <> NO_REPLY -> rest = []))
    (command_deadlines c s)); intros s1 H; unfold dl_exit, dl in H.
  - exists (schedule c (rx s)), []. st_simpl.
    rewrite cin_deadlines_cout, H, app_nil_r.
    repeat split; auto; discriminate.
  - destruct H as (d & rest & H & Hs). exists d, rest. st_simpl.
    rewrite cin_deadlines_cout, H.
    repeat split; auto; try discriminate. intros Hn. contradiction.
  - exists (schedule c (rx s)), []. st_simpl.
    rewrite cin_deadlines_cout, H, app_nil_r.
    repeat split; auto; discriminate.
  - exists (schedule c (rx s)), []. st_simpl.
    rewrite cin_deadlines_cout, H, app_nil_r.
    repeat split; auto; discriminate.
  - exists (schedule c (rx s)), []. st_simpl.
    rewrite cin_deadlines_cout, H, app_nil_r.
    repeat split; auto; discriminate.
  - exists [], []. rewrite H.
    repeat split; auto; intros Hn; contradiction.
  - exists (schedule c (rx s)), []. rewrite H, app_nil_r.
    repeat split; auto; discriminate.
Qed.

(** ** The session loop has enough rounds *)

Lemma cin_result_length script c r :
  cin_result script c r -> (length r <= length script)%nat.
Proof.
  unfold cin_result. destruct script as [|[b|] t]; intros [_ ->]; simpl; lia.
Qed.

Ltac rx_leaf :=
  not_wp; unfold rx_shrinks in *;
  repeat match goal with
         | H : cin_result _ _ _ |- _ => apply cin_result_length in H
         end;
  st_simpl; lia.

Ltac rx_go s :=
  wp_run; try rx_leaf;
  try (wp_loop (rx_shrinks s); rx_go s).

Lemma command_rx c (s : state F) :
  wp (command c) (fun _ s' => rx_shrinks s s')
     (fun _ s' => rx_shrinks s s') s.
Proof.
  revert c.
  apply (command_elim (fun _ m =>
    wp m (fun _ s' => rx_shrinks s s') (fun _ s' => rx_shrinks s s') s));
    intros; rx_go s.
Qed.

Lemma step_rx c (s : state F) :
  rx_shrinks s (snd (bootloader_step c s)).
Proof.
  apply (step_of_wp c s _ _ (fun _ s' => rx_shrinks s s') (command_rx c s));
    intros s1 H; unfold rx_shrinks in *; st_simpl; exact H.
Qed.

(** With more rounds than script entries the loop stops because the
    bootloader returned or because the script is used up, never for
    want of rounds. *)
Lemma bootloader_loop_fuel fuel :
  forall (s : state F) h e s',
    (length (rx s) < fuel)%nat ->
    bootloader_loop fuel s = (h, e, s') ->
    e = Returned_boot \/ rx s' = [].
Proof.
  induction fuel as [|fuel IH]; intros s h e s' Hlen Hrun; [lia |].
  simpl in Hrun. destruct (rx s) as [|x rest] eqn:Hrx.
  - inversion Hrun. subst. right. exact Hrx.
  - destruct (cin_wait_eq 0 s) as (c & r & Hc & Hres).
    rewrite Hc in Hrun. apply cin_result_length in Hres as Hr.
    assert (Hr' : r = rest).
    { rewrite Hrx in Hres. destruct x; destruct Hres; auto. }
    subst r. simpl in Hlen.
    destruct (c <? 0).
    + apply (IH _ _ _ _) with (2 := Hrun). st_simpl. lia.
    + pose proof (step_rx c (set_rx rest (log (EvCin 0) s))) as Hs.
      unfold rx_shrinks in Hs. st_simpl.
      destruct (bootloader_step c (set_rx rest (log (EvCin 0) s)))
        as [rep s2].
      cbn [snd] in Hs.
      destruct rep;
        try (destruct (bootloader_loop fuel s2) as [[h' e'] s3] eqn:Hl;
             inversion Hrun; subst;
             apply (IH _ _ _ _) with (2 := Hl); lia).
      inversion Hrun. left. reflexivity.
Qed.

(** ** What no command touches *)

Ltac frame_leaf :=
  not_wp; unfold session_frame in *; st_simpl;
  repeat match goal with
         | H : _ /\ _ |- _ => destruct H
         | H : exists _, _ |- _ => destruct H
         end;
  rewrite ?length_set_buf_c, ?length_set_buf_w, ?length_blit;
  repeat (split; [congruence |]);
  try match goal with
      | H : trace _ = _ |- _ => rewrite H
      end;
  rewrite <- ?app_assoc;
  first [ eexists; reflexivity | exists []; now rewrite app_nil_r ].

Ltac frame_go s :=
  wp_run; try frame_leaf;
  try (wp_loop (session_frame s); frame_go s).

Lemma command_frame c (s : state F) :
  wp (command c) (fun _ s' => session_frame s s')
     (fun _ s' => session_frame s s') s.
Proof.
  revert c.
  apply (command_elim (fun _ m =>
    wp m (fun _ s' => session_frame s s')
       (fun _ s' => session_frame s s') s));
    intros; frame_go s.
Qed.

(** ** The ways out of the switch *)

Ltac exit_leaf :=
  not_wp; unfold exit_ok; st_simpl;
  first [ exact I | reflexivity
        | exists [EvCin 1000]; rewrite <- ?app_assoc; reflexivity ].

Ltac exit_go :=
  wp_run; try exit_leaf;
  try (wp_loop (fun _ : state F => True); exit_go).

Lemma command_exit c (s : state F) :
  wp (command c) (fun _ _ => True) (exit_ok s) s.
Proof.
  revert c.
  apply (command_elim (fun _ m =>
    wp m (fun _ _ => True) (exit_ok s) s));
    intros; exit_go.
Qed.

Lemma step_frame c (s : state F) :
  (timeout (snd (bootloader_step c s))
   = if accepted (fst (bootloader_step c s)) then 0 else timeout s) /\
  key_state (snd (bootloader_step c s)) = key_state s /\
  length (iv (snd (bootloader_step c s))) = length (iv s) /\
  length (flash_buffer (snd (bootloader_step c s)))
  = length (flash_buffer s) /\
  length (encrypted_buffer (snd (bootloader_step c s)))
  = length (encrypted_buffer s).
Proof.
  apply (step_of_wp c s _ _
    (fun r s' =>
       (timeout s' = if accepted r then 0 else timeout s) /\
       key_state s' = key_state s /\
       length (iv s') = length (iv s) /\
       length (flash_buffer s') = length (flash_buffer s) /\
       length (encrypted_buffer s') = length (encrypted_buffer s))
    (command_frame c s));
    intros s1 (Ht & Hk & Hi & Hf & He & _); cbn [accepted]; st_simpl;
    repeat split; congruence.
Qed.

(** ** The boot gate after an erase *)

Section GateAfterErase.

Context {RL : Reliable}.
Hypothesis Hboard : board_ok.

Lemma do_chip_erase_closes (s : state F) :
  0 < fw_size board_info ->
  length (flash_buffer s) = 256%nat ->
  wp do_chip_erase (fun _ s' => gate_closed s') (fun _ _ => True) s.
Proof.
  intros Hfw Hlen. destruct Hboard as (Hfw0 & Hfw1 & _).
  wp_run; auto.
  wp_loop_idx (fun (j : nat) (s' : state F) =>
      address s' = 4 * Z.of_nat j /\
      flash_buffer s' = flash_buffer s /\
      ((0 < j)%nat -> flash_func_read_word 0 (flash s') = ERASED)).
  - st_simpl. split; [lia | split; [reflexivity | intros; lia]].
  - match goal with
    | H : _ /\ _ /\ _ |- _ => destruct H as (Ha & Hb & Hz)
    end.
    match goal with
    | H : (_ < _)%nat |- _ => pose proof (words_below_bound _ _ Hfw0 H)
    end.
    wp_run; st_simpl; auto.
    split; [rewrite Ha, u32_small by lia; lia |].
    split; [exact Hb |].
    intros _. destruct j as [|j]; [| apply Hz; lia].
    match goal with
    | H : negb (_ =? ERASED) = false |- _ =>
        apply negb_false_iff, Z.eqb_eq in H; rewrite Ha in H; exact H
    end.
  - wp_run. unfold gate_closed. st_simpl.
    match goal with
    | H : _ /\ _ /\ _ |- _ => destruct H as (Ha & Hb & Hz)
    end.
    split; [| split; [lia | congruence]].
    apply Hz. unfold words_below.
    assert (1 <= (fw_size board_info + 3) / 4).
    { apply Z.div_le_lower_bound; lia. }
    lia.
Qed.

Lemma chip_erase_closes_the_gate (s : state F) :
  0 < fw_size board_info ->
  length (flash_buffer s) = 256%nat ->
  fst (bootloader_step PROTO_CHIP_ERASE s) = OK ->
  gate_closed (snd (bootloader_step PROTO_CHIP_ERASE s)).
Proof.
  intros Hfw Hlen.
  pose proof (do_chip_erase_closes s Hfw Hlen) as Hwp.
  change do_chip_erase with (command PROTO_CHIP_ERASE) in Hwp.
  apply (step_of_wp PROTO_CHIP_ERASE s _ _
           (fun r s' => r = OK -> gate_closed s') Hwp);
    intros s1 H Hr; try discriminate.
  unfold gate_closed in *. st_simpl. exact H.
Qed.

(** The gate is closed at the end of a run that has not returned through
    BOOT if it was closed at the start, or if a CHIP_ERASE was answered OK
    on the way. *)
Lemma bootloader_loop_gate fuel :
  forall (s : state F) h e s',
    bootloader_loop fuel s = (h, e, s') ->
    e <> Returned_boot ->
    length (flash_buffer s) = 256%nat ->
    gate_closed s \/
    (0 < fw_size board_info /\ In (PROTO_CHIP_ERASE, OK) h) ->
    gate_closed s'.
Proof.
  intros s h e s' Hrun He Hlen [Hg | [Hfw Hin]].
  - apply (bootloader_loop_inv gate_closed
             (fun _ r => negb (is_booted r))) with (3 := Hrun).
    + intros s0 t0 r0 H. exact H.
    + intros c s0 H0 Hr. apply (step_gate Hboard); [exact H0 |].
      intros Hb. rewrite Hb in Hr. discriminate.
    + exact Hg.
    + apply (bootloader_loop_ending _ _ _ _ _ Hrun He).
  - revert s h e s' Hrun He Hlen Hin.
    induction fuel as [|fuel IH]; intros s h e s' Hrun He Hlen Hin.
    + cbn in Hrun. inversion Hrun. subst. contradiction.
    + cbn [bootloader_loop] in Hrun. destruct (rx s) as [|x rest] eqn:Hrx.
      * inversion Hrun. subst. contradiction.
      * destruct (cin_wait_eq 0 s) as (c & r & Hc & _).
        rewrite Hc in Hrun.
        destruct (c <? 0); [apply (IH _ _ _ _ Hrun He Hlen Hin) |].
        destruct (step_frame c (set_rx r (log (EvCin 0) s)))
          as (_ & _ & _ & Hl2 & _).
        pose proof (chip_erase_closes_the_gate
                      (set_rx r (log (EvCin 0) s)) Hfw Hlen) as Hce.
        destruct (bootloader_step c (set_rx r (log (EvCin 0) s)))
          as [rep s2] eqn:Hstep.
        cbn [fst snd] in Hl2. st_simpl.
        destruct rep;
          try (destruct (bootloader_loop fuel s2) as [[h' e'] s3] eqn:Hl;
               inversion Hrun; subst;
               destruct Hin as [Hhd | Htl];
               [ try discriminate Hhd
               | apply (IH _ _ _ _ Hl He ltac:(congruence) Htl) ]).
        -- inversion Hhd. subst c. rewrite Hstep in Hce. cbn [fst snd] in Hce.
           apply (bootloader_loop_inv gate_closed
                    (fun _ r => negb (is_booted r))) with (3 := Hl).
           ++ intros s0 t0 r0 H. exact H.
           ++ intros c s0 H0 Hr. apply (step_gate Hboard); [exact H0 |].
              intros Hb. rewrite Hb in Hr. discriminate.
           ++ apply Hce. reflexivity.
           ++ apply (bootloader_loop_ending _ _ _ _ _ Hl He).
        -- inversion Hrun. subst. contradiction.
Qed.

(** C1 (as amended): on a flash driver that behaves and a board that
    leaves room for the arithmetic on [address] and does not keep its
    boot delay in word 0: in a session that was entered with word 0 of
    the application region erased, or in which a CHIP_ERASE was answered
    OK (the region not being empty), word 0 reads 0xFFFFFFFF at the end of
    any run that has not returned through an accepted BOOT: the
    PROG_MULTI and PROG_MULTI_ENCRYPTED packets at address 0 program
    0xFFFFFFFF there, never the captured first word. *)
Theorem word0_erased_until_boot (t : Z) (f : F) script fuel h e s :
  bootloader_loop fuel (bootloader_init t f script) = (h, e, s) ->
  e <> Returned_boot ->
  flash_func_read_word 0 f = ERASED \/
  (0 < fw_size board_info /\ In (PROTO_CHIP_ERASE, OK) h) ->
  flash_func_read_word 0 (flash s) = ERASED.
Proof.
  intros Hrun He Hor.
  assert (Hg : gate_closed s); [| apply Hg].
  apply (bootloader_loop_gate _ _ _ _ _ Hrun He).
  - unfold bootloader_init. st_simpl. reflexivity.
  - destruct Hor as [Hf | Hin]; [left | right; exact Hin].
    destruct Hboard as (Hfw0 & _).
    unfold gate_closed, bootloader_init. st_simpl.
    split; [exact Hf | split; [lia | reflexivity]].
Qed.

End GateAfterErase.

Lemma bootloader_loop_timeout fuel :
  forall (s : state F) h e s',
    bootloader_loop fuel s = (h, e, s') ->
    e = Returned_timeout ->
    timeout s <> 0 /\
    forallb (fun cr => negb (accepted (snd cr))) h = true.
Proof.
  induction fuel as [|fuel IH]; intros s h e s' Hrun He.
  - cbn in Hrun. inversion Hrun. subst. discriminate.
  - cbn [bootloader_loop] in Hrun. destruct (rx s) as [|x rest] eqn:Hrx.
    + inversion Hrun. subst. split; [| reflexivity].
      destruct (Z.eqb_spec (timeout s') 0); [discriminate | assumption].
    + destruct (cin_wait_eq 0 s) as (c & r & Hc & _).
      rewrite Hc in Hrun.
      destruct (c <? 0); [apply (IH _ _ _ _ Hrun He) |].
      destruct (step_frame c (set_rx r (log (EvCin 0) s))) as (Ht & _).
      destruct (bootloader_step c (set_rx r (log (EvCin 0) s)))
        as [rep s2].
      cbn [fst snd] in Ht. st_simpl.
      destruct rep;
        try (destruct (bootloader_loop fuel s2) as [[h' e'] s3] eqn:Hl;
             inversion Hrun; subst;
             destruct (IH _ _ _ _ Hl eq_refl) as [Hn Hh];
             cbn [accepted forallb snd negb andb] in *;
             first [ contradiction | split; [congruence | exact Hh] ]).
      inversion Hrun. subst. discriminate.
Qed.

(** X11: a session that returns because the wait timer ran out was
    entered with a timeout and has accepted no command: once a command
    has been answered INSYNC/OK, [bootloader()] returns only through
    BOOT. *)
Theorem timeout_return_means_nothing_was_accepted
  (t : Z) (f : F) script fuel h e s :
  bootloader_loop fuel (bootloader_init t f script) = (h, e, s) ->
  e = Returned_timeout ->
  t <> 0 /\ forallb (fun cr => negb (accepted (snd cr))) h = true.
Proof.
  intros Hrun He. apply (bootloader_loop_timeout _ _ _ _ _ Hrun He).
Qed.

Lemma bootloader_loop_all fuel (s : state F) h e s' :
  bootloader_loop fuel s = (h, e, s') ->
  forallb (fun cr : Z * reply => (fun _ _ => true) (fst cr) (snd cr)) h = true.
Proof.
  intros _. apply forallb_forall. reflexivity.
Qed.

Lemma do_check_key_spec (s : state F) rest :
  rx s = Some PROTO_EOC :: rest ->
  wp do_check_key
     (fun _ _ => ENABLE_ENCRYPTION board_info = true /\ key_state s = 0)
     (fun l _ => l = bad_key /\
                 (ENABLE_ENCRYPTION board_info = false \/ key_state s <> 0))
     s.
Proof.
  intros Hrx. wp_run; st_simpl.
  - match goal with
    | H : cin_result _ _ _ |- _ =>
        destruct (cin_result_eoc _ _ _ _ Hrx H) as [-> _]
    end. discriminate.
  - split; [reflexivity | right].
    match goal with
    | H : negb (key_state _ =? 0) = true |- _ =>
        apply negb_true_iff, Z.eqb_neq in H; exact H
    end.
  - split; [reflexivity |].
    match goal with
    | H : negb (key_state _ =? 0) = false |- _ =>
        apply negb_false_iff, Z.eqb_eq in H; exact H
    end.
  - split; [reflexivity | left; reflexivity].
Qed.

(** X12: [key_state] is sampled once, on entry; no command refreshes it.
    So at any point of a session CHECK_KEY (followed by its EOC) answers
    by the key as it was on entry - also after a PROG_MULTI of the same
    session has zeroed the key. *)
Theorem check_key_answers_the_key_at_entry
  (t : Z) (f : F) script fuel h e s rest :
  bootloader_loop fuel (bootloader_init t f script) = (h, e, s) ->
  key_state s = (if ENABLE_ENCRYPTION board_info then validate_key f else -1)
  /\
  fst (bootloader_step PROTO_CHECK_KEY (set_rx (Some PROTO_EOC :: rest) s))
  = if ENABLE_ENCRYPTION board_info && (validate_key f =? 0)
    then OK else BAD_KEY.
Proof.
  intros Hrun.
  assert (Hk : key_state s
               = if ENABLE_ENCRYPTION board_info then validate_key f else -1).
  { apply (bootloader_loop_inv
             (fun s => key_state s
                = if ENABLE_ENCRYPTION board_info then validate_key f else -1)
             (fun _ _ => true)) with (3 := Hrun).
    - intros s0 t0 r0 H. exact H.
    - intros c s0 H _. destruct (step_frame c s0) as (_ & Hks & _).
      congruence.
    - reflexivity.
    - apply (bootloader_loop_all _ _ _ _ _ Hrun). }
  split; [exact Hk |].
  pose proof (do_check_key_spec (set_rx (Some PROTO_EOC :: rest) s) rest
                eq_refl) as Hwp.
  change do_check_key with (command PROTO_CHECK_KEY) in Hwp.
  apply (step_of_wp PROTO_CHECK_KEY _ _ _
           (fun r _ => r = if ENABLE_ENCRYPTION board_info
                                && (validate_key f =? 0)
                           then OK else BAD_KEY) Hwp);
    intros s1 H; st_simpl; try (destruct H as [H _]; discriminate).
  - destruct H as [He Hz]. rewrite He in *. rewrite Hk in Hz.
    rewrite Hz. reflexivity.
  - destruct H as [_ [He | Hz]].
    + rewrite He. reflexivity.
    + destruct (ENABLE_ENCRYPTION board_info); [| reflexivity].
      rewrite Hk in Hz. apply Z.eqb_neq in Hz. rewrite Hz. reflexivity.
Qed.

(** X13: a command byte that gets no answer did nothing: the state after
    it is the state before it, trace and script included; and every byte
    outside the sixteen command bytes of the [switch] gets no answer. *)
Theorem unknown_command_byte_is_ignored (c : Z) (s : state F) :
  (fst (bootloader_step c s) = NO_REPLY -> snd (bootloader_step c s) = s) /\
  (~ In c command_bytes -> bootloader_step c s = (NO_REPLY, s)).
Proof.
  split.
  - apply (step_of_wp c s _ _ (fun r s' => r = NO_REPLY -> s' = s)
             (command_exit c s));
      intros s1 H Hr; try discriminate. exact H.
  - intros Hc. unfold bootloader_step, command.
    repeat match goal with
           | |- context [?x =? ?k] =>
               let E := fresh "E" in
               destruct (Z.eqb_spec x k) as [E|E];
               [ exfalso; apply Hc; rewrite E; cbn; tauto | clear E ]
           end.
    cbn [andb]. reflexivity.
Qed.

Lemma handed_app t1 t2 : handed (t1 ++ t2) = handed t1 ++ handed t2.
Proof.
  induction t1 as [|[d|b|] t1 IH]; cbn [handed app]; auto. now rewrite IH.
Qed.

Ltac silent_leaf :=
  not_wp; unfold silent_exit in *; st_simpl;
  rewrite ?handed_app; cbn [handed];
  rewrite ?app_nil_r, <- ?app_assoc; cbn [app];
  first [ exact I | congruence ].

Ltac silent_go s :=
  wp_run; try silent_leaf;
  try first
    [ solve [wp_loop (fun s' : state F => handed (trace s') = handed (trace s));
             silent_go s]
    | solve [wp_loop (fun _ : state F => True); silent_go s] ].

Lemma command_silent c (s : state F) :
  wp (command c) (fun _ _ => True) (silent_exit s) s.
Proof.
  revert c.
  apply (command_elim (fun _ m =>
    wp m (fun _ _ => True) (silent_exit s) s));
    intros; silent_go s.
Qed.

(** ** A refused command has programmed nothing *)

Ltac untouched_leaf :=
  not_wp; unfold refused_exit, untouched in *; st_simpl;
  first [ exact I | intuition congruence ].

Ltac untouched_go s :=
  wp_run; try untouched_leaf;
  try first [ solve [wp_loop (untouched s); untouched_go s]
            | solve [wp_loop (fun _ : state F => True); untouched_go s] ].

Lemma command_refused c (s : state F) :
  wp (command c) (fun _ _ => True) (refused_exit s) s.
Proof.
  revert c.
  apply (command_elim (fun _ m =>
    wp m (fun _ _ => True) (refused_exit s) s));
    intros; untouched_go s.
Qed.

(** X15: a command that is refused - answered INVALID, BAD_SILICON or
    BAD_KEY, or not answered - has changed neither the flash nor
    [address], [first_word], [num_to_flash] and [crc32_sum]: every check
    that can refuse a command comes before its first write. *)
Theorem refused_command_has_programmed_nothing (c : Z) (s : state F) :
  refused (fst (bootloader_step c s)) = true ->
  untouched s (snd (bootloader_step c s)).
Proof.
  apply (step_of_wp c s _ _
           (fun r s' => refused r = true -> untouched s s')
           (command_refused c s));
    intros s1 H Hr; try discriminate; unfold untouched in *; st_simpl;
    exact H.
Qed.

(** ** The commands that only ask *)

Lemma command_quiet c : In c query_bytes -> @quiet F (command c).
Proof.
  revert c.
  apply (command_elim (fun c m => In c query_bytes -> @quiet F m));
    intros;
    first [ apply do_get_sync_quiet | apply do_get_device_quiet
          | apply do_get_crc_quiet | apply do_get_otp_quiet
          | apply do_get_sn_quiet | apply do_get_chip_quiet
          | apply do_get_chip_des_quiet | apply do_debug_quiet
          | apply do_check_crc_quiet | apply do_check_key_quiet
          | apply goto_quiet
          | exfalso;
            match goal with
            | H : In _ query_bytes |- _ =>
                cbn in H; intuition discriminate
            end ].
Qed.

(** X16: the commands that only ask - GET_SYNC, GET_DEVICE, GET_CRC,
    GET_OTP, GET_SN, GET_CHIP, GET_CHIP_DES, DEBUG, CHECK_CRC and
    CHECK_KEY - change nothing but the script, the trace and the wait
    timer, whatever they answer: the flash, [address], [first_word], the
    header fields, the key state and both buffers are as before, and
    [zero_key] is not called. *)
Theorem queries_change_nothing (c : Z) (s : state F) :
  In c query_bytes ->
  same_core s (snd (bootloader_step c s)) /\
  iv (snd (bootloader_step c s)) = iv s.
Proof.
  intros Hc.
  assert (Hiv : wp (command c) (fun _ s' => iv s' = iv s)
                   (fun _ s' => iv s' = iv s) s).
  { revert c Hc.
    apply (command_elim (fun c m =>
      In c query_bytes ->
      wp m (fun _ s' => iv s' = iv s) (fun _ s' => iv s' = iv s) s));
      intros;
      try (exfalso;
           match goal with
           | H : In _ query_bytes |- _ => cbn in H; intuition discriminate
           end);
      wp_run; try (not_wp; st_simpl; reflexivity).
    wp_loop (fun s' : state F => iv s' = iv s); wp_run; st_simpl;
      congruence. }
  assert (Hboth : wp (command c)
            (fun _ s' => same_core s s' /\ iv s' = iv s)
            (fun _ s' => same_core s s' /\ iv s' = iv s) s).
  { pose proof (command_quiet c Hc s) as H1.
    unfold wp in *. destruct (command c s) as [[a|l] s']; auto. }
  apply (step_of_wp c s _ _
           (fun _ s' => same_core s s' /\ iv s' = iv s) Hboth);
    intros s1 [H Hi]; (split; [| st_simpl; exact Hi]);
    unfold same_core in *; st_simpl;
    rewrite ?zero_key_calls_app; cbn [zero_key_calls];
    rewrite ?Nat.add_0_r; exact H.
Qed.

(** ** Before the first erase *)

Lemma wp_for_loop_zero n i step body Q E (s : state F) :
  n = O -> Q tt s -> wp (for_loop n i step body) Q E s.
Proof. intros -> H. exact H. Qed.

Section BeforeErase.

Hypothesis Hfw0 : 0 < fw_size board_info.
Hypothesis Hfw1 : fw_size board_info + 256 <= 2 ^ 32.

Ltac fresh_leaf :=
  not_wp; unfold before_erase in *; st_simpl;
  first [ tauto | intuition congruence ].

Lemma length_byte_zero (s : state F) c r :
  address s = fw_size board_info ->
  cin_result (rx s) c r -> (c <? 0) = false ->
  (u32 (address s + c) >? fw_size board_info) = false ->
  c = 0.
Proof.
  intros Ha Hc Hn Hs. apply cin_result_range in Hc.
  rewrite u32_small in Hs by lia. lia.
Qed.

Lemma do_prog_multi_before_erase (s : state F) :
  before_erase s ->
  wp do_prog_multi (fun _ s' => before_erase s')
     (fun _ s' => before_erase s') s.
Proof.
  intros Hb. wp_run; try fresh_leaf.
  assert (c = 0).
  { destruct Hb as [Ha _].
    eapply length_byte_zero; eauto. }
  subst c.
  wp_loop (fun s' : state F => before_erase s'); [exact Hb | | ].
  - wp_run; fresh_leaf.
  - wp_run; try fresh_leaf.
    all: try (exfalso; unfold before_erase in *; st_simpl;
              match goal with
              | H : (address _ =? 0) = true |- _ => apply Z.eqb_eq in H
              end; lia).
    apply wp_for_loop_zero; [reflexivity | fresh_leaf].
Qed.

Lemma do_prog_multi_encrypted_before_erase (s : state F) :
  before_erase s ->
  wp do_prog_multi_encrypted (fun _ s' => before_erase s')
     (fun _ s' => before_erase s') s.
Proof.
  intros Hb. wp_run; try fresh_leaf.
  assert (c = 0).
  { destruct Hb as [Ha _].
    eapply length_byte_zero; eauto. }
  subst c.
  wp_loop (fun s' : state F => before_erase s'); [exact Hb | | ].
  - wp_run; fresh_leaf.
  - wp_run; try fresh_leaf.
    apply wp_for_loop_zero; [reflexivity |].
    wp_run; try fresh_leaf.
    all: try (exfalso; unfold before_erase in *; st_simpl;
              match goal with
              | H : (address _ =? 0) = true |- _ => apply Z.eqb_eq in H
              end; lia).
    apply wp_for_loop_zero; [reflexivity | fresh_leaf].
Qed.

Lemma command_before_erase c (s : state F) :
  before_erase s ->
  wp (command c)
     (fun _ s' => c = PROTO_CHIP_ERASE \/ before_erase s')
     (fun l s' => (c = PROTO_CHIP_ERASE /\ l = cmd_fail) \/ before_erase s')
     s.
Proof.
  intros Hb. revert c.
  apply (command_elim (fun c m =>
    wp m (fun _ s' => c = PROTO_CHIP_ERASE \/ before_erase s')
       (fun l s' => (c = PROTO_CHIP_ERASE /\ l = cmd_fail)
                    \/ before_erase s') s)); intros;
    try (eapply wp_mono;
         [ first [ apply do_prog_multi_before_erase; exact Hb
                 | apply do_prog_multi_encrypted_before_erase; exact Hb ]
         | cbv beta; auto | cbv beta; auto ]).
  all: wp_run; try (not_wp; right; fresh_leaf).
  - wp_loop (fun s' : state F => before_erase s');
      wp_run; try right; fresh_leaf.
  - wp_loop (fun _ : state F => True); wp_run; auto.
  - wp_loop (fun s' : state F => before_erase s');
      wp_run; try right; fresh_leaf.
Qed.

Lemma step_before_erase c (s : state F) :
  before_erase s ->
  erase_ran c (fst (bootloader_step c s)) = false ->
  before_erase (snd (bootloader_step c s)).
Proof.
  intros Hb.
  apply (step_of_wp c s _ _
           (fun r s' => erase_ran c r = false -> before_erase s')
           (command_before_erase c s Hb));
    intros s1 H Hr; unfold erase_ran, before_erase in *; st_simpl;
    (destruct H as [H | H]; [| exact H]);
    match goal with
    | G : _ /\ _ |- _ => destruct G as [-> Hl]; try discriminate Hl
    | G : c = _ |- _ => subst c
    end;
    rewrite Z.eqb_refl in Hr; discriminate.
Qed.

Lemma do_prog_multi_needs_erase (s : state F) len rest :
  before_erase s -> rx s = Some len :: rest -> u8 len <> 0 ->
  wp do_prog_multi (fun _ _ => False) (fun l _ => l = cmd_bad) s.
Proof.
  intros [Ha _] Hrx Hlen. unfold do_prog_multi.
  apply wp_bind. eapply wp_cin_wait_some; [exact Hrx |].
  wp_run; try reflexivity.
  all: exfalso; st_simpl;
    pose proof (Z.mod_pos_bound len 256 ltac:(lia)); unfold u8 in *;
    match goal with
    | H : (u32 _ >? _) = false |- _ => rewrite u32_small in H by lia
    end; lia.
Qed.

Lemma do_prog_multi_encrypted_needs_erase (s : state F) len rest :
  before_erase s -> rx s = Some len :: rest -> u8 len <> 0 ->
  wp do_prog_multi_encrypted (fun _ _ => False) (fun l _ => l = cmd_bad) s.
Proof.
  intros [Ha _] Hrx Hlen. unfold do_prog_multi_encrypted.
  apply wp_bind. eapply wp_cin_wait_some; [exact Hrx |].
  wp_run; try reflexivity.
  all: exfalso; st_simpl;
    pose proof (Z.mod_pos_bound len 256 ltac:(lia)); unfold u8 in *;
    match goal with
    | H : (u32 _ >? _) = false |- _ => rewrite u32_small in H by lia
    end; lia.
Qed.

(** X17: nothing can be uploaded before the chip has been erased: until a
    CHIP_ERASE of the session has got to its erase loop (was answered OK
    or FAILED), [address] stays at the end of the application region and
    no first word is held back, so that every PROG_MULTI and
    PROG_MULTI_ENCRYPTED with a length byte other than zero is answered
    INVALID. *)
Theorem nothing_is_programmed_before_an_erase
  (t : Z) (f : F) script fuel h e s :
  bootloader_loop fuel (bootloader_init t f script) = (h, e, s) ->
  forallb (fun cr => negb (erase_ran (fst cr) (snd cr))) h = true ->
  before_erase s /\
  forall c len rest,
    c = PROTO_PROG_MULTI \/
    (c = PROTO_PROG_MULTI_ENCRYPTED /\ ENABLE_ENCRYPTION board_info = true) ->
    u8 len <> 0 ->
    fst (bootloader_step c (set_rx (Some len :: rest) s)) = INVALID.
Proof.
  intros Hrun Hh.
  assert (Hb : before_erase s).
  { apply (bootloader_loop_inv before_erase
             (fun c r => negb (erase_ran c r))) with (3 := Hrun).
    - intros s0 t0 r0 H. exact H.
    - intros c s0 H Hg. apply step_before_erase; [exact H |].
      apply negb_true_iff, Hg.
    - split; reflexivity.
    - exact Hh. }
  split; [exact Hb |].
  intros c len rest [-> | [-> Henc]] Hlen.
  - pose proof (do_prog_multi_needs_erase (set_rx (Some len :: rest) s)
                  len rest Hb eq_refl Hlen) as Hwp.
    change do_prog_multi with (command PROTO_PROG_MULTI) in Hwp.
    apply (step_of_wp PROTO_PROG_MULTI _ _ _ (fun r _ => r = INVALID) Hwp);
      intros s1 H; try discriminate; try contradiction; reflexivity.
  - pose proof (do_prog_multi_encrypted_needs_erase
                  (set_rx (Some len :: rest) s) len rest Hb eq_refl Hlen)
      as Hwp.
    rewrite <- (command_prog_multi_encrypted Henc) in Hwp.
    apply (step_of_wp PROTO_PROG_MULTI_ENCRYPTED _ _ _
             (fun r _ => r = INVALID) Hwp);
      intros s1 H; try discriminate; try contradiction; reflexivity.
Qed.

End BeforeErase.

(** ** Where the session writes *)

Section Region.

Variable writes : F -> list Z.
Context {J : Journal writes}.
Variable f0 : F.

Hypothesis Hfw0 : 0 < fw_size board_info.
Hypothesis Hfw1 : fw_size board_info + 256 <= 2 ^ 32.
Hypothesis Hdelay :
  forall a, BOOT_DELAY_ADDRESS board_info = Some a ->
            0 <= a < fw_size board_info.

Lemma writes_erase_sectors fuel :
  forall i (f : F), writes (erase_sectors fuel i f) = writes f.
Proof.
  induction fuel as [|fuel IH]; intros i f; [reflexivity |].
  cbn [erase_sectors].
  destruct (flash_func_sector_size board_info i =? 0); auto.
  rewrite IH. apply journal_erase.
Qed.

Lemma writes_zero_key words :
  forall p (f : F), writes (zero_key_from words p f) = writes f.
Proof.
  induction words as [|words IH]; intros p f; [reflexivity |].
  cbn [zero_key_from]. rewrite IH.
  destruct (negb (phy_read_word p f =? 0)); auto.
  apply journal_phy_write.
Qed.

Lemma in_region_snoc ws a :
  in_region ws -> 0 <= a < fw_size board_info -> in_region (ws ++ [a]).
Proof.
  intros H Ha. apply Forall_app. split; [exact H |].
  constructor; [exact Ha | constructor].
Qed.

Ltac region_leaf :=
  not_wp; unfold writes_inside in *; st_simpl;
  rewrite ?writes_erase_sectors, ?writes_zero_key;
  repeat match goal with
         | H : _ /\ _ |- _ => destruct H
         | H : exists _, _ |- _ => destruct H
         end;
  first [ solve [split; [lia | eauto]] | solve [eauto] ].

Lemma quiet_region m (s : state F) :
  quiet m -> writes_inside writes f0 s ->
  wp m (fun _ s' => writes_inside writes f0 s')
     (fun _ s' => writes_inside writes f0 s') s.
Proof.
  intros H Hg. eapply wp_mono; [apply H | |]; cbv beta;
    unfold same_core, writes_inside in *; intros ? s' Hc;
    destruct Hc as (-> & _ & _ & _ & -> & _); exact Hg.
Qed.

Lemma program_loop_region count start (s1 : state F) E :
  0 <= address s1 ->
  address s1 + 4 * Z.of_nat count <= fw_size board_info ->
  (exists ws, writes (flash s1) = writes f0 ++ ws /\ in_region ws) ->
  (forall s', writes_inside writes f0 s' -> E cmd_fail s') ->
  wp (for_loop count start 1 program_word)
     (fun _ s' => writes_inside writes f0 s') E s1.
Proof.
  intros Ha Hend Hw HE.
  wp_loop_idx (fun (j : nat) (s' : state F) =>
      address s' = address s1 + 4 * Z.of_nat j /\
      exists ws, writes (flash s') = writes f0 ++ ws /\ in_region ws).
  - split; [lia | exact Hw].
  - match goal with
    | H : _ /\ _ |- _ => destruct H as (Haj & ws & Hws & Hin)
    end.
    assert (Hnew : exists ws', writes (flash_func_write_word (address s')
                (buf_w (start + Z.of_nat j * 1) (flash_buffer s')) (flash s'))
              = writes f0 ++ ws' /\ in_region ws').
    { exists (ws ++ [address s']). rewrite journal_write, Hws, app_assoc.
      split; [reflexivity |]. apply in_region_snoc; [exact Hin | lia]. }
    wp_run.
    + apply HE. unfold writes_inside. st_simpl. split; [lia | exact Hnew].
    + st_simpl. split; [| exact Hnew].
      rewrite Haj. rewrite u32_small by lia. lia.
  - match goal with
    | H : _ /\ _ |- _ => destruct H as (Haj & Hws)
    end.
    unfold writes_inside. split; [lia | exact Hws].
Qed.

Lemma do_chip_erase_region (s : state F) :
  writes_inside writes f0 s ->
  wp do_chip_erase (fun _ s' => writes_inside writes f0 s')
     (fun _ s' => writes_inside writes f0 s') s.
Proof.
  intros Hg. wp_run; try region_leaf.
  wp_loop_idx (fun (j : nat) (s' : state F) =>
      address s' = 4 * Z.of_nat j /\
      exists ws, writes (flash s') = writes f0 ++ ws /\ in_region ws).
  - region_leaf.
  - assert (Hfw : 0 <= fw_size board_info) by lia.
    match goal with
    | H : (_ < _)%nat |- _ => pose proof (words_below_bound _ _ Hfw H)
    end.
    match goal with
    | H : _ /\ _ |- _ => destruct H as (Ha & Hws)
    end.
    wp_run; unfold writes_inside; st_simpl.
    + split; [lia | exact Hws].
    + split; [| exact Hws]. rewrite Ha, u32_small by lia. lia.
  - wp_run. region_leaf.
Qed.

Ltac length_facts c :=
  match goal with
  | H : cin_result _ c _ |- _ => pose proof (cin_result_range _ _ _ H) as Hr
  end;
  match goal with
  | H : negb (Z.rem c 4 =? 0) = false |- _ =>
      apply negb_false_iff, Z.eqb_eq in H;
      assert (Hq : c = 4 * (c ÷ 4)) by (pose proof (Z.quot_rem' c 4); lia)
  end.

Lemma do_prog_multi_region (s : state F) :
  writes_inside writes f0 s ->
  wp do_prog_multi (fun _ s' => writes_inside writes f0 s')
     (fun _ s' => writes_inside writes f0 s') s.
Proof.
  intros Hg. wp_run; try region_leaf.
  length_facts c.
  assert (Hsum : address s + c <= fw_size board_info).
  { destruct Hg as (Hga & _). st_simpl.
    match goal with
    | H : (u32 _ >? _) = false |- _ => rewrite u32_small in H by lia
    end. lia. }
  wp_loop (fun s' : state F =>
             writes_inside writes f0 s' /\ address s' = address s).
  - split; [region_leaf | reflexivity].
  - wp_run; [region_leaf | split; [region_leaf | st_simpl; tauto]].
  - match goal with
    | H : writes_inside _ _ _ /\ _ |- _ => destruct H as ((Ga & Gw) & Hsame)
    end.
    wp_run; try (unfold writes_inside; st_simpl; tauto).
    all: apply program_loop_region; st_simpl;
      rewrite ?writes_zero_key; auto; lia.
Qed.

Lemma do_set_delay_region a (s : state F) :
  0 <= a < fw_size board_info ->
  writes_inside writes f0 s ->
  wp (do_set_delay a) (fun _ s' => writes_inside writes f0 s')
     (fun _ s' => writes_inside writes f0 s') s.
Proof.
  intros Ha Hg. wp_run; try region_leaf.
  all: unfold writes_inside in *; st_simpl;
    destruct Hg as (Hga & ws & Hws & Hin);
    (split; [exact Hga |]);
    exists (ws ++ [a]); rewrite journal_write, Hws, app_assoc;
    (split; [reflexivity | apply in_region_snoc; assumption]).
Qed.

Lemma do_boot_region (s : state F) :
  writes_inside writes f0 s ->
  wp do_boot (fun _ s' => writes_inside writes f0 s')
     (fun _ s' => writes_inside writes f0 s') s.
Proof.
  intros Hg. wp_run; try region_leaf.
  all: unfold writes_inside in *; st_simpl;
    destruct Hg as (Hga & ws & Hws & Hin);
    (split; [exact Hga |]);
    exists (ws ++ [0]); rewrite journal_write, Hws, app_assoc;
    (split; [reflexivity | apply in_region_snoc; [assumption | lia]]).
Qed.

Lemma decrypt_block_region i a (s1 : state F)
  (Q : unit -> state F -> Prop) E :
  writes_inside writes f0 s1 -> address s1 = a ->
  (forall s', writes_inside writes f0 s' /\ address s' = a -> Q tt s') ->
  wp (decrypt_block i) Q E s1.
Proof.
  intros H Ha HQ. wp_run.
  wp_loop (fun s' : state F => writes_inside writes f0 s' /\ address s' = a);
    [ split; [region_leaf | st_simpl; exact Ha]
    | wp_run; split; [region_leaf | st_simpl; tauto]
    | apply HQ; assumption ].
Qed.

Lemma do_prog_multi_encrypted_region (s : state F) :
  writes_inside writes f0 s ->
  wp do_prog_multi_encrypted (fun _ s' => writes_inside writes f0 s')
     (fun _ s' => writes_inside writes f0 s') s.
Proof.
  intros Hg. wp_run; try region_leaf.
  length_facts c.
  assert (Hsum : address s + c <= fw_size board_info).
  { destruct Hg as (Hga & _). st_simpl.
    match goal with
    | H : (u32 _ >? _) = false |- _ => rewrite u32_small in H by lia
    end. lia. }
  wp_loop (fun s' : state F =>
             writes_inside writes f0 s' /\ address s' = address s).
  - split; [region_leaf | reflexivity].
  - wp_run; [region_leaf | split; [region_leaf | st_simpl; tauto]].
  - wp_run; try region_leaf.
    wp_loop (fun s' : state F =>
               writes_inside writes f0 s' /\ address s' = address s).
    + st_simpl. assumption.
    + match goal with
      | H : writes_inside _ _ _ /\ _ |- _ => destruct H as (Hg' & Hsame)
      end.
      apply (decrypt_block_region _ (address s)); auto.
    + match goal with
      | H : writes_inside _ _ _ /\ _ |- _ =>
          destruct H as ((Ga & Gw) & Hsame)
      end.
      wp_run; try (not_wp; unfold writes_inside; st_simpl; tauto).
      all: apply program_loop_region; st_simpl; auto; lia.
Qed.

Lemma command_region c (s : state F) :
  writes_inside writes f0 s ->
  wp (command c) (fun _ s' => writes_inside writes f0 s')
     (fun _ s' => writes_inside writes f0 s') s.
Proof.
  intros Hg. revert c.
  apply (command_elim (fun c m =>
    wp m (fun _ s' => writes_inside writes f0 s')
       (fun _ s' => writes_inside writes f0 s') s)); intros;
    first [ apply do_prog_multi_region; exact Hg
          | apply do_chip_erase_region; exact Hg
          | apply do_prog_multi_encrypted_region; exact Hg
          | apply do_boot_region; exact Hg
          | apply do_set_delay_region; [apply Hdelay; assumption | exact Hg]
          | apply quiet_region;
            [ first [ apply do_get_sync_quiet
                    | apply do_get_device_quiet
                    | apply do_get_crc_quiet | apply do_get_otp_quiet
                    | apply do_get_sn_quiet | apply do_get_chip_quiet
                    | apply do_get_chip_des_quiet
                    | apply do_debug_quiet
                    | apply do_set_iv_quiet
                    | apply do_check_crc_quiet
                    | apply do_check_key_quiet | apply goto_quiet ]
            | exact Hg ] ].
Qed.

Lemma step_region c (s : state F) :
  writes_inside writes f0 s ->
  writes_inside writes f0 (snd (bootloader_step c s)).
Proof.
  intros Hg.
  apply (step_of_wp c s _ _ (fun _ s' => writes_inside writes f0 s')
           (command_region c s Hg));
    intros s1 H; unfold writes_inside in *; st_simpl; exact H.
Qed.

(** X18: the bootloader never writes outside the application region:
    on a board whose region is not empty and whose boot-delay word lies
    inside it, and on a flash driver that keeps a journal [writes] of the
    offsets [flash_func_write_word] was called with, every offset that
    any run of a session adds to the journal is at least 0 and below
    [fw_size], and [address] never leaves [0, fw_size]. *)
Theorem writes_stay_inside_the_application_region
  (t : Z) script fuel h e s :
  bootloader_loop fuel (bootloader_init t f0 script) = (h, e, s) ->
  0 <= address s <= fw_size board_info /\
  exists ws, writes (flash s) = writes f0 ++ ws /\ in_region ws.
Proof.
  intros Hrun.
  apply (bootloader_loop_inv (writes_inside writes f0)
           (fun _ _ => true)) with (3 := Hrun).
  - intros s0 t0 r0 H. exact H.
  - intros c s0 H _. apply step_region, H.
  - unfold writes_inside, bootloader_init. st_simpl.
    split; [lia |]. exists []. rewrite app_nil_r.
    split; [reflexivity | constructor].
  - apply (bootloader_loop_all _ _ _ _ _ Hrun).
Qed.

End Region.

(** ** The key, once zeroed *)

(** [validate_key] looks at the four key words and at nothing else. *)
Lemma validate_key_words (f : F) :
  validate_key f
  = if (key_w 0 f =? 0) && (key_w 1 f =? 0) && (key_w 2 f =? 0)
       && (key_w 3 f =? 0)
    then 1 else 0.
Proof.
  unfold validate_key, key_w. cbn [validate_key_from].
  replace (key_address board_info + 4 * 0) with (key_address board_info)
    by lia.
  replace (key_address board_info + 4 + 4) with (key_address board_info + 4 * 2)
    by lia.
  replace (key_address board_info + 4 * 2 + 4)
    with (key_address board_info + 4 * 3) by lia.
  replace (key_address board_info + 4) with (key_address board_info + 4 * 1)
    by lia.
  destruct (phy_read_word (key_address board_info) f =? 0);
    destruct (phy_read_word (key_address board_info + 4 * 1) f =? 0);
    destruct (phy_read_word (key_address board_info + 4 * 2) f =? 0);
    destruct (phy_read_word (key_address board_info + 4 * 3) f =? 0);
    reflexivity.
Qed.

(** X19: [validate_key] returns 1 exactly when the four words of the key
    all read zero, and 0 otherwise: the state it reports as "key invalid"
    is the all-zero key. *)
Theorem validate_key_is_1_exactly_for_the_zero_key (f : F) :
  (validate_key f = 1 <-> forall i, 0 <= i < 4 -> key_w i f = 0) /\
  (validate_key f = 1 \/ validate_key f = 0).
Proof.
  rewrite validate_key_words. split.
  - split.
    + intros H i Hi.
      destruct (key_w 0 f =? 0) eqn:E0; cbn [andb] in H; try discriminate.
      destruct (key_w 1 f =? 0) eqn:E1; cbn [andb] in H; try discriminate.
      destruct (key_w 2 f =? 0) eqn:E2; cbn [andb] in H; try discriminate.
      destruct (key_w 3 f =? 0) eqn:E3; cbn [andb] in H; try discriminate.
      apply Z.eqb_eq in E0, E1, E2, E3.
      assert (Hc : i = 0 \/ i = 1 \/ i = 2 \/ i = 3) by lia.
      destruct Hc as [-> | [-> | [-> | ->]]]; assumption.
    + intros H.
      rewrite (H 0), (H 1), (H 2), (H 3) by lia. reflexivity.
  - destruct ((key_w 0 f =? 0) && (key_w 1 f =? 0) && (key_w 2 f =? 0)
              && (key_w 3 f =? 0)); auto.
Qed.

Section KeyVoid.

Context {KI : KeyIsolated} {KW : KeyWritable}.

Lemma zero_key_from_zeroes words :
  forall a (f : F) k,
    (k < words)%nat ->
    phy_read_word (a + 4 * Z.of_nat k) (zero_key_from words a f) = 0.
Proof.
  induction words as [|words IH]; intros a f k Hk; [lia |].
  cbn [zero_key_from]. destruct k as [|k].
  - replace (a + 4 * Z.of_nat 0) with a by lia.
    apply zero_key_keeps_zero.
    destruct (phy_read_word a f =? 0) eqn:E; cbn [negb].
    + apply Z.eqb_eq, E.
    + apply phy_write_zero.
  - replace (a + 4 * Z.of_nat (S k)) with (a + 4 + 4 * Z.of_nat k) by lia.
    apply IH. lia.
Qed.

Lemma zero_key_voids (f : F) :
  validate_key (zero_key_from 4 (key_address board_info) f) = 1.
Proof.
  rewrite validate_key_words. unfold key_w.
  rewrite (zero_key_from_zeroes 4 _ f 0), (zero_key_from_zeroes 4 _ f 1),
    (zero_key_from_zeroes 4 _ f 2), (zero_key_from_zeroes 4 _ f 3) by lia.
  reflexivity.
Qed.

(** X20: [zero_key] voids the key: on a driver that stores a zero that is
    written, and whose writes touch one word, [validate_key] returns 1
    after [zero_key], whatever the key was. *)
Theorem zero_key_makes_the_key_invalid (s : state F) :
  validate_key (flash (snd (zero_key s))) = 1.
Proof.
  unfold zero_key, modify. st_simpl. apply zero_key_voids.
Qed.

Lemma validate_key_same_words (f f' : F) :
  (forall i, 0 <= i < 4 -> key_w i f' = key_w i f) ->
  validate_key f' = validate_key f.
Proof.
  intros H. rewrite !validate_key_words.
  rewrite (H 0), (H 1), (H 2), (H 3) by lia. reflexivity.
Qed.

Lemma step_void c (s : state F) :
  void_if_zeroed s -> void_if_zeroed (snd (bootloader_step c s)).
Proof.
  intros Hv.
  assert (Hwp : wp (command c) (fun _ s' => void_if_zeroed s')
                   (fun _ s' => void_if_zeroed s') s).
  { eapply wp_mono; [apply (command_key c s) | |]; cbv beta;
      intros ? s' H; unfold key_post in H;
      repeat match type of H with
             | (if ?b then _ else _) => destruct b
             end;
      unfold key_same, key_is, void_if_zeroed in *;
      destruct H as [Hc Hk].
    all: try (right; rewrite (validate_key_same_words _ _ Hk);
              apply zero_key_voids).
    all: destruct Hv as [Hz | Hv];
      [ left; lia
      | right; rewrite (validate_key_same_words _ _ Hk); exact Hv ]. }
  apply (step_of_wp c s _ _ (fun _ s' => void_if_zeroed s') Hwp);
    intros s1 H; unfold void_if_zeroed in *; st_simpl;
    rewrite ?zero_key_calls_app; cbn [zero_key_calls];
    rewrite ?Nat.add_0_r; exact H.
Qed.

(** X21: an unencrypted upload voids the key for good: on a driver that
    keeps the key words out of the reach of the application-region
    operations, if [zero_key] was called in a session - as it is in every
    PROG_MULTI received whole at address 0 - then at the end of any run
    [validate_key] returns 1 on the flash, so that the next session
    starts with the key state "invalid". *)
Theorem a_plain_upload_voids_the_key
  (t t' : Z) (f : F) script script' fuel h e s :
  ENABLE_ENCRYPTION board_info = true ->
  bootloader_loop fuel (bootloader_init t f script) = (h, e, s) ->
  zero_key_calls (trace s) <> O ->
  validate_key (flash s) = 1 /\
  key_state (bootloader_init t' (flash s) script') = 1.
Proof.
  intros Henc Hrun Hz.
  assert (Hv : void_if_zeroed s).
  { apply (bootloader_loop_inv void_if_zeroed (fun _ _ => true))
      with (3 := Hrun).
    - intros s0 t0 r0 H. unfold void_if_zeroed in *. st_simpl.
      rewrite zero_key_calls_app. cbn [zero_key_calls].
      rewrite Nat.add_0_r. exact H.
    - intros c s0 H _. apply step_void, H.
    - left. reflexivity.
    - apply (bootloader_loop_all _ _ _ _ _ Hrun). }
  destruct Hv as [Hv | Hv]; [contradiction |].
  split; [exact Hv |].
  unfold bootloader_init. st_simpl. rewrite Henc. exact Hv.
Qed.

End KeyVoid.

(** ** A session with a void key *)

Lemma do_prog_multi_encrypted_void (s : state F) :
  key_state s <> 0 ->
  wp do_prog_multi_encrypted (fun _ _ => False)
     (fun l _ => l = cmd_bad \/ l = bad_key) s.
Proof.
  intros Hk. wp_run; auto.
  wp_loop (fun s' : state F => key_state s' = key_state s);
    wp_run; st_simpl; auto.
  all: exfalso;
    match goal with
    | H : negb (key_state _ =? 0) = false |- _ =>
        apply negb_false_iff, Z.eqb_eq in H; st_simpl; congruence
    end.
Qed.

(** X22: with a void key nothing is programmed through the encrypted
    path: in a session entered with encryption enabled and a key that
    [validate_key] reports invalid, every PROG_MULTI_ENCRYPTED, at any
    point of any run, is answered INVALID or BAD_KEY, and leaves the
    flash, [address], [first_word] and the header fields as they were. *)
Theorem void_key_blocks_encrypted_programming
  (t : Z) (f : F) script fuel h e s rest :
  ENABLE_ENCRYPTION board_info = true ->
  validate_key f <> 0 ->
  bootloader_loop fuel (bootloader_init t f script) = (h, e, s) ->
  (fst (bootloader_step PROTO_PROG_MULTI_ENCRYPTED (set_rx rest s)) = INVALID
   \/
   fst (bootloader_step PROTO_PROG_MULTI_ENCRYPTED (set_rx rest s)) = BAD_KEY)
  /\
  untouched s (snd (bootloader_step PROTO_PROG_MULTI_ENCRYPTED
                      (set_rx rest s))).
Proof.
  intros Henc Hkey Hrun.
  assert (Hk : key_state s = validate_key f).
  { apply (bootloader_loop_inv
             (fun s => key_state s = validate_key f)
             (fun _ _ => true)) with (3 := Hrun).
    - intros s0 t0 r0 H. exact H.
    - intros c s0 H _. destruct (step_frame c s0) as (_ & Hks & _).
      congruence.
    - unfold bootloader_init. st_simpl. now rewrite Henc.
    - apply (bootloader_loop_all _ _ _ _ _ Hrun). }
  assert (Hr : fst (bootloader_step PROTO_PROG_MULTI_ENCRYPTED
                      (set_rx rest s)) = INVALID \/
               fst (bootloader_step PROTO_PROG_MULTI_ENCRYPTED
                      (set_rx rest s)) = BAD_KEY).
  { assert (Hwp : wp do_prog_multi_encrypted (fun _ _ => False)
                     (fun l _ => l = cmd_bad \/ l = bad_key)
                     (set_rx rest s)).
    { apply do_prog_multi_encrypted_void. st_simpl. congruence. }
    rewrite <- (command_prog_multi_encrypted Henc) in Hwp.
    apply (step_of_wp PROTO_PROG_MULTI_ENCRYPTED _ _ _
             (fun r _ => r = INVALID \/ r = BAD_KEY) Hwp);
      intros s1 H; try contradiction; auto;
      destruct H as [H | H]; discriminate. }
  split; [exact Hr |].
  pose proof (command_refused PROTO_PROG_MULTI_ENCRYPTED (set_rx rest s))
    as Hwp.
  assert (Hu : untouched (set_rx rest s)
                 (snd (bootloader_step PROTO_PROG_MULTI_ENCRYPTED
                         (set_rx rest s)))).
  { apply (step_of_wp PROTO_PROG_MULTI_ENCRYPTED _ _ _
             (fun r s' => refused r = true -> untouched (set_rx rest s) s')
             Hwp).
    all: try (intros s1 H Hf; try discriminate; unfold untouched in *;
              st_simpl; exact H).
    destruct Hr as [-> | ->]; reflexivity. }
  unfold untouched in *. st_simpl. exact Hu.
Qed.

(** ** Leaving for the application *)

Lemma do_boot_leaves (s : state F) :
  wp do_boot (fun _ _ => True)
     (fun l s' =>
        l = leave ->
        (first_word s = ERASED /\ flash s' = flash s) \/
        (first_word s <> ERASED /\
         flash s' = flash_func_write_word 0 (first_word s) (flash s) /\
         flash_func_read_word 0 (flash s') = first_word s)) s.
Proof.
  wp_run; st_simpl; try discriminate; intros _.
  - right.
    repeat match goal with
           | H : negb (_ =? _) = true |- _ =>
               apply negb_true_iff, Z.eqb_neq in H
           | H : negb (_ =? _) = false |- _ =>
               apply negb_false_iff, Z.eqb_eq in H
           end.
    auto.
  - left.
    match goal with
    | H : negb (_ =? _) = false |- _ => apply negb_false_iff, Z.eqb_eq in H
    end.
    auto.
Qed.

Lemma do_chip_erase_word0 (s : state F) :
  0 < fw_size board_info <= 2 ^ 32 - 4 ->
  wp do_chip_erase
     (fun _ s' => flash_func_read_word 0 (flash s') = ERASED)
     (fun _ _ => True) s.
Proof.
  intros Hfw. wp_run; auto.
  wp_loop_idx (fun (j : nat) (s' : state F) =>
      address s' = 4 * Z.of_nat j /\
      ((0 < j)%nat -> flash_func_read_word 0 (flash s') = ERASED)).
  - st_simpl. split; [lia | intros; lia].
  - match goal with
    | H : _ /\ _ |- _ => destruct H as (Ha & Hz)
    end.
    assert (Hfw' : 0 <= fw_size board_info) by lia.
    match goal with
    | H : (_ < _)%nat |- _ => pose proof (words_below_bound _ _ Hfw' H)
    end.
    wp_run; st_simpl; auto.
    split; [rewrite Ha, u32_small by lia; lia |].
    intros _. destruct j as [|j]; [| apply Hz; lia].
    match goal with
    | H : negb (_ =? ERASED) = false |- _ =>
        apply negb_false_iff, Z.eqb_eq in H; rewrite Ha in H; exact H
    end.
  - wp_run. st_simpl.
    match goal with
    | H : _ /\ _ |- _ => destruct H as (Ha & Hz)
    end.
    apply Hz. unfold words_below.
    assert (1 <= (fw_size board_info + 3) / 4).
    { apply Z.div_le_lower_bound; lia. }
    lia.
Qed.

Section Jump.

Variable APP_LOAD_ADDRESS : Z.

Context {AM : AppMapped APP_LOAD_ADDRESS}.

Lemma jump_to_app_erased (f : F) :
  0 < fw_size board_info ->
  flash_func_read_word 0 f = ERASED ->
  jump_to_app APP_LOAD_ADDRESS f = None.
Proof.
  intros Hfw H. unfold jump_to_app, app_base.
  replace (APP_LOAD_ADDRESS + 4 * 0) with (APP_LOAD_ADDRESS + 0) by lia.
  rewrite (app_mapped _ 0) by lia. rewrite H. reflexivity.
Qed.

Section Gated.

Context {RL : Reliable}.
Hypothesis Hboard : board_ok.
Hypothesis Hfw : 0 < fw_size board_info.

(** X23: an upload that was not finished is never started: on a flash
    driver that behaves, a session entered with word 0 of the application
    region erased and left in any way but through an accepted BOOT leaves
    a flash on which [jump_to_app] returns without jumping; and so does a
    CHIP_ERASE answered OK, whatever was installed before. *)
Theorem no_jump_into_an_unfinished_upload
  (t : Z) (f : F) script fuel h e s :
  (flash_func_read_word 0 f = ERASED ->
   bootloader_loop fuel (bootloader_init t f script) = (h, e, s) ->
   e <> Returned_boot ->
   jump_to_app APP_LOAD_ADDRESS (flash s) = None) /\
  (forall s0 : state F,
     fst (bootloader_step PROTO_CHIP_ERASE s0) = OK ->
     jump_to_app APP_LOAD_ADDRESS
       (flash (snd (bootloader_step PROTO_CHIP_ERASE s0))) = None).
Proof.
  split.
  - intros Hf Hrun He. apply jump_to_app_erased; [exact Hfw |].
    assert (Hg : gate_closed s); [| apply Hg].
    apply (bootloader_loop_inv gate_closed
             (fun _ r => negb (is_booted r))) with (3 := Hrun).
    + intros s0 t0 r0 H. exact H.
    + intros c s0 H0 Hr. apply (step_gate Hboard); [exact H0 |].
      intros Hb. rewrite Hb in Hr. discriminate.
    + unfold gate_closed, bootloader_init. st_simpl.
      split; [exact Hf | split; [lia | reflexivity]].
    + apply (bootloader_loop_ending _ _ _ _ _ Hrun He).
  - intros s0. 
    assert (Hfw' : 0 < fw_size board_info <= 2 ^ 32 - 4)
      by (destruct Hboard as (_ & H1 & _); lia).
    pose proof (do_chip_erase_word0 s0 Hfw') as Hwp.
    change do_chip_erase with (command PROTO_CHIP_ERASE) in Hwp.
    apply (step_of_wp PROTO_CHIP_ERASE s0 _ _
             (fun r s' => r = OK ->
                jump_to_app APP_LOAD_ADDRESS (flash s') = None) Hwp);
      intros s1 H Hr; try discriminate.
    apply jump_to_app_erased; [exact Hfw |]. st_simpl. exact H.
Qed.

(** X24: what is started after BOOT: when BOOT is accepted with a first
    word held back, [jump_to_app] finds that word as the stack top, and
    it jumps - to the entry point the upload left at offset 4 - exactly
    when that entry point lies inside the application region. *)
Theorem accepted_boot_installs_the_first_word (s : state F) :
  4 < fw_size board_info ->
  first_word s <> ERASED ->
  fst (bootloader_step PROTO_BOOT s) = BOOTED ->
  jump_to_app APP_LOAD_ADDRESS (flash (snd (bootloader_step PROTO_BOOT s)))
  = if (APP_LOAD_ADDRESS <=? flash_func_read_word 4 (flash s))
       && (flash_func_read_word 4 (flash s)
           <? u32 (APP_LOAD_ADDRESS + fw_size board_info))
    then Some (first_word s, flash_func_read_word 4 (flash s))
    else None.
Proof.
  clear Hboard Hfw. intros Hfw4 Hne.
  pose proof (do_boot_leaves s) as Hwp.
  change do_boot with (command PROTO_BOOT) in Hwp.
  apply (step_of_wp PROTO_BOOT s _ _
    (fun r s' => r = BOOTED ->
       jump_to_app APP_LOAD_ADDRESS (flash s')
       = if (APP_LOAD_ADDRESS <=? flash_func_read_word 4 (flash s))
            && (flash_func_read_word 4 (flash s)
                <? u32 (APP_LOAD_ADDRESS + fw_size board_info))
         then Some (first_word s, flash_func_read_word 4 (flash s))
         else None) Hwp);
    intros s1 H Hr; try discriminate.
  destruct (H eq_refl) as [[He _] | (_ & Hfl & Hrd)]; [contradiction |].
  unfold jump_to_app, app_base.
  replace (APP_LOAD_ADDRESS + 4 * 0) with (APP_LOAD_ADDRESS + 0) by lia.
  replace (APP_LOAD_ADDRESS + 4 * 1) with (APP_LOAD_ADDRESS + 4) by lia.
  rewrite (app_mapped _ 0), (app_mapped _ 4) by lia. rewrite Hrd.
  rewrite Hfl, write_read_other by lia.
  destruct (Z.eqb_spec (first_word s) 0xffffffff) as [E|E];
    [contradiction |].
  destruct (Z.ltb_spec (flash_func_read_word 4 (flash s)) APP_LOAD_ADDRESS);
    destruct (Z.leb_spec APP_LOAD_ADDRESS
                (flash_func_read_word 4 (flash s))); try lia;
    cbn [andb]; [reflexivity |].
  destruct (Z.geb_spec (flash_func_read_word 4 (flash s))
              (u32 (APP_LOAD_ADDRESS + fw_size board_info)));
    destruct (Z.ltb_spec (flash_func_read_word 4 (flash s))
                (u32 (APP_LOAD_ADDRESS + fw_size board_info)));
    try lia; reflexivity.
Qed.

End Gated.

End Jump.

(** ** Words on the wire *)

Lemma land_255 x : Z.land x 255 = x mod 256.
Proof. change 255 with (Z.ones 8). rewrite Z.land_ones by lia. reflexivity. Qed.

Lemma u8_range x : 0 <= u8 x < 256.
Proof. unfold u8. apply Z.mod_pos_bound. lia. Qed.

Lemma u8_u8 x : u8 (u8 x) = u8 x.
Proof. unfold u8. apply Z.mod_mod. lia. Qed.

Lemma u8_small x : 0 <= x < 256 -> u8 x = x.
Proof. intros H. unfold u8. apply Z.mod_small, H. Qed.

Lemma word_bytes_range w : Forall (fun b => 0 <= b < 256) (word_bytes w).
Proof.
  unfold word_bytes. repeat constructor; rewrite land_255;
    apply Z.mod_pos_bound; lia.
Qed.

Lemma bytes_word_bytes w :
  0 <= w < 2 ^ 32 ->
  bytes_word (Z.land w 255) (Z.land (Z.shiftr w 8) 255)
             (Z.land (Z.shiftr w 16) 255) (Z.land (Z.shiftr w 24) 255) = w.
Proof.
  intros Hw. unfold bytes_word.
  rewrite !land_255, !Z.shiftr_div_pow2, !Z.shiftl_mul_pow2 by lia.
  change (2 ^ 8) with 256. change (2 ^ 16) with 65536.
  change (2 ^ 24) with 16777216. change (2 ^ 32) with 4294967296 in Hw.
  Z.div_mod_to_equations. lia.
Qed.

Lemma bytes_word_range b0 b1 b2 b3 :
  0 <= b0 < 256 -> 0 <= b1 < 256 -> 0 <= b2 < 256 -> 0 <= b3 < 256 ->
  0 <= bytes_word b0 b1 b2 b3 < 2 ^ 32.
Proof.
  intros H0 H1 H2 H3. unfold bytes_word.
  rewrite !Z.shiftl_mul_pow2 by lia.
  change (2 ^ 8) with 256. change (2 ^ 16) with 65536.
  change (2 ^ 24) with 16777216. change (2 ^ 32) with 4294967296.
  lia.
Qed.

Lemma word_bytes_word b0 b1 b2 b3 :
  0 <= b0 < 256 -> 0 <= b1 < 256 -> 0 <= b2 < 256 -> 0 <= b3 < 256 ->
  word_bytes (bytes_word b0 b1 b2 b3) = [b0; b1; b2; b3].
Proof.
  intros H0 H1 H2 H3. unfold word_bytes, bytes_word.
  rewrite !land_255, !Z.shiftr_div_pow2, !Z.shiftl_mul_pow2 by lia.
  change (2 ^ 8) with 256. change (2 ^ 16) with 65536.
  change (2 ^ 24) with 16777216.
  repeat f_equal; Z.div_mod_to_equations; lia.
Qed.

(** X25: a word goes over the wire least significant byte first and
    comes back whole: [cin_word] fed the four bytes that [cout_word]
    sends for a 32-bit word returns 0 and stores that word, taking just
    these four bytes from the script; and the four bytes sent are bytes. *)
Theorem cin_word_reads_what_cout_word_sends
  (w wp0 t : Z) (s s0 : state F) rest :
  0 <= w < 2 ^ 32 ->
  trace (snd (cout_word w s0)) = trace s0 ++ [EvCout (word_bytes w)] /\
  Forall (fun b => 0 <= b < 256) (word_bytes w) /\
  (rx s = map Some (word_bytes w) ++ rest ->
   fst (cin_word wp0 t s) = Val (0, w) /\
   rx (snd (cin_word wp0 t s)) = rest).
Proof.
  intros Hw. split; [reflexivity |]. split; [apply word_bytes_range |].
  intros Hrx.
  assert (Hwp : wp (cin_word wp0 t)
                   (fun r s' => r = (0, w) /\ rx s' = rest)
                   (fun _ _ => False) s).
  { unfold cin_word. cbn [word_bytes map app] in Hrx.
    apply wp_bind. eapply wp_cin_wait_some; [exact Hrx |].
    rewrite u8_small by (rewrite land_255; apply Z.mod_pos_bound; lia).
    destruct (Z.ltb_spec (Z.land w 255) 0) as [L|_];
      [rewrite land_255 in L; pose proof (Z.mod_pos_bound w 256); lia |].
    apply wp_bind. eapply wp_cin_wait_some; [reflexivity |].
    rewrite u8_small by (rewrite land_255; apply Z.mod_pos_bound; lia).
    destruct (Z.ltb_spec (Z.land (Z.shiftr w 8) 255) 0) as [L|_];
      [rewrite land_255 in L;
       pose proof (Z.mod_pos_bound (Z.shiftr w 8) 256); lia |].
    apply wp_bind. eapply wp_cin_wait_some; [reflexivity |].
    rewrite u8_small by (rewrite land_255; apply Z.mod_pos_bound; lia).
    destruct (Z.ltb_spec (Z.land (Z.shiftr w 16) 255) 0) as [L|_];
      [rewrite land_255 in L;
       pose proof (Z.mod_pos_bound (Z.shiftr w 16) 256); lia |].
    apply wp_bind. eapply wp_cin_wait_some; [reflexivity |].
    rewrite u8_small by (rewrite land_255; apply Z.mod_pos_bound; lia).
    destruct (Z.ltb_spec (Z.land (Z.shiftr w 24) 255) 0) as [L|_];
      [rewrite land_255 in L;
       pose proof (Z.mod_pos_bound (Z.shiftr w 24) 256); lia |].
    apply wp_ret. split; [| reflexivity].
    f_equal.
    rewrite !(land_255 (Z.land _ 255)), !land_255, !Z.mod_mod by lia.
    rewrite <- !land_255. apply bytes_word_bytes, Hw. }
  unfold wp in Hwp. destruct (cin_word wp0 t s) as [[r|l] s'];
    [| contradiction].
  destruct Hwp as [-> Hr]. split; [reflexivity | exact Hr].
Qed.

(** ** The checksum *)

Lemma lxor_range n a b :
  0 <= n -> 0 <= a < 2 ^ n -> 0 <= b < 2 ^ n -> 0 <= Z.lxor a b < 2 ^ n.
Proof.
  intros Hn Ha Hb. split; [apply Z.lxor_nonneg; lia |].
  destruct (Z.eq_dec (Z.lxor a b) 0) as [E|E].
  - rewrite E. apply Z.pow_pos_nonneg; lia.
  - assert (Hx : 0 < Z.lxor a b).
    { pose proof (proj2 (Z.lxor_nonneg a b)) as H. lia. }
    assert (Hn' : 0 < n).
    { destruct (Z.eq_dec n 0) as [-> | Hne]; [| lia].
      change (2 ^ 0) with 1 in *.
      assert (a = 0) by lia. assert (b = 0) by lia. subst.
      cbn in E. contradiction. }
    apply Z.log2_lt_pow2; [exact Hx |].
    pose proof (Z.log2_lxor a b ltac:(lia) ltac:(lia)) as Hl.
    assert (Hla : Z.log2 a < n).
    { destruct (Z.eq_dec a 0) as [-> | Hne]; [cbn; lia |].
      apply Z.log2_lt_pow2; lia. }
    assert (Hlb : Z.log2 b < n).
    { destruct (Z.eq_dec b 0) as [-> | Hne]; [cbn; lia |].
      apply Z.log2_lt_pow2; lia. }
    lia.
Qed.

Lemma crctab_range i : 0 <= i < 256 -> 0 <= crctab i < 2 ^ 32.
Proof.
  intros Hi.
  assert (Hall : forallb (fun n => (0 <=? crctab (Z.of_nat n))
                                   && (crctab (Z.of_nat n) <? 2 ^ 32))
                         (seq 0 256) = true) by (vm_compute; reflexivity).
  rewrite forallb_forall in Hall.
  specialize (Hall (Z.to_nat i)). rewrite Z2Nat.id in Hall by lia.
  assert (Hin : In (Z.to_nat i) (seq 0 256)) by (apply in_seq; lia).
  apply Hall in Hin. apply andb_true_iff in Hin as [H1 H2]. lia.
Qed.

Lemma crc32_byte_range state b :
  0 <= state < 2 ^ 32 -> 0 <= crc32_byte state b < 2 ^ 32.
Proof.
  intros Hs. unfold crc32_byte. apply lxor_range; [lia | |].
  - apply crctab_range. rewrite land_255. apply Z.mod_pos_bound. lia.
  - rewrite Z.shiftr_div_pow2 by lia. split.
    + apply Z.div_pos; lia.
    + apply Z.div_lt_upper_bound; lia.
Qed.

Lemma crc32_range src : forall state,
  0 <= state < 2 ^ 32 -> 0 <= crc32 src state < 2 ^ 32.
Proof.
  unfold crc32.
  induction src as [|b src IH]; intros state Hs; cbn [fold_left];
    [exact Hs |].
  apply IH, crc32_byte_range, Hs.
Qed.

Lemma crc32_byte_u8 state b : crc32_byte state (u8 b) = crc32_byte state b.
Proof.
  unfold crc32_byte. do 2 f_equal. rewrite !land_255.
  change 256 with (2 ^ 8). unfold u8. change 256 with (2 ^ 8).
  apply Z.bits_inj'. intros k Hk.
  destruct (Z.ltb_spec k 8).
  - rewrite !Z.mod_pow2_bits_low, !Z.lxor_spec by lia.
    rewrite Z.mod_pow2_bits_low by lia. reflexivity.
  - rewrite !Z.mod_pow2_bits_high by lia. reflexivity.
Qed.

(** X26: [crc32] stays a 32-bit value: started from a 32-bit state it
    returns one, over any list of values, and of each value only the low
    eight bits count.  And this checksum - started from 0 and not inverted
    at the end - does not see leading zero bytes: the sum of a message
    from state 0 is the sum of the same message after any number of zero
    bytes, and the sum of zero bytes alone is 0. *)
Theorem crc32_is_32_bit_and_ignores_leading_zero_bytes
  (src : list Z) (state : Z) (n : nat) :
  0 <= state < 2 ^ 32 ->
  0 <= crc32 src state < 2 ^ 32 /\
  crc32 (map u8 src) state = crc32 src state /\
  crc32 (repeat 0 n ++ src) 0 = crc32 src 0 /\
  crc32 (repeat 0 n) 0 = 0.
Proof.
  intros Hs. split; [apply crc32_range, Hs |]. clear Hs. split.
  - revert state. unfold crc32.
    induction src as [|b src IH]; intros state; cbn [map fold_left];
      [reflexivity |].
    rewrite crc32_byte_u8. apply IH.
  - assert (Hz : crc32 (repeat 0 n) 0 = 0).
    { induction n as [|n IH]; [reflexivity |].
      cbn [repeat]. unfold crc32 in *. cbn [fold_left].
      change (crc32_byte 0 0) with 0. exact IH. }
    split; [| exact Hz].
    rewrite crc32_app, Hz. reflexivity.
Qed.

(** ** What an accepted PROG_MULTI leaves in the flash *)

Lemma blit_snoc src : forall i b buf,
  blit i (src ++ [b]) buf
  = set_buf_c (i + Z.of_nat (length src)) b (blit i src buf).
Proof.
  induction src as [|x src IH]; intros i b buf; cbn [blit app length].
  - now replace (i + Z.of_nat 0) with i by lia.
  - rewrite IH. f_equal. lia.
Qed.

Lemma buf_c_blit src : forall i j buf,
  0 <= i -> 0 <= j -> (Z.to_nat i + length src <= length buf)%nat ->
  buf_c j (blit i src buf)
  = if (i <=? j) && (j <? i + Z.of_nat (length src))
    then u8 (nth (Z.to_nat (j - i)) src 0) else buf_c j buf.
Proof.
  induction src as [|x src IH] using rev_ind; intros i j buf Hi Hj Hlen.
  - cbn [blit length]. destruct (i <=? j) eqn:E1; cbn [andb]; auto.
    destruct (Z.ltb_spec j (i + Z.of_nat 0)); auto. lia.
  - rewrite length_app in *. cbn [length] in *. rewrite blit_snoc.
    destruct (Z.eq_dec j (i + Z.of_nat (length src))) as [-> | Hne].
    + rewrite buf_c_set_same by (rewrite ?length_blit; lia).
      destruct (Z.leb_spec i (i + Z.of_nat (length src))); [| lia].
      destruct (Z.ltb_spec (i + Z.of_nat (length src))
                  (i + Z.of_nat (length src + 1))); [| lia].
      cbn [andb].
      replace (Z.to_nat (i + Z.of_nat (length src) - i)) with (length src)
        by lia.
      rewrite app_nth2, Nat.sub_diag by lia. reflexivity.
    + rewrite buf_c_set_other by lia.
      rewrite IH by lia.
      destruct (Z.leb_spec i j); cbn [andb]; [| reflexivity].
      destruct (Z.ltb_spec j (i + Z.of_nat (length src)));
        destruct (Z.ltb_spec j (i + Z.of_nat (length src + 1)));
        try lia.
      rewrite app_nth1 by lia. reflexivity.
Qed.

Lemma buf_w_blit bs k buf :
  0 <= k -> (length bs <= length buf)%nat ->
  4 * k + 3 < Z.of_nat (length bs) ->
  buf_w k (blit 0 bs buf) = payload_word bs k.
Proof.
  intros Hk Hlen Hin. unfold buf_w, payload_word.
  rewrite !buf_c_blit by lia.
  repeat match goal with
         | |- context [(0 <=? ?x) && (?x <? ?y)] =>
             destruct (Z.leb_spec 0 x); [| lia];
             destruct (Z.ltb_spec x y); [| lia]; cbn [andb]
         end.
  rewrite !Z.sub_0_r. reflexivity.
Qed.

Lemma read_loop_flash_buffer bs : forall i (s1 : state F) rest Q E,
  rx s1 = map Some bs ++ rest ->
  (forall s',
     rx s' = rest ->
     flash_buffer s' = blit i bs (flash_buffer s1) ->
     address s' = address s1 -> first_word s' = first_word s1 ->
     flash s' = flash s1 -> Q tt s') ->
  wp (for_loop (length bs) i 1 (fun i =>
        bind (cin_wait 1000) (fun c =>
        bind (when (c <? 0) (goto cmd_bad)) (fun _ =>
        modify (fun s =>
          set_flash_buffer (set_buf_c i c (flash_buffer s)) s))))) Q E s1.
Proof.
  induction bs as [|b bs IH]; intros i s1 rest Q E Hrx HQ.
  - cbn [length for_loop]. apply wp_ret. apply HQ; auto.
  - cbn [length for_loop]. apply wp_bind, wp_bind.
    eapply wp_cin_wait_some; [exact Hrx |].
    pose proof (u8_range b) as Hb.
    destruct (Z.ltb_spec (u8 b) 0); [lia |].
    apply wp_bind. apply wp_when; [discriminate | intros _].
    apply wp_modify. apply (IH (i + 1) _ rest); [reflexivity |].
    st_simpl. intros s' H1 H2 H3 H4 H5. apply HQ; auto.
    rewrite H2. cbn [blit]. unfold set_buf_c. now rewrite u8_u8.
Qed.

Lemma buf_w_set_other i k w buf :
  0 <= i -> 0 <= k -> i <> k ->
  (Z.to_nat (4 * i) + 4 <= length buf)%nat ->
  buf_w k (set_buf_w i w buf) = buf_w k buf.
Proof.
  intros Hi Hk Hne Hlen. unfold buf_w, set_buf_w.
  rewrite !buf_c_blit by (cbn [word_bytes length]; lia).
  cbn [word_bytes length].
  repeat match goal with
         | |- context [(?a <=? ?x) && (?x <? ?y)] =>
             destruct (Z.leb_spec a x); cbn [andb];
             [ destruct (Z.ltb_spec x y); [lia |] | ]
         end; reflexivity.
Qed.

Section Upload.

Context {RL : Reliable}.

Hypothesis Hfw1 : fw_size board_info + 256 <= 2 ^ 32.

Lemma program_loop_spec count start (s1 : state F)
  (Q : unit -> state F -> Prop) E :
  0 <= address s1 ->
  address s1 + 4 * Z.of_nat count <= fw_size board_info ->
  (forall s',
     address s' = address s1 + 4 * Z.of_nat count ->
     (first_word s' = first_word s1 /\ rx s' = rx s1 /\ iv s' = iv s1 /\
      num_to_flash s' = num_to_flash s1 /\ crc32_sum s' = crc32_sum s1) ->
     (forall k, (k < count)%nat ->
        flash_func_read_word (address s1 + 4 * Z.of_nat k) (flash s')
        = buf_w (start + Z.of_nat k) (flash_buffer s1)) ->
     (forall a, a < address s1 \/ address s1 + 4 * Z.of_nat count <= a ->
        flash_func_read_word a (flash s')
        = flash_func_read_word a (flash s1)) ->
     Q tt s') ->
  (forall s', E cmd_fail s') ->
  wp (for_loop count start 1 program_word) Q E s1.
Proof.
  intros Ha Hend HQ HE.
  wp_loop_idx (fun (j : nat) (s' : state F) =>
      address s' = address s1 + 4 * Z.of_nat j /\
      (first_word s' = first_word s1 /\ rx s' = rx s1 /\ iv s' = iv s1 /\
       num_to_flash s' = num_to_flash s1 /\ crc32_sum s' = crc32_sum s1) /\
      flash_buffer s' = flash_buffer s1 /\
      (forall k, (k < j)%nat ->
         flash_func_read_word (address s1 + 4 * Z.of_nat k) (flash s')
         = buf_w (start + Z.of_nat k) (flash_buffer s1)) /\
      (forall a, a < address s1 \/ address s1 + 4 * Z.of_nat j <= a ->
         flash_func_read_word a (flash s')
         = flash_func_read_word a (flash s1))).
  - repeat split; auto; try lia; intros k Hk; lia.
  - match goal with
    | H : _ /\ _ |- _ => destruct H as (Haj & Hf & Hb & Hk & Ho)
    end.
    wp_run; [apply HE |]. st_simpl.
    match goal with
    | H : negb (_ =? _) = false |- _ => apply negb_false_iff, Z.eqb_eq in H;
                                        rename H into Hv
    end.
    split; [rewrite Haj, u32_small by lia; lia |].
    repeat (split; [assumption |]). split.
    + intros k Hk'. destruct (Nat.eq_dec k j) as [-> | Hne].
      * rewrite <- Haj, Hv, Hb. f_equal. lia.
      * rewrite write_read_other by lia. apply Hk. lia.
    + intros a Hout. rewrite write_read_other by lia. apply Ho. lia.
  - match goal with
    | H : _ /\ _ |- _ => destruct H as (Haj & Hf & Hb & Hk & Ho)
    end.
    apply HQ; auto.
Qed.

Lemma do_prog_multi_spec (s : state F) len bs rest :
  rx s = Some len :: map Some bs ++ Some PROTO_EOC :: rest ->
  length bs = Z.to_nat (u8 len) ->
  0 <= address s <= fw_size board_info ->
  length (flash_buffer s) = 256%nat ->
  wp do_prog_multi
     (fun _ s' =>
        rx s' = rest /\ address s' = address s + u8 len /\
        (forall k, 0 <= 4 * k < u8 len ->
           flash_func_read_word (address s + 4 * k) (flash s')
           = if (address s =? 0) && (k =? 0) then ERASED
             else payload_word bs k) /\
        (forall a, a < address s \/ address s + u8 len <= a ->
           flash_func_read_word a (flash s')
           = flash_func_read_word a (flash s)) /\
        first_word s'
        = if (address s =? 0) && (0 <? u8 len) then payload_word bs 0
          else if address s =? 0 then buf_w 0 (flash_buffer s)
          else first_word s)
     (fun _ _ => True) s.
Proof.
  intros Hrx Hlen Ha Hbuf. unfold do_prog_multi.
  apply wp_bind. eapply wp_cin_wait_some; [exact Hrx |].
  pose proof (u8_range len) as Hl.
  wp_run; auto.
  match goal with
  | H : negb (Z.rem _ 4 =? 0) = false |- _ =>
      apply negb_false_iff, Z.eqb_eq in H;
      assert (Hq : u8 len = 4 * (u8 len ÷ 4))
        by (pose proof (Z.quot_rem' (u8 len) 4); lia)
  end.
  assert (Hsum : address s + u8 len <= fw_size board_info).
  { match goal with
    | H : (u32 _ >? _) = false |- _ =>
        st_simpl; rewrite u32_small in H by lia; lia
    end. }
  rewrite <- Hlen.
  eapply read_loop_flash_buffer; [reflexivity |].
  intros s2 Hr2 Hb2 Ha2 Hf2 Hfl2. st_simpl.
  apply wp_bind. unfold wait_for_eoc. apply wp_bind.
  eapply wp_cin_wait_some; [exact Hr2 |].
  change (u8 PROTO_EOC =? PROTO_EOC) with true.
  wp_run; try discriminate; auto.
  all: apply program_loop_spec; st_simpl; auto; try lia;
    rewrite ?Ha2; try lia.
  all: intros s3 Ha3 (Hf3 & Hr3 & _) Hk3 Ho3.
  all: assert (Hcnt : 4 * Z.of_nat (Z.to_nat (u8 len ÷ 4)) = u8 len) by lia.
  all: rewrite Hcnt in *.
  all: match goal with
       | H : (address _ =? 0) = _ |- _ => st_simpl; rewrite Ha2 in H;
                                          rename H into Hz
       end.
  all: rewrite Hz; cbn [andb].
  all: split; [exact Hr3 |]; split; [lia |].
    all: assert (Hbs : Z.of_nat (length bs) = u8 len) by lia.
  all: assert (Hword : forall k, 0 <= 4 * k < u8 len ->
                 buf_w k (flash_buffer s2) = payload_word bs k)
         by (intros k Hk; rewrite Hb2; apply buf_w_blit; lia).
  - split; [| split].
    + intros k Hk.
      replace (address s + 4 * k)
        with (address s + 4 * Z.of_nat (Z.to_nat k)) by lia.
      rewrite Hk3 by lia. replace (0 + Z.of_nat (Z.to_nat k)) with k by lia.
      destruct (Z.eqb_spec k 0) as [-> | Hne].
      * apply buf_w_set_erased; [lia |]. rewrite Hb2, length_blit. lia.
      * rewrite buf_w_set_other by (rewrite ?Hb2, ?length_blit; lia).
        apply Hword, Hk.
    + intros a Hout. rewrite Ho3 by exact Hout.
      rewrite zero_key_keeps_app, Hfl2. reflexivity.
    + rewrite Hf3. destruct (Z.ltb_spec 0 (u8 len)).
      * apply Hword. lia.
      * rewrite Hb2. destruct bs; [reflexivity | cbn [length] in Hbs; lia].
  - split; [| split].
    + intros k Hk.
      replace (address s + 4 * k)
        with (address s + 4 * Z.of_nat (Z.to_nat k)) by lia.
      rewrite Hk3 by lia. replace (0 + Z.of_nat (Z.to_nat k)) with k by lia.
      destruct (Z.eqb_spec k 0) as [-> | Hne].
      * apply buf_w_set_erased; [lia |]. rewrite Hb2, length_blit. lia.
      * rewrite buf_w_set_other by (rewrite ?Hb2, ?length_blit; lia).
        apply Hword, Hk.
    + intros a Hout. rewrite Ho3 by exact Hout.
      rewrite Hfl2. reflexivity.
    + rewrite Hf3. destruct (Z.ltb_spec 0 (u8 len)).
      * apply Hword. lia.
      * rewrite Hb2. destruct bs; [reflexivity | cbn [length] in Hbs; lia].
  - split; [| split].
    + intros k Hk.
      replace (address s + 4 * k)
        with (address s + 4 * Z.of_nat (Z.to_nat k)) by lia.
      rewrite Hk3 by lia. replace (0 + Z.of_nat (Z.to_nat k)) with k by lia.
      apply Hword, Hk.
    + intros a Hout. rewrite Ho3 by exact Hout.
      rewrite Hfl2. reflexivity.
    + rewrite Hf3. exact Hf2.
Qed.

(** X28: what an accepted PROG_MULTI leaves behind.  On a flash driver
    whose writes touch one word, a PROG_MULTI that arrives whole (length
    byte, that many bytes, EOC) and is answered OK has taken just these
    bytes from the script, has moved [address] forward by the length
    byte, and every word of the payload now reads back from the flash at
    its offset, assembled least significant byte first - but for word 0
    of the region, which reads erased while the first word of the payload
    is held back in [first_word]; and no word outside the range written
    reads differently from before. *)
Theorem prog_multi_programs_the_payload (s : state F) len bs rest :
  rx s = Some len :: map Some bs ++ Some PROTO_EOC :: rest ->
  length bs = Z.to_nat (u8 len) ->
  0 <= address s <= fw_size board_info ->
  length (flash_buffer s) = 256%nat ->
  fst (bootloader_step PROTO_PROG_MULTI s) = OK ->
  rx (snd (bootloader_step PROTO_PROG_MULTI s)) = rest /\
  address (snd (bootloader_step PROTO_PROG_MULTI s)) = address s + u8 len /\
  (forall k, 0 <= 4 * k < u8 len ->
     flash_func_read_word (address s + 4 * k)
       (flash (snd (bootloader_step PROTO_PROG_MULTI s)))
     = if (address s =? 0) && (k =? 0) then ERASED
       else payload_word bs k) /\
  (forall a, a < address s \/ address s + u8 len <= a ->
     flash_func_read_word a
       (flash (snd (bootloader_step PROTO_PROG_MULTI s)))
     = flash_func_read_word a (flash s)) /\
  (address s = 0 -> 0 < u8 len ->
   first_word (snd (bootloader_step PROTO_PROG_MULTI s))
   = payload_word bs 0).
Proof.
  intros Hrx Hlen Ha Hbuf.
  pose proof (do_prog_multi_spec s len bs rest Hrx Hlen Ha Hbuf) as Hwp.
  change do_prog_multi with (command PROTO_PROG_MULTI) in Hwp.
  apply (step_of_wp PROTO_PROG_MULTI s _ _
    (fun r s' => r = OK ->
       rx s' = rest /\ address s' = address s + u8 len /\
       (forall k, 0 <= 4 * k < u8 len ->
          flash_func_read_word (address s + 4 * k) (flash s')
          = if (address s =? 0) && (k =? 0) then ERASED
            else payload_word bs k) /\
       (forall a, a < address s \/ address s + u8 len <= a ->
          flash_func_read_word a (flash s')
          = flash_func_read_word a (flash s)) /\
       (address s = 0 -> 0 < u8 len ->
        first_word s' = payload_word bs 0)) Hwp);
    intros s1 H Hr; try discriminate.
  st_simpl. destruct H as (H1 & H2 & H3 & H4 & H5).
  repeat (split; [assumption |]).
  intros Hz Hpos. rewrite H5, Hz. cbn [Z.eqb andb].
  destruct (Z.ltb_spec 0 (u8 len)); [reflexivity | lia].
Qed.

End Upload.

(** ** SET_DELAY *)

Lemma delay_word_low d :
  0 <= d < 256 -> Z.land (delay_word d) 255 = d.
Proof.
  intros Hd. unfold delay_word.
  rewrite Z.land_lor_distr_l, <- Z.land_assoc.
  change (Z.land 4294967040 255) with 0.
  rewrite Z.land_0_r, Z.lor_0_l, land_255. apply Z.mod_small, Hd.
Qed.

Lemma do_set_delay_spec a (s : state F) :
  wp (do_set_delay a)
     (fun _ s' =>
        exists v e rest,
          rx s = Some v :: Some e :: rest /\ rx s' = rest /\
          u8 v <= BOOT_DELAY_MAX board_info /\
          flash_func_read_word a (flash s)
          = BOOT_DELAY_SIGNATURE1 board_info /\
          flash_func_read_word (a + 4) (flash s)
          = BOOT_DELAY_SIGNATURE2 board_info /\
          flash s' = flash_func_write_word a (delay_word (u8 v)) (flash s) /\
          flash_func_read_word a (flash s') = delay_word (u8 v))
     (fun _ _ => True) s.
Proof.
  wp_run; auto. st_simpl.
  match goal with
  | H : cin_result (rx s) ?c _, H0 : (?c <? 0) = false |- _ =>
      destruct (cin_result_byte _ _ _ H H0) as (v & Hrx & Hc)
  end.
  match goal with
  | H : negb (?c0 =? PROTO_EOC) = false |- _ =>
      apply negb_false_iff, Z.eqb_eq in H; rename H into He
  end.
  match goal with
  | H : cin_result ?r ?c0 _ |- _ =>
      assert (Hn : (c0 <? 0) = false) by (rewrite He; reflexivity);
      destruct (cin_result_byte _ _ _ H Hn) as (e & Hrx' & Hc')
  end.
  match goal with
  | H : _ || _ = false |- _ =>
      apply orb_false_iff in H; destruct H as [Hs1 Hs2];
      apply negb_false_iff, Z.eqb_eq in Hs1;
      apply negb_false_iff, Z.eqb_eq in Hs2
  end.
  match goal with
  | H : negb (_ =? _) = false |- _ =>
      apply negb_false_iff, Z.eqb_eq in H; rename H into Hv
  end.
  assert (Hlow : Z.land c 255 = u8 v).
  { rewrite land_255, Hc. apply u8_u8. }
  rewrite Hlow in *. fold (delay_word (u8 v)) in *.
  exists v, e, r0. rewrite Hrx, Hrx'.
  repeat split; auto. lia.
Qed.

(** X29: SET_DELAY is accepted only over the two signature words, and
    it overwrites the first of them: after a SET_DELAY answered OK the
    word at [BOOT_DELAY_ADDRESS] reads as the signature with its low byte
    replaced by the delay, which was at most [BOOT_DELAY_MAX]; so, unless
    the delay equals the low byte of the signature, no further SET_DELAY
    is accepted while that word stays as it is. *)
Theorem set_delay_is_accepted_once (a : Z) (s : state F) :
  BOOT_DELAY_ADDRESS board_info = Some a ->
  fst (bootloader_step PROTO_SET_DELAY s) = OK ->
  exists v e rest,
    rx s = Some v :: Some e :: rest /\
    u8 v <= BOOT_DELAY_MAX board_info /\
    flash_func_read_word a (flash s) = BOOT_DELAY_SIGNATURE1 board_info /\
    flash_func_read_word (a + 4) (flash s)
    = BOOT_DELAY_SIGNATURE2 board_info /\
    flash_func_read_word a (flash (snd (bootloader_step PROTO_SET_DELAY s)))
    = delay_word (u8 v) /\
    (u8 v <> Z.land (BOOT_DELAY_SIGNATURE1 board_info) 255 ->
     forall script,
       fst (bootloader_step PROTO_SET_DELAY
              (set_rx script (snd (bootloader_step PROTO_SET_DELAY s))))
       <> OK).
Proof.
  intros Hbda.
  assert (Hcmd : command PROTO_SET_DELAY = do_set_delay a).
  { unfold command. cbn [PROTO_SET_DELAY PROTO_GET_SYNC PROTO_GET_DEVICE
      PROTO_CHIP_ERASE PROTO_PROG_MULTI PROTO_GET_CRC PROTO_GET_OTP
      PROTO_GET_SN PROTO_GET_CHIP PROTO_GET_CHIP_DES Z.eqb Pos.eqb].
    rewrite Hbda. reflexivity. }
  assert (Hstep : forall s0 : state F,
    fst (bootloader_step PROTO_SET_DELAY s0) = OK ->
    exists v e rest,
      rx s0 = Some v :: Some e :: rest /\
      u8 v <= BOOT_DELAY_MAX board_info /\
      flash_func_read_word a (flash s0) = BOOT_DELAY_SIGNATURE1 board_info /\
      flash_func_read_word (a + 4) (flash s0)
      = BOOT_DELAY_SIGNATURE2 board_info /\
      flash_func_read_word a (flash (snd (bootloader_step PROTO_SET_DELAY s0)))
      = delay_word (u8 v)).
  { intros s0. pose proof (do_set_delay_spec a s0) as Hwp.
    rewrite <- Hcmd in Hwp.
    apply (step_of_wp PROTO_SET_DELAY s0 _ _
      (fun r s' => r = OK ->
         exists v e rest,
           rx s0 = Some v :: Some e :: rest /\
           u8 v <= BOOT_DELAY_MAX board_info /\
           flash_func_read_word a (flash s0)
           = BOOT_DELAY_SIGNATURE1 board_info /\
           flash_func_read_word (a + 4) (flash s0)
           = BOOT_DELAY_SIGNATURE2 board_info /\
           flash_func_read_word a (flash s') = delay_word (u8 v)) Hwp);
      intros s1 H Hr; try discriminate.
    destruct H as (v & e & rest & H1 & _ & H3 & H4 & H5 & _ & H7).
    exists v, e, rest. st_simpl. auto. }
  intros Hok. destruct (Hstep s Hok) as (v & e & rest & H1 & H2 & H3 & H4 & H5).
  exists v, e, rest. repeat (split; [assumption |]).
  intros Hne script Hok2.
  destruct (Hstep _ Hok2) as (v' & e' & rest' & _ & _ & G3 & _).
  st_simpl. rewrite H5 in G3.
  apply Hne. rewrite <- G3. symmetry. apply delay_word_low, u8_range.
Qed.

(** ** What PROG_MULTI_ENCRYPTED decrypts and programs *)

Lemma blit_app src1 : forall src2 i buf,
  blit i (src1 ++ src2) buf
  = blit (i + Z.of_nat (length src1)) src2 (blit i src1 buf).
Proof.
  induction src1 as [|x src1 IH]; intros src2 i buf; cbn [blit app length].
  - now replace (i + Z.of_nat 0) with i by lia.
  - rewrite IH. f_equal. lia.
Qed.

Lemma blit_full src buf :
  length src = length buf -> blit 0 src buf = map u8 src.
Proof.
  intros Hlen. apply (nth_ext _ _ 0 0).
  - now rewrite length_blit, length_map.
  - intros n Hn. rewrite length_blit in Hn.
    pose proof (buf_c_blit src 0 (Z.of_nat n) buf) as H.
    unfold buf_c in H. rewrite Nat2Z.id in H. rewrite H by lia.
    destruct (Z.leb_spec 0 (Z.of_nat n)); [| lia].
    destruct (Z.ltb_spec (Z.of_nat n) (0 + Z.of_nat (length src))); [| lia].
    cbn [andb]. rewrite Z.sub_0_r, Nat2Z.id.
    change 0 with (u8 0) at 2. now rewrite map_nth.
Qed.

Lemma length_cipher_block i enc : length (cipher_block i enc) = 16%nat.
Proof. reflexivity. Qed.

Lemma length_block16 b : length (block16 b) = 16%nat.
Proof. reflexivity. Qed.

Lemma read_loop_encrypted_buffer bs : forall i (s1 : state F) rest Q E,
  rx s1 = map Some bs ++ rest ->
  (forall s',
     rx s' = rest ->
     encrypted_buffer s' = blit i bs (encrypted_buffer s1) ->
     address s' = address s1 -> first_word s' = first_word s1 ->
     flash s' = flash s1 -> flash_buffer s' = flash_buffer s1 ->
     iv s' = iv s1 -> key_state s' = key_state s1 ->
     num_to_flash s' = num_to_flash s1 -> crc32_sum s' = crc32_sum s1 ->
     Q tt s') ->
  wp (for_loop (length bs) i 1 (fun i =>
        bind (cin_wait 1000) (fun c =>
        bind (when (c <? 0) (goto cmd_bad)) (fun _ =>
        modify (fun s =>
          set_encrypted_buffer (set_buf_c i c (encrypted_buffer s)) s)))))
     Q E s1.
Proof.
  induction bs as [|b bs IH]; intros i s1 rest Q E Hrx HQ.
  - cbn [length for_loop]. apply wp_ret. apply HQ; auto.
  - cbn [length for_loop]. apply wp_bind, wp_bind.
    eapply wp_cin_wait_some; [exact Hrx |].
    pose proof (u8_range b) as Hb.
    destruct (Z.ltb_spec (u8 b) 0); [lia |].
    apply wp_bind. apply wp_when; [discriminate | intros _].
    apply wp_modify. apply (IH (i + 1) _ rest); [reflexivity |].
    st_simpl. intros s' H1 H2 H3 H4 H5 H6 H7 H8 H9 H10. apply HQ; auto.
    rewrite H2. cbn [blit]. unfold set_buf_c. now rewrite u8_u8.
Qed.

Lemma decrypt_block_spec i (s1 : state F) (Q : unit -> state F -> Prop) E :
  length (iv s1) = 16%nat ->
  (forall s',
     decrypted s1 s' ->
     flash_buffer s'
     = blit i (block16 (AES128_CBC_decrypt_buffer
                          (slice i 16 (encrypted_buffer s1))
                          (key_b (flash s1)) (iv s1)))
            (flash_buffer s1) ->
     iv s' = cipher_block i (encrypted_buffer s1) ->
     Q tt s') ->
  wp (decrypt_block i) Q E s1.
Proof.
  intros Hiv HQ. unfold decrypt_block. apply wp_bind, wp_modify.
  set (s2 := set_flash_buffer _ s1).
  wp_loop_idx (fun (j : nat) (s' : state F) =>
      decrypted s1 s' /\ flash_buffer s' = flash_buffer s2 /\
      iv s'
      = blit 0 (map (fun j => buf_c (i + Z.of_nat j) (encrypted_buffer s1))
                    (seq 0 j)) (iv s1)).
  - subst s2. unfold decrypted. st_simpl. cbn [seq map blit]. tauto.
  - match goal with
    | H : _ /\ _ /\ _ |- _ => destruct H as (Hd & Hb & Hi)
    end.
    wp_run. unfold decrypted in *. st_simpl.
    split; [tauto |]. split; [exact Hb |].
    rewrite seq_S, map_app. cbn [map].
    rewrite blit_snoc, length_map, length_seq, Hi.
    destruct Hd as (_ & _ & _ & _ & _ & _ & _ & ->).
    f_equal; [lia | f_equal; lia].
  - match goal with
    | H : _ /\ _ /\ _ |- _ => destruct H as (Hd & Hb & Hi)
    end.
    apply HQ; [exact Hd | rewrite Hb; subst s2; st_simpl; reflexivity |].
    rewrite Hi, blit_full by (rewrite length_map, length_seq; auto).
    unfold cipher_block. rewrite map_map. reflexivity.
Qed.

Lemma decrypted_trans (s1 s2 s3 : state F) :
  decrypted s1 s2 -> decrypted s2 s3 -> decrypted s1 s3.
Proof. unfold decrypted. intuition congruence. Qed.

Lemma decrypt_loop_spec n : forall i (s1 : state F)
  (Q : unit -> state F -> Prop) E,
  length (iv s1) = 16%nat ->
  (forall s',
     decrypted s1 s' ->
     flash_buffer s'
     = blit i (cbc_blocks n i (encrypted_buffer s1) (key_b (flash s1))
                          (iv s1))
            (flash_buffer s1) ->
     iv s' = cbc_vector n i (encrypted_buffer s1) (iv s1) ->
     Q tt s') ->
  wp (for_loop n i 16 decrypt_block) Q E s1.
Proof.
  induction n as [|n IH]; intros i s1 Q E Hiv HQ.
  - cbn [for_loop]. apply wp_ret. apply HQ; [| reflexivity | reflexivity].
    unfold decrypted. tauto.
  - cbn [for_loop]. apply wp_bind. apply decrypt_block_spec; [exact Hiv |].
    intros s2 Hd Hb Hi. apply IH; [rewrite Hi; reflexivity |].
    intros s3 Hd3 Hb3 Hi3.
    assert (He : encrypted_buffer s2 = encrypted_buffer s1)
      by (destruct Hd as (_ & _ & _ & _ & _ & _ & _ & H); exact H).
    assert (Hf : flash s2 = flash s1)
      by (destruct Hd as (_ & _ & _ & _ & H & _); exact H).
    apply HQ.
    + apply (decrypted_trans _ _ _ Hd Hd3).
    + rewrite Hb3, Hb, He, Hf, Hi. cbn [cbc_blocks].
      rewrite blit_app, length_block16. reflexivity.
    + rewrite Hi3, He, Hi. destruct n as [|n]; cbn [cbc_vector].
      * f_equal. lia.
      * f_equal. lia.
Qed.

Section EncryptedUpload.

Context {RL : Reliable}.

Hypothesis Hfw1 : fw_size board_info + 256 <= 2 ^ 32.

Lemma do_prog_multi_encrypted_spec (s : state F) len bs rest :
  rx s = Some len :: map Some bs ++ Some PROTO_EOC :: rest ->
  length bs = Z.to_nat (u8 len) ->
  0 <= address s <= fw_size board_info ->
  length (iv s) = 16%nat ->
  length (flash_buffer s) = 256%nat ->
  wp do_prog_multi_encrypted
     (fun _ s' =>
        rx s' = rest /\ iv s' = next_vector s bs /\
        (address s <> 0 ->
         address s' = address s + u8 len /\
         num_to_flash s' = num_to_flash s /\ crc32_sum s' = crc32_sum s /\
         first_word s' = first_word s /\
         forall k, 0 <= 4 * k < u8 len ->
           flash_func_read_word (address s + 4 * k) (flash s')
           = buf_w k (plaintext s bs)) /\
        (address s = 0 ->
         num_to_flash s' = buf_w 0 (plaintext s bs) /\
         crc32_sum s' = buf_w 1 (plaintext s bs) /\
         first_word s' = buf_w 4 (plaintext s bs) /\
         forall k, 4 <= k -> 4 * k < u8 len ->
           flash_func_read_word (4 * (k - 4)) (flash s')
           = if k =? 4 then ERASED else buf_w k (plaintext s bs)))
     (fun _ _ => True) s.
Proof.
  intros Hrx Hlen Ha Hiv Hbuf. unfold do_prog_multi_encrypted.
  apply wp_bind. eapply wp_cin_wait_some; [exact Hrx |].
  pose proof (u8_range len) as Hl.
  wp_run; auto.
  match goal with
  | H : negb (Z.rem _ 4 =? 0) = false |- _ =>
      apply negb_false_iff, Z.eqb_eq in H;
      assert (Hq : u8 len = 4 * (u8 len ÷ 4))
        by (pose proof (Z.quot_rem' (u8 len) 4); lia)
  end.
  assert (Hsum : address s + u8 len <= fw_size board_info).
  { match goal with
    | H : (u32 _ >? _) = false |- _ =>
        st_simpl; rewrite u32_small in H by lia; lia
    end. }
  rewrite <- Hlen.
  eapply read_loop_encrypted_buffer; [reflexivity |].
  intros s2 Hr2 He2 Ha2 Hf2 Hfl2 Hb2 Hi2 Hk2 Hn2 Hc2. st_simpl.
  apply wp_bind. unfold wait_for_eoc. apply wp_bind.
  eapply wp_cin_wait_some; [exact Hr2 |].
  change (u8 PROTO_EOC =? PROTO_EOC) with true.
  wp_run; try discriminate; auto.
  apply decrypt_loop_spec; [st_simpl; congruence |].
  intros s3 Hd3 Hb3 Hi3. st_simpl.
  assert (Hbs : Z.of_nat (length bs) = u8 len) by lia.
  assert (HP : flash_buffer s3 = plaintext s bs).
  { rewrite Hb3. unfold plaintext. rewrite Hbs, He2, Hfl2, Hi2, Hb2.
    reflexivity. }
  assert (HV : iv s3 = next_vector s bs).
  { rewrite Hi3. unfold next_vector. rewrite Hbs, He2, Hi2. reflexivity. }
  destruct Hd3 as (Da & Df & Dn & Dc & Dfl & Dk & Dr & De). st_simpl.
    wp_run; auto.
  all: apply program_loop_spec; st_simpl; auto; try lia.
  all: try (intros s4 Ha4 (Hf4 & Hr4 & Hi4 & Hn4 & Hc4) Hk4 Ho4; st_simpl).
    - (* the first packet: the header is read, the image starts at word 4 *)
    match goal with
    | H : (address _ =? 0) = true |- _ =>
        apply Z.eqb_eq in H; rename H into Hz
    end.
    assert (Hz0 : address s = 0) by congruence.
    split; [congruence |]. split; [congruence |].
    split; [intros; contradiction |]. intros _.
    rewrite <- HP. repeat (split; [congruence |]).
    intros k Hk4' Hklen.
    replace (4 * (k - 4))
      with (address s3 + 4 * Z.of_nat (Z.to_nat (k - 4))) by lia.
    rewrite Hk4 by lia.
    replace (4 + Z.of_nat (Z.to_nat (k - 4))) with k by lia.
    assert (Hl3 : length (flash_buffer s3) = 256%nat).
    { rewrite Hb3, length_blit. congruence. }
    destruct (Z.eqb_spec k 4) as [-> | Hne].
    + apply buf_w_set_erased; lia.
    + apply buf_w_set_other; lia.
  - match goal with
    | H : (address _ =? 0) = false |- _ =>
        apply Z.eqb_neq in H; rename H into Hz
    end.
    assert (Hz0 : address s <> 0) by congruence.
    split; [congruence |]. split; [congruence |].
    split; [| intros; contradiction]. intros _.
    split; [rewrite Ha4, Da, Ha2; lia |].
    repeat (split; [congruence |]).
    intros k Hk.
    replace (address s + 4 * k)
      with (address s3 + 4 * Z.of_nat (Z.to_nat k)) by lia.
    rewrite Hk4 by lia.
    replace (0 + Z.of_nat (Z.to_nat k)) with k by lia.
    now rewrite HP.
Qed.

(** X30: what an accepted PROG_MULTI_ENCRYPTED leaves behind.  The
    packet is decrypted block by block with the key and a vector that
    starts as the one in force and becomes, after each block, that block
    as it was received - so the chain runs on from packet to packet.  On
    a flash driver whose writes touch one word, a packet that arrives
    whole and is answered OK has left the last block received as the
    vector; away from address 0 every word of the decrypted packet reads
    back from the flash at its offset and [address] has moved by the
    length byte; at address 0 the first two words of the decrypted packet
    have become [num_to_flash] and [crc32_sum], its word 4 is held back
    in [first_word] with word 0 of the region left erased, and the words
    after it read back from offset 4 on. *)
Theorem prog_multi_encrypted_programs_the_plaintext
  (s : state F) len bs rest :
  ENABLE_ENCRYPTION board_info = true ->
  rx s = Some len :: map Some bs ++ Some PROTO_EOC :: rest ->
  length bs = Z.to_nat (u8 len) ->
  0 <= address s <= fw_size board_info ->
  length (iv s) = 16%nat ->
  length (flash_buffer s) = 256%nat ->
  fst (bootloader_step PROTO_PROG_MULTI_ENCRYPTED s) = OK ->
  rx (snd (bootloader_step PROTO_PROG_MULTI_ENCRYPTED s)) = rest /\
  iv (snd (bootloader_step PROTO_PROG_MULTI_ENCRYPTED s))
  = next_vector s bs /\
  (address s <> 0 ->
   address (snd (bootloader_step PROTO_PROG_MULTI_ENCRYPTED s))
   = address s + u8 len /\
   forall k, 0 <= 4 * k < u8 len ->
     flash_func_read_word (address s + 4 * k)
       (flash (snd (bootloader_step PROTO_PROG_MULTI_ENCRYPTED s)))
     = buf_w k (plaintext s bs)) /\
  (address s = 0 ->
   num_to_flash (snd (bootloader_step PROTO_PROG_MULTI_ENCRYPTED s))
   = buf_w 0 (plaintext s bs) /\
   crc32_sum (snd (bootloader_step PROTO_PROG_MULTI_ENCRYPTED s))
   = buf_w 1 (plaintext s bs) /\
   first_word (snd (bootloader_step PROTO_PROG_MULTI_ENCRYPTED s))
   = buf_w 4 (plaintext s bs) /\
   forall k, 4 <= k -> 4 * k < u8 len ->
     flash_func_read_word (4 * (k - 4))
       (flash (snd (bootloader_step PROTO_PROG_MULTI_ENCRYPTED s)))
     = if k =? 4 then ERASED else buf_w k (plaintext s bs)).
Proof.
  intros Henc Hrx Hlen Ha Hiv Hbuf.
  pose proof (do_prog_multi_encrypted_spec s len bs rest Hrx Hlen Ha Hiv Hbuf)
    as Hwp.
  rewrite <- (command_prog_multi_encrypted Henc) in Hwp.
  apply (step_of_wp PROTO_PROG_MULTI_ENCRYPTED s _ _
    (fun r s' => r = OK ->
       rx s' = rest /\ iv s' = next_vector s bs /\
       (address s <> 0 ->
        address s' = address s + u8 len /\
        forall k, 0 <= 4 * k < u8 len ->
          flash_func_read_word (address s + 4 * k) (flash s')
          = buf_w k (plaintext s bs)) /\
       (address s = 0 ->
        num_to_flash s' = buf_w 0 (plaintext s bs) /\
        crc32_sum s' = buf_w 1 (plaintext s bs) /\
        first_word s' = buf_w 4 (plaintext s bs) /\
        forall k, 4 <= k -> 4 * k < u8 len ->
          flash_func_read_word (4 * (k - 4)) (flash s')
          = if k =? 4 then ERASED else buf_w k (plaintext s bs))) Hwp);
    intros s1 H Hr; try discriminate.
  st_simpl. destruct H as (H1 & H2 & H3 & H4).
  split; [exact H1 |]. split; [exact H2 |]. split; [| exact H4].
  intros Hnz. destruct (H3 Hnz) as (G1 & _ & _ & _ & G5). auto.
Qed.

End EncryptedUpload.

(** ** How much an accepted command sends *)

Lemma handed_bytes_refl (s : state F) : handed_bytes s 0 s.
Proof. exists []. now rewrite app_nil_r. Qed.

Lemma handed_bytes_cin (s s1 : state F) n t r :
  handed_bytes s n s1 -> handed_bytes s n (set_rx r (log (EvCin t) s1)).
Proof.
  intros (data & H & Hl). exists data. st_simpl.
  rewrite handed_app. cbn [handed]. rewrite app_nil_r. auto.
Qed.

Lemma handed_bytes_cout (s s1 : state F) n b :
  handed_bytes s n s1 ->
  handed_bytes s (n + length b) (log (EvCout b) s1).
Proof.
  intros (data & H & Hl). exists (data ++ [b]). st_simpl.
  rewrite handed_app, H, <- app_assoc. cbn [handed]. split; [reflexivity |].
  rewrite concat_app, length_app. cbn [concat]. rewrite app_nil_r. lia.
Qed.

Ltac sized_leaf :=
  not_wp; try exact I; unfold handed_bytes in *; st_simpl;
  repeat match goal with
         | H : exists _, _ |- _ =>
             let d := fresh "d" in
             let Hd := fresh "Hd" in
             let Hl := fresh "Hl" in
             destruct H as (d & Hd & Hl)
         end;
  rewrite ?handed_app; cbn [handed]; rewrite ?app_nil_r;
  try match goal with
      | H : handed (trace _) = _ |- _ => rewrite H
      end;
  rewrite <- ?app_assoc;
  first [ exists []; split; [now rewrite app_nil_r | reflexivity]
        | eexists; split;
          [ reflexivity
          | rewrite ?concat_app, ?length_app;
            cbn [concat app length word_bytes];
            rewrite ?app_nil_r, ?length_app; cbn [length]; lia ] ].

Ltac sized_go s :=
  wp_run; try sized_leaf;
  try first
    [ solve [wp_loop (fun s' : state F => handed_bytes s 0 s'); sized_go s]
    | solve [wp_loop (fun _ : state F => True); sized_go s] ].

Lemma do_get_device_sized (s : state F) :
  wp do_get_device
     (fun _ s' => handed_bytes s (answer_bytes PROTO_GET_DEVICE (rx s)) s')
     (fun _ _ => True) s.
Proof.
  unfold answer_bytes. cbn [PROTO_GET_DEVICE Z.eqb Pos.eqb].
  wp_run; try exact I.
  all: match goal with
       | H : cin_result (rx _) ?c _, H0 : (?c <? 0) = false |- _ =>
           destruct (cin_result_byte _ _ _ H H0) as (arg & Hrx & Hc)
       end; rewrite Hrx, <- Hc.
  all: repeat match goal with
              | H : (_ =? _) = true |- _ => apply Z.eqb_eq in H
              end.
  1-4: replace (c =? PROTO_DEVICE_VEC_AREA) with false
         by (symmetry; apply Z.eqb_neq;
             unfold PROTO_DEVICE_VEC_AREA, PROTO_DEVICE_BL_REV,
               PROTO_DEVICE_BOARD_ID, PROTO_DEVICE_BOARD_REV,
               PROTO_DEVICE_FW_SIZE in *; lia).
  1-4: apply (handed_bytes_cout _ _ 0); repeat apply handed_bytes_cin;
       apply handed_bytes_refl.
  replace (c =? PROTO_DEVICE_VEC_AREA) with true
    by (symmetry; apply Z.eqb_eq; assumption).
  wp_loop_idx (fun (j : nat) (s' : state F) => handed_bytes s (4 * j) s').
  - repeat apply handed_bytes_cin. apply handed_bytes_refl.
  - wp_run. st_simpl.
    replace (4 * S j)%nat with (4 * j + 4)%nat by lia.
    apply (handed_bytes_cout _ _ (4 * j)); assumption.
  - assumption.
Qed.

Lemma command_sized c (s : state F) :
  wp (command c) (fun _ s' => handed_bytes s (answer_bytes c (rx s)) s')
     (fun _ _ => True) s.
Proof.
  revert c.
  apply (command_elim (fun c m =>
    wp m (fun _ s' => handed_bytes s (answer_bytes c (rx s)) s')
       (fun _ _ => True) s)); intros;
    try apply do_get_device_sized;
    unfold answer_bytes;
    cbn [PROTO_GET_SYNC PROTO_GET_DEVICE PROTO_CHIP_ERASE PROTO_PROG_MULTI
         PROTO_GET_CRC PROTO_GET_OTP PROTO_GET_SN PROTO_GET_CHIP
         PROTO_GET_CHIP_DES PROTO_SET_DELAY PROTO_BOOT PROTO_DEBUG
         PROTO_SET_IV PROTO_PROG_MULTI_ENCRYPTED PROTO_CHECK_CRC
         PROTO_CHECK_KEY Z.eqb Pos.eqb orb].
    all: sized_go s.
Qed.

(** ** The calls of one round of the loop *)

Lemma added_app (s s' : state F) evs :
  trace s' = trace s ++ evs -> added s s' = evs.
Proof.
  intros H. unfold added. rewrite H, skipn_app, skipn_all, Nat.sub_diag.
  reflexivity.
Qed.

Lemma cout_calls_cout (s : state F) b :
  cout_calls (cout b) s = [Transport.Cout b].
Proof.
  unfold cout_calls. rewrite (added_app s _ [EvCout b]); reflexivity.
Qed.

(** What [step_calls] comes to: the data of an accepted command, the
    pinning statement and INSYNC/OK; for BOOT and for a command that is
    not accepted the answer alone; nothing for a command byte that is
    not served. *)
Lemma step_calls_spec c (s : state F) :
  exists data : list (list Z),
    (fst (bootloader_step c s) = OK ->
     length (concat data) = answer_bytes c (rx s)) /\
    step_calls c s
    = match fst (bootloader_step c s) with
      | OK =>
          map Transport.Cout data
          ++ [Transport.Lock; Transport.Cout [PROTO_INSYNC; PROTO_OK]]
      | NO_REPLY => []
      | r =>
          match reply_code r with
          | Some k => [Transport.Cout [PROTO_INSYNC; k]]
          | None => []
          end
      end.
Proof.
  assert (Hall : wp (command c)
            (fun _ s' => session_frame s s' /\
                         handed_bytes s (answer_bytes c (rx s)) s')
            (fun l s' => session_frame s s' /\ silent_exit s l s') s).
  { pose proof (command_frame c s) as H1.
    pose proof (command_silent c s) as H2.
    pose proof (command_sized c s) as H3.
    unfold wp in *. destruct (command c s) as [[a|l] s']; auto. }
  unfold wp in Hall. unfold step_calls, bootloader_step.
  unfold cout_calls at 1.
  destruct (command c s) as [[a|l] s1]; cbn [fst snd].
  - destruct Hall as [(_ & _ & _ & _ & _ & evs & He) (data & Hd & Hl)].
    rewrite He, handed_app in Hd. apply app_inv_head in Hd.
    rewrite (added_app _ _ _ He), Hd.
    exists data. split; [intros _; exact Hl |].
    unfold sync_response. rewrite cout_calls_cout. reflexivity.
  - destruct Hall as [(_ & _ & _ & _ & _ & evs & He) Hs].
    unfold silent_exit in Hs. rewrite He, handed_app in Hs.
    apply app_inv_head in Hs. rewrite (added_app _ _ _ He), Hs.
    exists []. split; [destruct l; discriminate |].
    unfold invalid_response, failure_response, bad_silicon_response,
      bad_key_response.
    destruct l; cbn [map app reply_code]; rewrite ?cout_calls_cout;
      reflexivity.
Qed.

(** ** SET_IV *)

Lemma command_set_iv :
  ENABLE_ENCRYPTION board_info = true -> command PROTO_SET_IV = do_set_iv.
Proof. intros H. unfold command. rewrite H. reflexivity. Qed.

Lemma read_loop_iv n : forall bs i (s1 : state F) rest
    (Q : unit -> state F -> Prop) (E : label -> state F -> Prop),
  rx s1 = map Some bs ++ rest ->
  (length bs <= n)%nat ->
  ((length bs < n)%nat -> hd None rest = None) ->
  (length bs = n ->
   forall s', rx s' = rest -> iv s' = blit i bs (iv s1) ->
              flash s' = flash s1 -> Q tt s') ->
  ((length bs < n)%nat ->
   forall s', iv s' = blit i bs (iv s1) -> flash s' = flash s1 ->
              E cmd_bad s') ->
  wp (for_loop n i 1 (fun i =>
        bind (cin_wait 1000) (fun c =>
        bind (when (c <? 0) (goto cmd_bad)) (fun _ =>
        modify (fun s => set_iv (set_buf_c i c (iv s)) s)))))
     Q E s1.
Proof.
  induction n as [|n IH]; intros bs i s1 rest Q E Hrx Hle Hstop HQ HE.
  - destruct bs; [| cbn in Hle; lia].
    cbn [for_loop]. apply wp_ret. apply HQ; auto.
  - cbn [for_loop]. apply wp_bind, wp_bind.
    destruct bs as [|b bs].
    + cbn [map app length] in *.
      apply wp_cin_wait. intros c r Hc. rewrite Hrx in Hc.
      assert (Hn : c = -1).
      { specialize (Hstop ltac:(lia)).
        destruct rest as [|[x|] rest']; cbn in Hstop, Hc;
          [tauto | discriminate | tauto]. }
      subst c. apply wp_bind. apply wp_when; [intros _ | discriminate].
      apply wp_goto. apply HE; [lia | reflexivity | reflexivity].
    + cbn [map app length] in *.
      eapply wp_cin_wait_some; [exact Hrx |].
      pose proof (u8_range b) as Hb.
      destruct (Z.ltb_spec (u8 b) 0); [lia |].
      apply wp_bind. apply wp_when; [discriminate | intros _].
      apply wp_modify.
      apply (IH bs (i + 1) _ rest); st_simpl;
        [ reflexivity | lia | intros; apply Hstop; lia | | ].
      * intros Hl s' H1 H2 H3. apply HQ; auto.
        rewrite H2. cbn [blit]. unfold set_buf_c. now rewrite u8_u8.
      * intros Hl s' H2 H3. apply HE; auto; [lia |].
        rewrite H2. cbn [blit]. unfold set_buf_c. now rewrite u8_u8.
Qed.

(** X27: SET_IV changes the vector as the bytes arrive, not when the
    command is accepted.  Of the up to sixteen bytes that come before the
    sender stops, each is in [iv] at its index afterwards and the rest of
    [iv] is as it was; the flash is not touched; and the answer is OK only
    if all sixteen came and the EOC after them, else INVALID - with the
    vector already changed. *)
Theorem set_iv_stores_the_bytes_as_they_arrive
  (s : state F) (bs : list Z) (rest : list (option Z)) :
  ENABLE_ENCRYPTION board_info = true ->
  rx s = map Some bs ++ rest ->
  (length bs <= 16)%nat ->
  ((length bs < 16)%nat -> hd None rest = None) ->
  iv (snd (bootloader_step PROTO_SET_IV s)) = blit 0 bs (iv s) /\
  flash (snd (bootloader_step PROTO_SET_IV s)) = flash s /\
  fst (bootloader_step PROTO_SET_IV s)
  = if (length bs =? 16)%nat
       && match rest with
          | Some e :: _ => u8 e =? PROTO_EOC
          | _ => false
          end
    then OK else INVALID.
Proof.
  intros Henc Hrx Hle Hstop.
  set (full := match rest with
               | Some e :: _ => u8 e =? PROTO_EOC
               | _ => false
               end).
  assert (Hwp : wp do_set_iv
    (fun _ s' => iv s' = blit 0 bs (iv s) /\ flash s' = flash s /\
                 (length bs =? 16)%nat && full = true)
    (fun l s' => l = cmd_bad /\ iv s' = blit 0 bs (iv s) /\
                 flash s' = flash s /\
                 (length bs =? 16)%nat && full = false) s).
  { unfold do_set_iv. apply wp_bind.
    apply (read_loop_iv 16 bs 0 s rest); auto.
    - intros Hl s' H1 H2 H3. apply wp_bind. unfold wait_for_eoc.
      apply wp_bind. apply wp_cin_wait. intros c r Hc. apply wp_ret.
      rewrite H1 in Hc. rewrite Hl. cbn [Nat.eqb andb].
      assert (Hfull : (c =? PROTO_EOC) = full).
      { unfold full. destruct rest as [|[e|] rest']; cbn in Hc;
          destruct Hc as [-> _]; reflexivity. }
      rewrite Hfull.
      apply wp_when; intros Hf.
      + apply wp_goto. st_simpl.
        apply negb_true_iff in Hf. auto.
      + apply negb_false_iff in Hf. st_simpl. auto.
    - intros Hl s' H2 H3. repeat split; auto.
      apply andb_false_iff. left. apply Nat.eqb_neq. lia. }
  rewrite <- (command_set_iv Henc) in Hwp.
  apply (step_of_wp PROTO_SET_IV s _ _
    (fun r s' => iv s' = blit 0 bs (iv s) /\ flash s' = flash s /\
                 r = if (length bs =? 16)%nat && full then OK else INVALID)
    Hwp);
    intros s1 H; st_simpl;
    try (destruct H as (Hl & _); discriminate Hl).
  - destruct H as (H1 & H2 & H3). rewrite H3. auto.
  - destruct H as (_ & H1 & H2 & H3). rewrite H3. auto.
Qed.

End Proofs.

(** * The receive ring *)

Lemma next_index x : 0 <= x < 256 -> u32 (x + 1) mod 256 = (x + 1) mod 256.
Proof.
  intros H. unfold u32. rewrite (Z.mod_small (x + 1)) by lia. reflexivity.
Qed.

Lemma queued_length r :
  length (Rx.queued r) = Z.to_nat ((Rx.head r - Rx.tail r) mod 256).
Proof. unfold Rx.queued. now rewrite length_map, length_seq. Qed.

Lemma buf_put_queued b r :
  Rx.ring_ok r ->
  Rx.ring_ok (Rx.buf_put b r) /\
  Rx.queued (Rx.buf_put b r)
  = if (length (Rx.queued r) <? 255)%nat then Rx.queued r ++ [u8 b]
    else Rx.queued r.
Proof.
  intros (Hh & Ht & Hl). unfold Rx.buf_put. rewrite next_index by lia.
  rewrite queued_length.
  destruct (Z.eqb_spec ((Rx.head r + 1) mod 256) (Rx.tail r)) as [E|E];
    cbn [negb].
  - split; [repeat split; lia |].
    destruct (Nat.ltb_spec (Z.to_nat ((Rx.head r - Rx.tail r) mod 256)) 255)
      as [L|L]; auto.
    exfalso. revert E L. Z.div_mod_to_equations. lia.
  - split.
    { unfold Rx.ring_ok; cbn [Rx.head Rx.tail Rx.rx_buf].
      rewrite length_upd.
      pose proof (Z.mod_pos_bound (Rx.head r + 1) 256). lia. }
    destruct (Nat.ltb_spec (Z.to_nat ((Rx.head r - Rx.tail r) mod 256)) 255)
      as [L|L].
    2:{ exfalso. revert E L. Z.div_mod_to_equations. lia. }
    unfold Rx.queued; cbn [Rx.head Rx.tail Rx.rx_buf].
    replace (Z.to_nat (((Rx.head r + 1) mod 256 - Rx.tail r) mod 256))
      with (Z.to_nat ((Rx.head r - Rx.tail r) mod 256) + 1)%nat.
    2:{ revert E L. Z.div_mod_to_equations. lia. }
    rewrite seq_app, map_app. cbn [seq map Nat.add]. f_equal.
    + apply map_ext_in. intros k Hk. apply in_seq in Hk.
      apply nth_upd_other.
      revert Hk. Z.div_mod_to_equations. lia.
    + f_equal.
      replace (Z.to_nat ((Rx.tail r
                 + Z.of_nat (Z.to_nat ((Rx.head r - Rx.tail r) mod 256)))
                 mod 256))
        with (Z.to_nat (Rx.head r)).
      * apply nth_upd_same. lia.
      * f_equal. Z.div_mod_to_equations. lia.
Qed.

Lemma buf_get_queued r :
  Rx.ring_ok r ->
  match Rx.queued r with
  | [] => Rx.buf_get r = (-1, r)
  | b :: q =>
      fst (Rx.buf_get r) = b /\ Rx.queued (snd (Rx.buf_get r)) = q /\
      Rx.ring_ok (snd (Rx.buf_get r))
  end.
Proof.
  intros (Hh & Ht & Hl). unfold Rx.buf_get. rewrite next_index by lia.
  destruct (Z.eqb_spec (Rx.tail r) (Rx.head r)) as [E|E]; cbn [negb].
  - unfold Rx.queued. rewrite E, Z.sub_diag. reflexivity.
  - unfold Rx.queued at 1.
    destruct (Z.to_nat ((Rx.head r - Rx.tail r) mod 256)) as [|n] eqn:En.
    { exfalso. revert E En. Z.div_mod_to_equations. lia. }
    cbn [seq map fst snd Z.of_nat].
    rewrite Z.add_0_r, Z.mod_small by lia. split; [reflexivity |].
    split.
    + unfold Rx.queued; cbn [Rx.head Rx.tail Rx.rx_buf].
      replace (Z.to_nat ((Rx.head r - (Rx.tail r + 1) mod 256) mod 256))
        with n.
      2:{ revert E En. Z.div_mod_to_equations. lia. }
      rewrite <- seq_shift, map_map. apply map_ext. intros k.
      f_equal. f_equal. revert E. Z.div_mod_to_equations. lia.
    + unfold Rx.ring_ok; cbn [Rx.head Rx.tail Rx.rx_buf].
      pose proof (Z.mod_pos_bound (Rx.tail r + 1) 256). lia.
Qed.

Lemma puts_queued bs : forall r,
  Rx.ring_ok r -> (length (Rx.queued r) + length bs <= 255)%nat ->
  Rx.ring_ok (Rx.puts bs r) /\
  Rx.queued (Rx.puts bs r) = Rx.queued r ++ map u8 bs.
Proof.
  induction bs as [|b bs IH]; intros r Hok Hlen; cbn [Rx.puts fold_left map].
  - now rewrite app_nil_r.
  - cbn [length] in Hlen. destruct (buf_put_queued b r Hok) as [Hok' Hq].
    destruct (Nat.ltb_spec (length (Rx.queued r)) 255); [| lia].
    destruct (IH (Rx.buf_put b r) Hok') as [Hok'' Hq''].
    { rewrite Hq, length_app. cbn [length]. lia. }
    split; [exact Hok'' |].
    unfold Rx.puts in *. rewrite Hq'', Hq, <- app_assoc. reflexivity.
Qed.

Lemma gets_queued q : forall r,
  Rx.ring_ok r -> Rx.queued r = q ->
  fst (Rx.gets (length q) r) = q /\
  Rx.queued (snd (Rx.gets (length q) r)) = [] /\
  Rx.ring_ok (snd (Rx.gets (length q) r)).
Proof.
  induction q as [|b q IH]; intros r Hok Hq; cbn [length Rx.gets].
  - auto.
  - pose proof (buf_get_queued r Hok) as H. rewrite Hq in H.
    destruct H as (Hb & Hq' & Hok').
    destruct (Rx.buf_get r) as [c r1]. cbn [fst snd] in *.
    destruct (IH r1 Hok' Hq') as (H1 & H2 & H3).
    destruct (Rx.gets (length q) r1) as [cs r2]. cbn [fst snd] in *.
    subst. auto.
Qed.

(** X1: the ring, one call at a time, on a ring whose indices are below
    256.  [buf_put] keeps them there, and it queues the byte behind the
    bytes already waiting unless 255 bytes are waiting: then the byte is
    dropped and the ring is left as it was (one of the 256 cells is never
    used).  [buf_get] returns -1 and leaves the ring alone when no byte
    is waiting, and otherwise returns the oldest waiting byte and leaves
    the others waiting in their order. *)
Theorem ring_put_appends_and_get_pops_oldest (b : Z) (r : Rx.ring) :
  Rx.ring_ok r ->
  (Rx.ring_ok (Rx.buf_put b r) /\
   Rx.queued (Rx.buf_put b r)
   = (if (length (Rx.queued r) <? 255)%nat then Rx.queued r ++ [u8 b]
      else Rx.queued r) /\
   (length (Rx.queued r) = 255%nat -> Rx.buf_put b r = r) /\
   (length (Rx.queued r) <= 255)%nat) /\
  match Rx.queued r with
  | [] => Rx.buf_get r = (-1, r)
  | x :: q =>
      fst (Rx.buf_get r) = x /\ Rx.queued (snd (Rx.buf_get r)) = q /\
      Rx.ring_ok (snd (Rx.buf_get r))
  end.
Proof.
  intros Hok. split; [| apply buf_get_queued, Hok].
  destruct (buf_put_queued b r Hok) as [H1 H2].
  split; [exact H1 | split; [exact H2 |]].
  destruct Hok as (Hh & Ht & Hl). rewrite queued_length. split.
  - intros Hlen. unfold Rx.buf_put. rewrite next_index by lia.
    destruct (Z.eqb_spec ((Rx.head r + 1) mod 256) (Rx.tail r)) as [E|E];
      cbn [negb]; auto.
    exfalso. revert E Hlen. Z.div_mod_to_equations. lia.
  - pose proof (Z.mod_pos_bound (Rx.head r - Rx.tail r) 256). lia.
Qed.

(** X3: first in, first out: up to 255 bytes put into an empty ring come
    back from as many calls of [buf_get] in the order they were put, each
    cut to eight bits, and the call after them returns -1. *)
Theorem ring_fifo (bs : list Z) (r : Rx.ring) :
  Rx.ring_ok r -> Rx.queued r = [] -> (length bs <= 255)%nat ->
  fst (Rx.gets (length bs) (Rx.puts bs r)) = map u8 bs /\
  fst (Rx.buf_get (snd (Rx.gets (length bs) (Rx.puts bs r)))) = -1.
Proof.
  intros Hok Hq Hlen.
  destruct (puts_queued bs r Hok) as [Hok' Hq'];
    [rewrite Hq; cbn [length]; lia |].
  rewrite Hq in Hq'. cbn [app] in Hq'.
  destruct (gets_queued (map u8 bs) (Rx.puts bs r) Hok' Hq') as (H1 & H2 & H3).
  rewrite length_map in *. split; [exact H1 |].
  pose proof (buf_get_queued _ H3) as H. rewrite H2 in H. now rewrite H.
Qed.

(** * The two transports *)

Lemma u8_nonneg b : (u8 b >=? 0) = true.
Proof. unfold u8. pose proof (Z.mod_pos_bound b 256). lia. Qed.

Ltac mux_cases U A p :=
  destruct p as [bt li ur ar ut at_];
  unfold Transport.run_op, Transport.cin, Transport.cin_usart,
    Transport.cout, Transport.lock, Transport.usb_cin, Transport.uart_cin,
    Transport.usb_cout, Transport.uart_cout, Transport.set_last_input,
    Transport.set_bl_type;
  cbn [Transport.bl_type Transport.last_input Transport.usb_rx
       Transport.uart_rx Transport.usb_tx Transport.uart_tx];
  destruct U, A, bt; cbn [andb orb Transport.interface_eqb negb];
  try destruct ur as [|? ?]; try destruct ar as [|? ?];
  cbn [fst snd Transport.bl_type Transport.last_input Transport.usb_rx
       Transport.uart_rx Transport.usb_tx Transport.uart_tx];
  rewrite ?u8_nonneg;
  cbn [fst snd Transport.bl_type Transport.last_input Transport.usb_rx
       Transport.uart_rx Transport.usb_tx Transport.uart_tx].

Lemma run_op_pinned U A t o p :
  Transport.bl_type p = t -> t <> Transport.NONE ->
  forall t', t' <> t ->
    Transport.bl_type (Transport.run_op U A p o) = t /\
    Transport.rx_of t' (Transport.run_op U A p o) = Transport.rx_of t' p /\
    Transport.tx_of t' (Transport.run_op U A p o) = Transport.tx_of t' p.
Proof.
  intros Ht Hn t' Ht'. destruct o as [|buf|]; mux_cases U A p;
    cbn in Ht; subst; try congruence;
    destruct t'; try congruence; cbn; auto.
Qed.

(** X4: once [bl_type] is pinned to a transport it stays pinned, and
    whatever [bootloader()] then does with [cin], [cout] and the pinning
    statement, the other transport is neither read (the bytes that arrived
    on it stay unread) nor written. *)
Theorem pinned_transport_is_the_only_one (U A : bool)
  (ops : list Transport.op) (t t' : Transport.interface) (p : Transport.port) :
  Transport.bl_type p = t -> t <> Transport.NONE -> t' <> t ->
  Transport.bl_type (Transport.run U A ops p) = t /\
  Transport.rx_of t' (Transport.run U A ops p) = Transport.rx_of t' p /\
  Transport.tx_of t' (Transport.run U A ops p) = Transport.tx_of t' p.
Proof.
  revert p. induction ops as [|o ops IH]; intros p Ht Hn Ht'; cbn; auto.
  destruct (run_op_pinned U A t o p Ht Hn t' Ht') as (H1 & H2 & H3).
  destruct (IH _ H1 Hn Ht') as (G1 & G2 & G3).
  unfold Transport.run in *. rewrite G2, G3. auto.
Qed.

(** X5: while [bl_type] is NONE, that is until the pinning statement on
    the way to the first INSYNC/OK runs, [cout] sends nothing on either
    transport: the answers to commands refused before the first accepted
    one are never sent. *)
Theorem nothing_sent_before_the_pin (U A : bool) (ops : list Transport.op)
  (p : Transport.port) :
  Transport.bl_type p = Transport.NONE ->
  existsb Transport.is_lock ops = false ->
  Transport.bl_type (Transport.run U A ops p) = Transport.NONE /\
  Transport.usb_tx (Transport.run U A ops p) = Transport.usb_tx p /\
  Transport.uart_tx (Transport.run U A ops p) = Transport.uart_tx p.
Proof.
  revert p. induction ops as [|o ops IH]; intros p Ht Hl; cbn; auto.
  cbn in Hl. apply orb_false_iff in Hl as [Ho Hl].
  assert (H : Transport.bl_type (Transport.run_op U A p o) = Transport.NONE /\
              Transport.usb_tx (Transport.run_op U A p o)
              = Transport.usb_tx p /\
              Transport.uart_tx (Transport.run_op U A p o)
              = Transport.uart_tx p).
  { destruct o as [|buf|]; try discriminate; mux_cases U A p;
      cbn in Ht; subst; try discriminate; auto. }
  destruct H as (H1 & H2 & H3).
  destruct (IH _ H1 Hl) as (G1 & G2 & G3).
  unfold Transport.run in *. rewrite G2, G3. auto.
Qed.

(** X6: with [bl_type] still NONE, a call of [cin] that returns a byte
    took it from the head of one transport's unread bytes, and the
    pinning statement after it pins that transport; a byte waiting on USB
    wins over one waiting on the serial port. *)
Theorem pin_follows_the_last_byte (U A : bool) (p : Transport.port) :
  Transport.bl_type p = Transport.NONE ->
  0 <= fst (Transport.cin U A p) ->
  Transport.bl_type (Transport.lock (snd (Transport.cin U A p)))
  <> Transport.NONE /\
  (exists b,
     Transport.rx_of
       (Transport.bl_type (Transport.lock (snd (Transport.cin U A p)))) p
     = b :: Transport.rx_of
              (Transport.bl_type (Transport.lock (snd (Transport.cin U A p))))
              (Transport.lock (snd (Transport.cin U A p))) /\
     fst (Transport.cin U A p) = u8 b) /\
  (U = true -> Transport.usb_rx p <> [] ->
   Transport.bl_type (Transport.lock (snd (Transport.cin U A p)))
   = Transport.USB).
Proof.
  intros Ht Hc. revert Hc. mux_cases U A p; cbn in Ht; subst;
    try discriminate; cbn; intros Hc; try lia;
    (split; [discriminate |]);
    (split; [eexists; split; reflexivity |]);
    intros; congruence.
Qed.

(** ** What reaches a transport *)

Lemma run_app U A ops1 ops2 p :
  Transport.run U A (ops1 ++ ops2) p
  = Transport.run U A ops2 (Transport.run U A ops1 p).
Proof. unfold Transport.run. apply fold_left_app. Qed.

Lemma run_op_tx U A t o p :
  Transport.is_lock o = false ->
  Transport.forwards U A t (Transport.run_op U A p o)
  = Transport.forwards U A t p /\
  Transport.tx_of t (Transport.run_op U A p o)
  = Transport.tx_of t p
    ++ (if Transport.forwards U A t p then Transport.bufs [o] else []).
Proof.
  intros Hl. destruct o as [|buf|]; try discriminate;
    unfold Transport.bufs, Transport.forwards; cbn [flat_map];
    mux_cases U A p; destruct t;
    cbn [Transport.tx_of Transport.usb_tx Transport.uart_tx
         Transport.bl_type Transport.interface_eqb andb];
    rewrite ?app_nil_r; auto.
Qed.

Lemma bufs_app ops1 ops2 :
  Transport.bufs (ops1 ++ ops2) = Transport.bufs ops1 ++ Transport.bufs ops2.
Proof. unfold Transport.bufs. apply flat_map_app. Qed.

Lemma run_tx U A t ops : forall p,
  existsb Transport.is_lock ops = false ->
  Transport.forwards U A t (Transport.run U A ops p)
  = Transport.forwards U A t p /\
  Transport.tx_of t (Transport.run U A ops p)
  = Transport.tx_of t p
    ++ (if Transport.forwards U A t p then Transport.bufs ops else []).
Proof.
  induction ops as [|o ops IH]; intros p Hl.
  - cbn. destruct (Transport.forwards U A t p); now rewrite app_nil_r.
  - cbn [existsb] in Hl. apply orb_false_iff in Hl as [Ho Hl].
    destruct (run_op_tx U A t o p Ho) as [H1 H2].
    destruct (IH (Transport.run_op U A p o) Hl) as [G1 G2].
    change (Transport.run U A (o :: ops) p)
      with (Transport.run U A ops (Transport.run_op U A p o)).
    rewrite G1, G2, H1, H2, <- app_assoc.
    split; [reflexivity |]. f_equal.
    change (o :: ops) with ([o] ++ ops). rewrite bufs_app.
    destruct (Transport.forwards U A t p); reflexivity.
Qed.

Lemma lock_tx U A t p :
  Transport.tx_of t (Transport.lock p) = Transport.tx_of t p /\
  (Transport.forwards U A t p = true ->
   Transport.forwards U A t (Transport.lock p) = true).
Proof.
  unfold Transport.forwards. mux_cases U A p; destruct t, li; cbn; auto.
Qed.

Lemma calls_split ops : forall a x b,
  Transport.calls ops = a ++ x :: b ->
  exists ops1 ops2,
    ops = ops1 ++ x :: ops2 /\
    Transport.calls ops1 = a /\ Transport.calls ops2 = b.
Proof.
  induction ops as [|o ops IH]; intros a x b H.
  - destruct a; discriminate.
  - unfold Transport.calls in H. cbn [filter] in H.
    destruct (Transport.is_cin o) eqn:Ho; cbn [negb] in H.
    + destruct (IH a x b H) as (l1 & l2 & -> & H1 & H2).
      exists (o :: l1), l2. split; [reflexivity |].
      unfold Transport.calls. cbn [filter]. rewrite Ho. cbn [negb].
      split; [exact H1 | exact H2].
    + destruct a as [|y a]; cbn [app] in H; inversion H; subst.
      * exists [], ops. auto.
      * destruct (IH a x b H2) as (l1 & l2 & -> & H1' & H2').
        exists (y :: l1), l2. split; [reflexivity |].
        unfold Transport.calls. cbn [filter]. rewrite Ho. cbn [negb].
        split; [now f_equal | exact H2'].
Qed.

Lemma calls_lock ops :
  existsb Transport.is_lock ops
  = existsb Transport.is_lock (Transport.calls ops).
Proof.
  induction ops as [|o ops IH]; [reflexivity |].
  unfold Transport.calls. cbn [filter existsb].
  destruct o; cbn [Transport.is_cin negb existsb Transport.is_lock orb];
    auto.
Qed.

Lemma calls_bufs ops : Transport.bufs ops = Transport.bufs (Transport.calls ops).
Proof.
  induction ops as [|o ops IH]; [reflexivity |].
  unfold Transport.calls, Transport.bufs in *. cbn [filter flat_map].
  destruct o; cbn [Transport.is_cin negb flat_map app]; auto.
  now rewrite IH.
Qed.

Lemma couts_lock data :
  existsb Transport.is_lock (map Transport.Cout data) = false.
Proof. induction data; cbn; auto. Qed.

Lemma couts_bufs data :
  Transport.bufs (map Transport.Cout data) = concat data.
Proof.
  unfold Transport.bufs. induction data; cbn; auto. now f_equal.
Qed.

(** The calls [pre], the pinning statement and the calls [post], with
    polls anywhere: a transport that [cout] forwards to gets all the
    bytes, one that the pinning statement opens gets the ones after
    it. *)
Lemma run_pin_tx U A t ops pre post p :
  Transport.calls ops
  = map Transport.Cout pre ++ Transport.Lock :: map Transport.Cout post ->
  Transport.tx_of t (Transport.run U A ops p)
  = Transport.tx_of t p
    ++ (if Transport.forwards U A t p then concat pre ++ concat post
        else if Transport.forwards U A t (Transport.run U A ops p)
             then concat post else []).
Proof.
  intros H. destruct (calls_split _ _ _ _ H) as (o1 & o2 & -> & H1 & H2).
  rewrite run_app.
  change (Transport.run U A (Transport.Lock :: o2) (Transport.run U A o1 p))
    with (Transport.run U A o2 (Transport.lock (Transport.run U A o1 p))).
  assert (L1 : existsb Transport.is_lock o1 = false)
    by (rewrite calls_lock, H1; apply couts_lock).
  assert (L2 : existsb Transport.is_lock o2 = false)
    by (rewrite calls_lock, H2; apply couts_lock).
  destruct (run_tx U A t o1 p L1) as [F1 T1].
  destruct (lock_tx U A t (Transport.run U A o1 p)) as [T2 F2].
  destruct (run_tx U A t o2 (Transport.lock (Transport.run U A o1 p)) L2)
    as [F3 T3].
  rewrite T3, T2, T1, F3, <- app_assoc. f_equal.
  rewrite (calls_bufs o1), H1, (calls_bufs o2), H2, !couts_bufs.
  rewrite F1 in F2.
  destruct (Transport.forwards U A t p).
  - now rewrite F2.
  - destruct (Transport.forwards U A t
                (Transport.lock (Transport.run U A o1 p))); reflexivity.
Qed.

Lemma run_calls_tx U A t ops out p :
  Transport.calls ops = map Transport.Cout out ->
  Transport.forwards U A t (Transport.run U A ops p)
  = Transport.forwards U A t p /\
  Transport.tx_of t (Transport.run U A ops p)
  = Transport.tx_of t p
    ++ (if Transport.forwards U A t p then concat out else []).
Proof.
  intros H.
  assert (L : existsb Transport.is_lock ops = false)
    by (rewrite calls_lock, H; apply couts_lock).
  destruct (run_tx U A t ops p L) as [F1 T1].
  split; [exact F1 |].
  now rewrite T1, (calls_bufs ops), H, couts_bufs.
Qed.

(** ** What a command sends *)

Section WireProofs.

Context {F : Type} {HW : Platform F}.

(** [INTERFACE_USB] and [INTERFACE_USART] of the build. *)
Variables INTERFACE_USB INTERFACE_USART : bool.

(** X10: how much an accepted command sends.  Its calls of [cout], the
    pinning statement and [sync_response()] are run on the transports,
    with polls of [cin] anywhere in between.  On a transport that [cout]
    already forwards to, the command sends its data - four bytes for
    GET_CRC, GET_OTP, GET_SN and GET_CHIP, four for GET_DEVICE or sixteen
    for the vector area, four and the text of the description for
    GET_CHIP_DES, none for the other commands - and then INSYNC/OK.  On a
    transport that only its own pinning statement opens - the first
    accepted command of a session - INSYNC/OK is all it sends: the data
    was handed to [cout] while [bl_type] was still NONE.  On any other
    transport it sends nothing. *)
Theorem accepted_command_sends_a_known_number_of_bytes
  (c : Z) (s : state F) (ops : list Transport.op) (p : Transport.port)
  (t : Transport.interface) :
  fst (bootloader_step c s) = OK ->
  Transport.calls ops = step_calls c s ->
  exists data : list Z,
    length data = answer_bytes c (rx s) /\
    Transport.tx_of t (Transport.run INTERFACE_USB INTERFACE_USART ops p)
    = Transport.tx_of t p
      ++ (if Transport.forwards INTERFACE_USB INTERFACE_USART t p
          then data ++ [PROTO_INSYNC; PROTO_OK]
          else if Transport.forwards INTERFACE_USB INTERFACE_USART t
                    (Transport.run INTERFACE_USB INTERFACE_USART ops p)
               then [PROTO_INSYNC; PROTO_OK] else []).
Proof.
  intros Hr Hc.
  destruct (step_calls_spec c s) as (data & Hl & Hs).
  rewrite Hr in Hs. rewrite Hs in Hc.
  exists (concat data). split; [apply Hl, Hr |].
  rewrite (run_pin_tx _ _ t ops data [[PROTO_INSYNC; PROTO_OK]] p Hc).
  cbn [concat]. rewrite app_nil_r. reflexivity.
Qed.

(** X14: every answer is the last thing a command sends, and it is the
    two bytes INSYNC and the status of the reply.  The calls of [cout] of
    one round of the loop, with the pinning statement where an accepted
    command has it, are run on the transports, with polls of [cin]
    anywhere in between.  On a transport that [cout] already forwards to,
    a command that is answered sends its data, if any, and then INSYNC and
    the status, and only an accepted command has data; a command byte
    that is not served sends nothing.  On a transport that [cout] does not
    forward to when the command starts, only the INSYNC/OK of an accepted
    command is sent, and only if its pinning statement opens that
    transport: while [bl_type] is NONE the answer to a command that is
    refused or fails, and the INSYNC/OK of BOOT, are not sent. *)
Theorem every_answer_is_insync_and_status
  (c : Z) (s : state F) (ops : list Transport.op) (p : Transport.port)
  (t : Transport.interface) :
  Transport.calls ops = step_calls c s ->
  exists data : list Z,
    (accepted (fst (bootloader_step c s)) = false -> data = []) /\
    Transport.tx_of t (Transport.run INTERFACE_USB INTERFACE_USART ops p)
    = Transport.tx_of t p
      ++ match reply_code (fst (bootloader_step c s)) with
         | None => []
         | Some k =>
             if Transport.forwards INTERFACE_USB INTERFACE_USART t p
             then data ++ [PROTO_INSYNC; k]
             else if accepted (fst (bootloader_step c s))
                     && Transport.forwards INTERFACE_USB INTERFACE_USART t
                          (Transport.run INTERFACE_USB INTERFACE_USART ops p)
                  then [PROTO_INSYNC; k] else []
         end.
Proof.
  intros Hc.
  destruct (step_calls_spec c s) as (data & _ & Hs).
  rewrite Hs in Hc. clear Hs.
  destruct (fst (bootloader_step c s)) eqn:Hr; cbn [reply_code accepted andb].
  - exists (concat data). split; [discriminate |].
    rewrite (run_pin_tx _ _ t ops data [[PROTO_INSYNC; PROTO_OK]] p Hc).
    cbn [concat]. rewrite app_nil_r. reflexivity.
  - exists []. split; [reflexivity |].
    destruct (run_calls_tx INTERFACE_USB INTERFACE_USART t ops
                [[PROTO_INSYNC; PROTO_INVALID]] p Hc) as [_ ->].
    cbn [concat app]. reflexivity.
  - exists []. split; [reflexivity |].
    destruct (run_calls_tx INTERFACE_USB INTERFACE_USART t ops
                [[PROTO_INSYNC; PROTO_FAILED]] p Hc) as [_ ->].
    cbn [concat app]. reflexivity.
  - exists []. split; [reflexivity |].
    destruct (run_calls_tx INTERFACE_USB INTERFACE_USART t ops
                [[PROTO_INSYNC; PROTO_BAD_SILICON_REV]] p Hc) as [_ ->].
    cbn [concat app]. reflexivity.
  - exists []. split; [reflexivity |].
    destruct (run_calls_tx INTERFACE_USB INTERFACE_USART t ops
                [[PROTO_INSYNC; PROTO_BAD_KEY]] p Hc) as [_ ->].
    cbn [concat app]. reflexivity.
  - exists []. split; [reflexivity |].
    destruct (run_calls_tx INTERFACE_USB INTERFACE_USART t ops [] p Hc)
      as [_ ->].
    cbn [concat]. destruct (Transport.forwards _ _ t p); reflexivity.
  - exists []. split; [reflexivity |].
    destruct (run_calls_tx INTERFACE_USB INTERFACE_USART t ops
                [[PROTO_INSYNC; PROTO_OK]] p Hc) as [_ ->].
    cbn [concat app]. reflexivity.
Qed.

End WireProofs.

(** * The tick *)

Section TickProofs.

Variables TIMER_LED TIMER_DELAY : nat.

Lemma length_tick c :
  length (SysTick.timer (SysTick.sys_tick_handler TIMER_LED c))
  = length (SysTick.timer c).
Proof.
  unfold SysTick.sys_tick_handler. destruct (SysTick._led_state c);
    cbn [SysTick.timer]; try destruct (_ =? 0); cbn [SysTick.timer];
    rewrite ?length_upd, length_map; auto.
Qed.

Lemma led_state_tick c :
  SysTick._led_state (SysTick.sys_tick_handler TIMER_LED c)
  = SysTick._led_state c.
Proof.
  unfold SysTick.sys_tick_handler. destruct (SysTick._led_state c);
    cbn [SysTick._led_state]; try destruct (_ =? 0);
    cbn [SysTick._led_state]; auto.
Qed.

Lemma nth_map_count_down i l :
  nth i (map SysTick.count_down l) 0 = SysTick.count_down (nth i l 0).
Proof.
  change 0 with (SysTick.count_down 0) at 1. apply map_nth.
Qed.

Lemma timer_tick i c :
  (i <> TIMER_LED \/ SysTick._led_state c <> SysTick.LED_BLINK) ->
  nth i (SysTick.timer (SysTick.sys_tick_handler TIMER_LED c)) 0
  = SysTick.count_down (nth i (SysTick.timer c) 0).
Proof.
  intros H. unfold SysTick.sys_tick_handler.
  destruct (SysTick._led_state c) eqn:E; cbn [SysTick.timer];
    try apply nth_map_count_down.
  destruct H as [H|H]; [| congruence].
  destruct (_ =? 0); cbn [SysTick.timer];
    rewrite ?nth_upd_other by congruence; apply nth_map_count_down.
Qed.

Lemma timer_ticks n : forall i c,
  (i <> TIMER_LED \/ SysTick._led_state c <> SysTick.LED_BLINK) ->
  0 <= nth i (SysTick.timer c) 0 ->
  nth i (SysTick.timer (SysTick.ticks TIMER_LED n c)) 0
  = Z.max 0 (nth i (SysTick.timer c) 0 - Z.of_nat n).
Proof.
  induction n as [|n IH]; intros i c H H0.
  - cbn [SysTick.ticks]. lia.
  - cbn [SysTick.ticks]. rewrite IH.
    + rewrite timer_tick by exact H. unfold SysTick.count_down.
      destruct (Z.gtb_spec (nth i (SysTick.timer c) 0) 0); lia.
    + rewrite led_state_tick. exact H.
    + rewrite timer_tick by exact H. unfold SysTick.count_down.
      destruct (Z.gtb_spec (nth i (SysTick.timer c) 0) 0); lia.
Qed.

Lemma wait_timer_spec n : forall i c fuel,
  (i <> TIMER_LED \/ SysTick._led_state c <> SysTick.LED_BLINK) ->
  nth i (SysTick.timer c) 0 = Z.of_nat n -> (n <= fuel)%nat ->
  SysTick.wait_timer TIMER_LED fuel i c
  = Some (n, SysTick.ticks TIMER_LED n c).
Proof.
  induction n as [|n IH]; intros i c fuel H Ht Hf.
  - destruct fuel; cbn [SysTick.wait_timer]; rewrite Ht; reflexivity.
  - destruct fuel as [|fuel]; [lia |].
    cbn [SysTick.wait_timer SysTick.ticks]. rewrite Ht.
    destruct (Z.gtb_spec (Z.of_nat (S n)) 0); [| lia].
    rewrite (IH i (SysTick.sys_tick_handler TIMER_LED c) fuel); auto.
    + rewrite led_state_tick. exact H.
    + rewrite timer_tick by exact H. rewrite Ht. unfold SysTick.count_down.
      destruct (Z.gtb_spec (Z.of_nat (S n)) 0); lia.
    + lia.
Qed.

Lemma blink_ticks n : forall c,
  (TIMER_LED < length (SysTick.timer c))%nat ->
  SysTick._led_state c = SysTick.LED_BLINK ->
  0 <= nth TIMER_LED (SysTick.timer c) 0 <= 50 ->
  SysTick.led_bootloader (SysTick.ticks TIMER_LED n c)
  = xorb (SysTick.led_bootloader c)
         (Nat.odd ((n + 50
                    - Z.to_nat (Z.max 1 (nth TIMER_LED (SysTick.timer c) 0)))
                   / 50)).
Proof.
  induction n as [|n IH]; intros c Hl Hb Ht.
  - cbn [SysTick.ticks]. rewrite Nat.div_small by lia.
    cbn [Nat.odd Nat.even negb]. now rewrite xorb_false_r.
  - cbn [SysTick.ticks]. rewrite IH.
    + unfold SysTick.sys_tick_handler. rewrite Hb, nth_map_count_down.
      unfold SysTick.count_down.
      destruct (Z.gtb_spec (nth TIMER_LED (SysTick.timer c) 0) 0) as [G|G].
      * destruct (Z.eqb_spec (nth TIMER_LED (SysTick.timer c) 0 - 1) 0)
          as [E|E]; cbn [SysTick.timer SysTick.led_bootloader].
        -- rewrite nth_upd_same by (now rewrite length_map).
           replace (Z.to_nat (Z.max 1 50)) with 50%nat by reflexivity.
           replace (nth TIMER_LED (SysTick.timer c) 0) with 1 by lia.
           replace (S n + 50 - Z.to_nat (Z.max 1 1))%nat
             with (n + 1 * 50)%nat by lia.
           replace (n + 50 - 50)%nat with n by lia.
           rewrite Nat.div_add by lia. rewrite Nat.add_1_r, Nat.odd_succ.
           rewrite <- Nat.negb_odd.
           destruct (SysTick.led_bootloader c), (Nat.odd (n / 50));
             reflexivity.
        -- rewrite nth_map_count_down. unfold SysTick.count_down.
           destruct (Z.gtb_spec (nth TIMER_LED (SysTick.timer c) 0) 0);
             [| lia].
           do 2 f_equal. f_equal. lia.
      * assert (E : nth TIMER_LED (SysTick.timer c) 0 = 0) by lia.
        rewrite E. cbn [Z.eqb SysTick.timer SysTick.led_bootloader].
        rewrite nth_upd_same by (now rewrite length_map).
        replace (Z.to_nat (Z.max 1 50)) with 50%nat by reflexivity.
        replace (S n + 50 - Z.to_nat (Z.max 1 0))%nat
          with (n + 1 * 50)%nat by lia.
        replace (n + 50 - 50)%nat with n by lia.
        rewrite Nat.div_add by lia. rewrite Nat.add_1_r, Nat.odd_succ.
        rewrite <- Nat.negb_odd.
        destruct (SysTick.led_bootloader c), (Nat.odd (n / 50));
          reflexivity.
    + now rewrite length_tick.
    + now rewrite led_state_tick.
    + unfold SysTick.sys_tick_handler. rewrite Hb, nth_map_count_down.
      unfold SysTick.count_down.
      destruct (Z.gtb_spec (nth TIMER_LED (SysTick.timer c) 0) 0) as [G|G].
      * destruct (Z.eqb_spec (nth TIMER_LED (SysTick.timer c) 0 - 1) 0)
          as [E|E]; cbn [SysTick.timer].
        -- rewrite nth_upd_same by (now rewrite length_map). lia.
        -- rewrite nth_map_count_down. unfold SysTick.count_down.
           destruct (Z.gtb_spec (nth TIMER_LED (SysTick.timer c) 0) 0); lia.
      * assert (E : nth TIMER_LED (SysTick.timer c) 0 = 0) by lia.
        rewrite E. cbn [Z.eqb SysTick.timer].
        rewrite nth_upd_same by (now rewrite length_map). lia.
Qed.

(** X7: [n] ticks take [n] off a timer and stop at zero: a timer other
    than the LED's (or any timer while the LED does not blink) that holds
    [t] holds [max 0 (t - n)] after [n] runs of [sys_tick_handler]; it
    never wraps below zero. *)
Theorem timers_count_down_to_zero (n i : nat) (c : SysTick.clock) :
  (i <> TIMER_LED \/ SysTick._led_state c <> SysTick.LED_BLINK) ->
  0 <= nth i (SysTick.timer c) 0 ->
  nth i (SysTick.timer (SysTick.ticks TIMER_LED n c)) 0
  = Z.max 0 (nth i (SysTick.timer c) 0 - Z.of_nat n).
Proof. apply timer_ticks. Qed.

(** X8: [delay(msec)] returns, and it returns after exactly [msec] ticks
    with its timer at zero (given at least [msec] ticks to wait for, and
    a delay timer that is a cell of [timer] other than the blinking
    LED's). *)
Theorem delay_takes_msec_ticks (c : SysTick.clock) (msec : Z) (fuel : nat) :
  (TIMER_DELAY < length (SysTick.timer c))%nat ->
  (TIMER_DELAY <> TIMER_LED \/ SysTick._led_state c <> SysTick.LED_BLINK) ->
  0 <= msec -> (Z.to_nat msec <= fuel)%nat ->
  exists c',
    SysTick.delay TIMER_LED TIMER_DELAY fuel msec c
    = Some (Z.to_nat msec, c') /\
    nth TIMER_DELAY (SysTick.timer c') 0 = 0.
Proof.
  intros Hl H Hm Hf. unfold SysTick.delay.
  eexists. split.
  - apply wait_timer_spec; auto.
    cbn [SysTick.timer]. rewrite nth_upd_same by exact Hl. lia.
  - rewrite timer_ticks; cbn [SysTick.timer SysTick._led_state]; auto.
    + rewrite nth_upd_same by exact Hl. lia.
    + rewrite nth_upd_same by exact Hl. lia.
Qed.

(** X9: after [led_set(LED_BLINK)] the bootloader LED is toggled by the
    first tick and then by every fiftieth tick after it: after [n] ticks
    it has been toggled [(n + 49) / 50] times. *)
Theorem blink_toggles_every_50_ticks (n : nat) (c : SysTick.clock) :
  (TIMER_LED < length (SysTick.timer c))%nat ->
  SysTick.led_bootloader
    (SysTick.ticks TIMER_LED n (SysTick.led_set TIMER_LED SysTick.LED_BLINK c))
  = xorb (SysTick.led_bootloader c) (Nat.odd ((n + 49) / 50)).
Proof.
  intros Hl. rewrite blink_ticks;
    cbn [SysTick.led_set SysTick.timer SysTick._led_state
         SysTick.led_bootloader].
  - rewrite nth_upd_same by exact Hl.
    replace (n + 50 - Z.to_nat (Z.max 1 0))%nat with (n + 49)%nat
      by lia.
    reflexivity.
  - now rewrite length_upd.
  - reflexivity.
  - rewrite nth_upd_same by exact Hl. lia.
Qed.

End TickProofs.

(** * [cin_wait] against the tick *)

Lemma cin_value U A p :
  fst (Transport.cin U A p) = -1 \/ 0 <= fst (Transport.cin U A p) < 256.
Proof.
  mux_cases U A p; auto; right; apply u8_range.
Qed.

Lemma cin_loop_spec U A TIMER_LED TIMER_CIN sched : forall p c,
  TIMER_CIN <> TIMER_LED ->
  0 <= nth TIMER_CIN (SysTick.timer c) 0 <= Z.of_nat (Wait.total sched) ->
  exists x rest p' c',
    Wait.cin_loop U A TIMER_LED TIMER_CIN sched p c = Some (x, rest, p', c') /\
    (x = -1 \/ 0 <= x < 256) /\
    (Wait.total rest <= Wait.total sched)%nat /\
    (x = -1 ->
     nth TIMER_CIN (SysTick.timer c) 0
     <= Z.of_nat (Wait.total sched - Wait.total rest) /\
     nth TIMER_CIN (SysTick.timer c') 0 = 0).
Proof.
  induction sched as [|[m1 m2] sched IH]; intros p c Hne Ht.
  - cbn [Wait.cin_loop Wait.total] in *.
    pose proof (cin_value U A p) as Hv.
    destruct (Transport.cin U A p) as [x p1]. cbn [fst] in Hv.
    destruct (Z.geb_spec x 0).
    + exists x, [], p1, c. repeat split; auto; lia.
    + destruct (Z.gtb_spec (nth TIMER_CIN (SysTick.timer c) 0) 0); [lia |].
      exists x, [], p1, c. repeat split; auto; lia.
  - cbn [Wait.cin_loop Wait.total] in *.
    pose proof (cin_value U A p) as Hv.
    destruct (Transport.cin U A p) as [x p1]. cbn [fst] in Hv.
    destruct (Z.geb_spec x 0).
    + exists x, ((m1, m2) :: sched), p1, c. repeat split; auto; lia.
    + pose proof (timer_ticks TIMER_LED (Wait.elapsed m1) TIMER_CIN c
                    (or_introl Hne) ltac:(lia)) as H1.
      rewrite H1.
      destruct (Z.gtb_spec
                  (Z.max 0 (nth TIMER_CIN (SysTick.timer c) 0
                            - Z.of_nat (Wait.elapsed m1))) 0) as [G|G].
      * pose proof (timer_ticks TIMER_LED (Wait.elapsed m2) TIMER_CIN
                      (SysTick.ticks TIMER_LED (Wait.elapsed m1) c)
                      (or_introl Hne) ltac:(lia)) as H2.
        rewrite H1 in H2.
        destruct (IH (Wait.arrive m2 (Wait.arrive m1 p1))
                     (SysTick.ticks TIMER_LED (Wait.elapsed m2)
                        (SysTick.ticks TIMER_LED (Wait.elapsed m1) c))
                     Hne ltac:(lia))
          as (x' & rest & p' & c' & Hr & Hx & Hle & Hto).
        exists x', rest, p', c'. rewrite Hr.
        split; [reflexivity |]. split; [exact Hx |]. split; [lia |].
        intros Hm. destruct (Hto Hm) as [Ha Hb]. split; [lia | exact Hb].
      * exists x, sched, (Wait.arrive m1 p1),
          (SysTick.ticks TIMER_LED (Wait.elapsed m1) c).
        repeat split; auto; lia.
Qed.

(** X2: [cin_wait(timeout)] against the tick.  With [TIMER_CIN] a cell of
    [timer] other than the LED's, and a schedule that holds at least
    [timeout] ticks, [cin_wait] returns; it returns -1 or a byte; it
    returns -1 only with [timer[TIMER_CIN]] at 0 and at least [timeout]
    ticks gone; and it polls before it looks at the timer, so a byte that
    [cin] finds at once is returned with no part of the schedule used,
    whatever the timeout - also for [cin_wait(0)]. *)
Theorem cin_wait_gives_up_only_after_timeout_ticks
  (INTERFACE_USB INTERFACE_USART : bool) (TIMER_LED TIMER_CIN : nat)
  (sched : list (Wait.meanwhile * Wait.meanwhile)) (timeout : Z)
  (p : Transport.port) (c : SysTick.clock) :
  (TIMER_CIN < length (SysTick.timer c))%nat ->
  TIMER_CIN <> TIMER_LED ->
  0 <= timeout <= Z.of_nat (Wait.total sched) ->
  exists x rest p' c',
    Wait.cin_wait INTERFACE_USB INTERFACE_USART TIMER_LED TIMER_CIN
      sched timeout p c = Some (x, rest, p', c') /\
    (x = -1 \/ 0 <= x < 256) /\
    (x = -1 ->
     timeout <= Z.of_nat (Wait.total sched - Wait.total rest) /\
     nth TIMER_CIN (SysTick.timer c') 0 = 0) /\
    (0 <= fst (Transport.cin INTERFACE_USB INTERFACE_USART p) ->
     x = fst (Transport.cin INTERFACE_USB INTERFACE_USART p) /\
     rest = sched).
Proof.
  intros Hl Hne Ht. unfold Wait.cin_wait.
  set (c0 := SysTick.mkClock _ _ _).
  assert (H0 : nth TIMER_CIN (SysTick.timer c0) 0 = timeout).
  { unfold c0. cbn [SysTick.timer]. apply nth_upd_same, Hl. }
  destruct (cin_loop_spec INTERFACE_USB INTERFACE_USART TIMER_LED TIMER_CIN
              sched p c0 Hne ltac:(lia))
    as (x & rest & p' & c' & Hr & Hx & Hle & Hto).
  exists x, rest, p', c'. rewrite H0 in Hto.
  split; [exact Hr |]. split; [exact Hx |]. split; [exact Hto |].
  intros Hb. destruct sched as [|[m1 m2] sched];
    cbn [Wait.cin_loop] in Hr;
    destruct (Transport.cin INTERFACE_USB INTERFACE_USART p) as [y p1];
    cbn [fst] in Hb |- *;
    (destruct (Z.geb_spec y 0); [| lia]);
    inversion Hr; split; reflexivity.
Qed.

(** * The properties on the tiny board *)

(** ** The simulated driver keeps the contracts *)

Lemma lookup_filter (pk : Z -> bool) a l :
  lookup a (filter (fun e => pk (fst e)) l)
  = if pk a then lookup a l else None.
Proof.
  induction l as [|[k v] l IH]; simpl.
  - destruct (pk a); reflexivity.
  - destruct (pk k) eqn:Hk; simpl.
    + destruct (k =? a) eqn:Hka; [| exact IH].
      apply Z.eqb_eq in Hka. subst k. rewrite Hk. reflexivity.
    + destruct (k =? a) eqn:Hka; [| exact IH].
      apply Z.eqb_eq in Hka. subst k. rewrite IH, Hk. reflexivity.
Qed.

Lemma sim_reliable b : Reliable (HW := sim_platform b []).
Proof.
  constructor; simpl; unfold sim_read_word, sim_fault; simpl.
  - intros f a w _. now rewrite Z.eqb_refl.
  - intros f a b0 w Hab. apply Z.eqb_neq in Hab. now rewrite Hab.
  - intros f i a H.
    rewrite (lookup_filter
               (fun k => negb ((sector_start (flash_sectors b) i <=? k)
                               && (k <? sector_start (flash_sectors b) i
                                        + nth (Z.to_nat i)
                                              (flash_sectors b) 0)))).
    destruct (negb _); [exact H | reflexivity].
  - intros f p w a. unfold sim_phy_write_word.
    destruct (_ && _); reflexivity.
Qed.

Lemma sim_key_isolated b faults : KeyIsolated (HW := sim_platform b faults).
Proof.
  constructor; unfold key_w; simpl.
  - reflexivity.
  - reflexivity.
  - intros f p q w Hpq. unfold sim_phy_read_word, sim_phy_write_word.
    destruct ((key_address b <=? p) && (p <? key_address b + 16)
              && ((p - key_address b) mod 4 =? 0)) eqn:Hp;
      [| reflexivity].
    destruct ((key_address b <=? q) && (q <? key_address b + 16)
              && ((q - key_address b) mod 4 =? 0)) eqn:Hq;
      [| reflexivity].
    simpl. apply nth_upd_other.
    apply andb_true_iff in Hp as [Hp Hp3]. apply Z.eqb_eq in Hp3.
    apply andb_true_iff in Hq as [Hq Hq3]. apply Z.eqb_eq in Hq3.
    pose proof (Z.div_mod (p - key_address b) 4 ltac:(lia)).
    pose proof (Z.div_mod (q - key_address b) 4 ltac:(lia)).
    intros Heq. apply Hpq.
    assert (0 <= (p - key_address b) / 4) by (apply Z.div_pos; lia).
    assert (0 <= (q - key_address b) / 4) by (apply Z.div_pos; lia).
    apply Z2Nat.inj in Heq; lia.
Qed.

Lemma tiny_board_ok : board_ok (HW := sim_hw).
Proof.
  unfold board_ok. simpl. repeat split; try lia. discriminate.
Qed.

(** ** The model on the scenarios of the protocol *)

(** The table entry the lazy initialisation tests is not zero once the
    table is generated. *)
Example crctab_1 : crctab 1 = 0x77073096.
Proof. reflexivity. Qed.

(** Handshake: [21 20] is answered [12 10]. *)
Example handshake :
  trace (session_state sim_hw installed_app [0x21; 0x20])
  = [EvCin 0; EvCin 2; EvCout [0x12; 0x10]].
Proof. reflexivity. Qed.

(** Erase, upload of eight bytes, boot: every command is answered OK,
    the bootloader returns, and the words at offsets 0 and 4 are
    0xDDCCBBAA and 0x44332211. *)
Example erase_upload_boot :
  session_history sim_hw installed_app
    (cmd_erase ++ cmd_prog8 ++ [PROTO_BOOT; PROTO_EOC])
  = [(PROTO_CHIP_ERASE, OK); (PROTO_PROG_MULTI, OK); (PROTO_BOOT, BOOTED)]
  /\
  session_ending sim_hw installed_app
    (cmd_erase ++ cmd_prog8 ++ [PROTO_BOOT; PROTO_EOC]) = Returned_boot /\
  flash_func_read_word (Platform := sim_hw) 0
    (flash (session_state sim_hw installed_app
              (cmd_erase ++ cmd_prog8 ++ [PROTO_BOOT; PROTO_EOC])))
  = 0xDDCCBBAA /\
  flash_func_read_word (Platform := sim_hw) 4
    (flash (session_state sim_hw installed_app
              (cmd_erase ++ cmd_prog8 ++ [PROTO_BOOT; PROTO_EOC])))
  = 0x44332211.
Proof. vm_compute. repeat split. Qed.

(** Before the erase, [address] is at [fw_size] and an upload is
    answered INVALID right after its length byte; the payload is then
    read as command bytes (0x22 is GET_DEVICE and takes the two bytes
    that follow it). *)
Example upload_needs_erase :
  session_history sim_hw installed_app cmd_prog8
  = [(PROTO_PROG_MULTI, INVALID); (0xAA, NO_REPLY); (0xBB, NO_REPLY);
     (0xCC, NO_REPLY); (0xDD, NO_REPLY); (0x11, NO_REPLY);
     (PROTO_GET_DEVICE, INVALID); (PROTO_EOC, NO_REPLY)].
Proof. vm_compute. reflexivity. Qed.

(** ** C1 *)

(** C1 at a concrete session: a chip with an application installed is
    erased and eight bytes are uploaded; no BOOT was sent and word 0, which
    held the old stack pointer on entry, reads erased. *)
Lemma word0_erased_until_boot_witness :
  flash_func_read_word (Platform := sim_hw) 0 installed_app = 0x20001000 /\
  session_ending sim_hw installed_app (cmd_erase ++ cmd_prog8)
  <> Returned_boot /\
  In (PROTO_CHIP_ERASE, OK)
     (session_history sim_hw installed_app (cmd_erase ++ cmd_prog8)) /\
  flash_func_read_word (Platform := sim_hw) 0
    (flash (session_state sim_hw installed_app (cmd_erase ++ cmd_prog8)))
  = ERASED.
Proof.
  assert (He : session_ending sim_hw installed_app (cmd_erase ++ cmd_prog8)
               <> Returned_boot) by (vm_compute; discriminate).
  assert (Hin : In (PROTO_CHIP_ERASE, OK)
                  (session_history sim_hw installed_app
                     (cmd_erase ++ cmd_prog8)))
    by (vm_compute; left; reflexivity).
  split; [reflexivity |]. split; [exact He |]. split; [exact Hin |].
  apply (word0_erased_until_boot (HW := sim_hw) (RL := sim_reliable _)
           tiny_board_ok 1000 installed_app
           (map Some (cmd_erase ++ cmd_prog8))
           (S (length (cmd_erase ++ cmd_prog8)))
           (session_history sim_hw installed_app (cmd_erase ++ cmd_prog8))
           (session_ending sim_hw installed_app (cmd_erase ++ cmd_prog8))).
  - vm_compute. reflexivity.
  - exact He.
  - right. split; [vm_compute; reflexivity | exact Hin].
Defined.

(** C1, as stated, fails in two ways.  A session entered with an
    application installed and sent only GET_SYNC never saw a BOOT, and
    word 0 holds the old stack pointer.  And on a flash whose word 0
    does not take the first word, erase, upload and BOOT end with BOOT
    answered FAILED - no successful BOOT - and word 0 half written. *)
Lemma word0_not_erased_without_boot :
  (session_ending sim_hw installed_app [PROTO_GET_SYNC; PROTO_EOC]
   <> Returned_boot /\
   flash_func_read_word (Platform := sim_hw) 0
     (flash (session_state sim_hw installed_app [PROTO_GET_SYNC; PROTO_EOC]))
   = 0x20001000) /\
  (session_history sticky0_hw blank
     (cmd_erase ++ cmd_prog4 ++ [PROTO_BOOT; PROTO_EOC])
   = [(PROTO_CHIP_ERASE, OK); (PROTO_PROG_MULTI, OK); (PROTO_BOOT, FAILED)]
   /\
   session_ending sticky0_hw blank
     (cmd_erase ++ cmd_prog4 ++ [PROTO_BOOT; PROTO_EOC]) <> Returned_boot /\
   flash_func_read_word (Platform := sticky0_hw) 0
     (flash (session_state sticky0_hw blank
               (cmd_erase ++ cmd_prog4 ++ [PROTO_BOOT; PROTO_EOC])))
   = 0x20001001).
Proof.
  vm_compute. repeat split; discriminate.
Qed.

(** ** C2 *)

(** C2 at the failing input: the first word 0x20001000 is pending and
    word 0 does not take it; BOOT is answered FAILED and [first_word]
    is still 0x20001000 afterwards, not 0xFFFFFFFF. *)
Lemma boot_writes_first_word_witness :
  (rx (feed [PROTO_EOC] s_uploaded_sticky0) = [Some PROTO_EOC] /\
   first_word (feed [PROTO_EOC] s_uploaded_sticky0) = 0x20001000 /\
   flash_func_read_word (Platform := sticky0_hw) 0
     (flash_func_write_word (Platform := sticky0_hw) 0 0x20001000
        (flash (feed [PROTO_EOC] s_uploaded_sticky0))) = 0x20001001) /\
  fst (bootloader_step (HW := sticky0_hw) PROTO_BOOT
         (feed [PROTO_EOC] s_uploaded_sticky0)) = FAILED /\
  first_word (snd (bootloader_step (HW := sticky0_hw) PROTO_BOOT
                     (feed [PROTO_EOC] s_uploaded_sticky0))) = 0x20001000.
Proof.
  split; [vm_compute; repeat split |].
  destruct (boot_writes_first_word (HW := sticky0_hw)
              (feed [PROTO_EOC] s_uploaded_sticky0) [])
    as (_ & _ & Hfail).
  - reflexivity.
  - vm_compute. discriminate.
  - apply Hfail. vm_compute. discriminate.
Defined.

(** ** C3 *)



(** ** C4 *)

(** C4 at a concrete input: erasing the chip that holds an application
    is answered OK and [address], at [fw_size] since entry, is 0. *)
Lemma chip_erase_resets_address_only_witness :
  (rx (feed [PROTO_EOC] (bootloader_init (HW := sim_hw) 1000 installed_app []))
   = [Some PROTO_EOC] /\
   all_erased (HW := sim_hw) (erase_all (HW := sim_hw) installed_app)
   = true) /\
  fst (bootloader_step (HW := sim_hw) PROTO_CHIP_ERASE
         (feed [PROTO_EOC]
               (bootloader_init (HW := sim_hw) 1000 installed_app [])))
  = OK /\
  address (snd (bootloader_step (HW := sim_hw) PROTO_CHIP_ERASE
         (feed [PROTO_EOC]
               (bootloader_init (HW := sim_hw) 1000 installed_app []))))
  = 0.
Proof.
  split; [split; reflexivity |].
  destruct (chip_erase_resets_address_only (HW := sim_hw)
              (feed [PROTO_EOC]
                    (bootloader_init (HW := sim_hw) 1000 installed_app []))
              [])
    as [Hok _].
  - reflexivity.
  - reflexivity.
  - vm_compute. split; discriminate.
  - destruct Hok as (H1 & H2 & _); [reflexivity |]. split; assumption.
Defined.

(** C4, as stated, fails: a CHIP_ERASE sent after an upload is answered
    OK and leaves the captured first word 0x20001000 pending. *)
Lemma chip_erase_keeps_first_word :
  fst (bootloader_step (HW := sim_hw) PROTO_CHIP_ERASE
         (feed [PROTO_EOC] s_uploaded)) = OK /\
  first_word (snd (bootloader_step (HW := sim_hw) PROTO_CHIP_ERASE
                     (feed [PROTO_EOC] s_uploaded))) = 0x20001000 /\
  0x20001000 <> ERASED.
Proof. vm_compute. repeat split. discriminate. Qed.

(** ** C5 *)

(** C5 at a concrete input: with [address] at 4, a PROG_MULTI of length
    0 is answered OK and moves nothing. *)
Lemma prog_multi_zero_length_accepted_witness :
  (rx (feed (tl cmd_prog0) s_uploaded)
   = [Some 0; Some PROTO_EOC] /\
   address (feed (tl cmd_prog0) s_uploaded) = 4) /\
  fst (bootloader_step (HW := sim_hw) PROTO_PROG_MULTI
         (feed (tl cmd_prog0) s_uploaded)) = OK /\
  address (snd (bootloader_step (HW := sim_hw) PROTO_PROG_MULTI
                  (feed (tl cmd_prog0) s_uploaded))) = 4.
Proof.
  split; [split; reflexivity |].
  destruct (prog_multi_zero_length_accepted (HW := sim_hw)
              (feed (tl cmd_prog0) s_uploaded) 0 [])
    as (H1 & H2 & _).
  - reflexivity.
  - reflexivity.
  - vm_compute. split; discriminate.
  - reflexivity.
  - reflexivity.
  - split; assumption.
Defined.

(** C5, as stated, fails: on an erased chip a PROG_MULTI of length 0 is
    answered OK, not INVALID, and it has side effects: the key is zeroed
    and the first word of the (all-zero) buffer becomes [first_word]. *)
Lemma prog_multi_zero_length_not_invalid :
  fst (bootloader_step (HW := sim_hw) PROTO_PROG_MULTI
         (feed (tl cmd_prog0) s_erased)) = OK /\
  keyw (flash s_erased) = intact_key /\
  keyw (flash (snd (bootloader_step (HW := sim_hw) PROTO_PROG_MULTI
                      (feed (tl cmd_prog0) s_erased)))) = [0; 0; 0; 0] /\
  first_word s_erased = ERASED /\
  first_word (snd (bootloader_step (HW := sim_hw) PROTO_PROG_MULTI
                     (feed (tl cmd_prog0) s_erased))) = 0.
Proof. vm_compute. repeat split. Qed.

(** ** C6 *)



(** ** C7 *)

(** C7 at a concrete input: the PROG_MULTI of one word on an erased chip
    calls [zero_key] once, and the word 0xdeadbeef of the key is zero
    afterwards. *)
Lemma zero_key_runs_in_every_prog_multi_at_zero_witness :
  zero_key_called (HW := sim_hw) PROTO_PROG_MULTI
    (feed (tl cmd_prog4) s_erased)
    (fst (bootloader_step (HW := sim_hw) PROTO_PROG_MULTI
            (feed (tl cmd_prog4) s_erased))) = true /\
  zero_key_calls
    (trace (snd (bootloader_step (HW := sim_hw) PROTO_PROG_MULTI
                   (feed (tl cmd_prog4) s_erased))))
  = (zero_key_calls (trace (feed (tl cmd_prog4) s_erased)) + 1)%nat /\
  key_w (HW := sim_hw) 0
    (flash (snd (bootloader_step (HW := sim_hw) PROTO_PROG_MULTI
                   (feed (tl cmd_prog4) s_erased)))) = 0.
Proof.
  split; [reflexivity |].
  destruct (zero_key_runs_in_every_prog_multi_at_zero (HW := sim_hw)
              (KI := sim_key_isolated _ _) PROTO_PROG_MULTI
              (feed (tl cmd_prog4) s_erased))
    as (Hcalls & Hkey & _).
  split; [exact Hcalls |].
  rewrite (Hkey 0) by lia. reflexivity.
Defined.

(** C7, as stated, fails: a host that erases and uploads twice in one
    session has [zero_key] called twice, and a PROG_MULTI that is
    answered FAILED has zeroed the key all the same. *)
Lemma zero_key_called_twice :
  (session_history sim_hw installed_app
     (cmd_erase ++ cmd_prog4 ++ cmd_erase ++ cmd_prog4)
   = [(PROTO_CHIP_ERASE, OK); (PROTO_PROG_MULTI, OK);
      (PROTO_CHIP_ERASE, OK); (PROTO_PROG_MULTI, OK)] /\
   zero_key_calls
     (trace (session_state sim_hw installed_app
               (cmd_erase ++ cmd_prog4 ++ cmd_erase ++ cmd_prog4)))
   = 2%nat) /\
  (session_history sticky_hw installed_app
     (cmd_erase ++
      [PROTO_PROG_MULTI; 8; 0xAA; 0xBB; 0xCC; 0xDD; 0x10; 0x22; 0x33; 0x44;
       PROTO_EOC])
   = [(PROTO_CHIP_ERASE, OK); (PROTO_PROG_MULTI, FAILED)] /\
   keyw (flash (session_state sticky_hw installed_app
     (cmd_erase ++
      [PROTO_PROG_MULTI; 8; 0xAA; 0xBB; 0xCC; 0xDD; 0x10; 0x22; 0x33; 0x44;
       PROTO_EOC]))) = [0; 0; 0; 0]).
Proof. vm_compute. repeat split. Qed.

(** ** C8 *)

(** The two sums after the upload of the word 0x20001000: GET_CRC is
    answered OK with the CRC of the image that starts with that word, and
    CHECK_CRC, whose expected sum is still 0 over no byte, is answered
    OK. *)
Lemma crc_commands_sum_the_pending_image_witness :
  (rx (feed [PROTO_EOC] s_uploaded) = [Some PROTO_EOC] /\
   first_word (feed [PROTO_EOC] s_uploaded) = 0x20001000 /\
   0x20001000 <> ERASED /\
   flash_func_read_word (Platform := sim_hw) 0
     (flash (feed [PROTO_EOC] s_uploaded)) = ERASED) /\
  (fst (bootloader_step (HW := sim_hw) PROTO_GET_CRC
          (feed [PROTO_EOC] s_uploaded)) = OK /\
   trace (snd (bootloader_step (HW := sim_hw) PROTO_GET_CRC
                 (feed [PROTO_EOC] s_uploaded)))
   = trace (feed [PROTO_EOC] s_uploaded) ++
     [EvCin 2;
      EvCout (word_bytes
                (crc32 (word_bytes 0x20001000
                        ++ flat_map (fun _ => word_bytes ERASED)
                                    (seq 1 7)) 0));
      EvCout [PROTO_INSYNC; PROTO_OK]]) /\
  fst (bootloader_step (HW := sim_hw) PROTO_CHECK_CRC
         (feed [PROTO_EOC] s_uploaded)) = OK.
Proof.
  split; [vm_compute; repeat split; discriminate |].
  destruct (crc_commands_sum_the_pending_image (HW := sim_hw)
              (feed [PROTO_EOC] s_uploaded) [])
    as (Hget & Hcheck).
  - reflexivity.
  - vm_compute. discriminate.
  - split; [exact Hget |].
    apply Hcheck; [reflexivity | vm_compute; discriminate | reflexivity].
Defined.

(** C8 at the failing input.  The chip is erased and a first encrypted
    packet is uploaded whose header gives [num_to_flash] 5 and, as
    [crc32_sum], the CRC32 of the five bytes of the image at [0, 5): the
    four bytes of the first word 0x20001000, held back in [first_word],
    and the low byte of the word at offset 4.  CHECK_CRC is answered
    FAILED: its loop sums whole words, the eight bytes at [0, 8).  With
    the CRC32 of those eight bytes as [crc32_sum] it is answered OK - the
    first word taken from [first_word], word 0 of the flash being
    erased. *)
Theorem check_crc_sums_whole_words :
  (num_to_flash (session_state sim_hw installed_app (cmd_erase ++ cmd_enc5))
   = 5 /\
   first_word (session_state sim_hw installed_app (cmd_erase ++ cmd_enc5))
   = bytes_word 0x00 0x10 0x00 0x20 /\
   flash_func_read_word (Platform := sim_hw) 0
     (flash (session_state sim_hw installed_app (cmd_erase ++ cmd_enc5)))
   = ERASED /\
   flash_func_read_word (Platform := sim_hw) 4
     (flash (session_state sim_hw installed_app (cmd_erase ++ cmd_enc5)))
   = bytes_word 0x01 0x41 0x00 0x08 /\
   crc32_sum (session_state sim_hw installed_app (cmd_erase ++ cmd_enc5))
   = crc32 (firstn 5 image8) 0 /\
   session_history sim_hw installed_app
     (cmd_erase ++ cmd_enc5 ++ [PROTO_CHECK_CRC; PROTO_EOC])
   = [(PROTO_CHIP_ERASE, OK); (PROTO_PROG_MULTI_ENCRYPTED, OK);
      (PROTO_CHECK_CRC, FAILED)]) /\
  (num_to_flash
     (session_state sim_hw installed_app (cmd_erase ++ cmd_enc5_rounded))
   = 5 /\
   crc32_sum
     (session_state sim_hw installed_app (cmd_erase ++ cmd_enc5_rounded))
   = crc32 image8 0 /\
   crc32 image8 0 <> crc32 (firstn 5 image8) 0 /\
   session_history sim_hw installed_app
     (cmd_erase ++ cmd_enc5_rounded ++ [PROTO_CHECK_CRC; PROTO_EOC])
   = [(PROTO_CHIP_ERASE, OK); (PROTO_PROG_MULTI_ENCRYPTED, OK);
      (PROTO_CHECK_CRC, OK)]).
Proof.
  vm_compute. repeat split; discriminate.
Qed.

(** ** C9 *)

(** C9, as stated, fails: the argument bytes of GET_OTP and GET_SN and
    the argument byte of SET_DELAY are read with a deadline of 100 ms,
    not 1000 ms (the leading 0 is the wait for the command byte). *)
Lemma otp_sn_delay_deadline_is_100 :
  cin_deadlines
    (trace (session_state sim_hw blank
              [PROTO_GET_OTP; 1; 0; 0; 0; PROTO_EOC]))
  = [0; 100; 100; 100; 100; 2] /\
  cin_deadlines
    (trace (session_state sim_hw blank
              [PROTO_GET_SN; 1; 0; 0; 0; PROTO_EOC]))
  = [0; 100; 100; 100; 100; 2] /\
  cin_deadlines
    (trace (session_state sim_hw blank [PROTO_SET_DELAY; 5; PROTO_EOC]))
  = [0; 100; 2].
Proof. vm_compute. repeat split. Qed.

(** ** C10 *)

(** C10 at a concrete session: after an erase, with no encrypted packet
    sent, CHECK_CRC is answered OK. *)
Lemma check_crc_before_any_header_witness :
  (ENABLE_ENCRYPTION (board_info (Platform := sim_hw)) = true /\
   session_history sim_hw installed_app cmd_erase
   = [(PROTO_CHIP_ERASE, OK)]) /\
  fst (bootloader_step (HW := sim_hw) PROTO_CHECK_CRC
         (set_rx [Some PROTO_EOC] s_erased)) = OK.
Proof.
  split; [split; reflexivity |].
  apply (check_crc_before_any_header (HW := sim_hw) 1000 installed_app
           (map Some cmd_erase) 3 [(PROTO_CHIP_ERASE, OK)] Waiting
           s_erased []).
  - reflexivity.
  - vm_compute. discriminate.
  - vm_compute. reflexivity.
  - intros r [H | []]. inversion H.
Defined.

(** C10, as stated, fails: after an upload and a second erase the flash
    buffer starts with the 0xFFFFFFFF that PROG_MULTI left there; a
    PROG_MULTI_ENCRYPTED of length 0 reads it as [num_to_flash] and is
    answered FAILED - no encrypted packet was accepted - and the
    CHECK_CRC that follows is answered FAILED. *)
Lemma check_crc_fails_after_failed_header :
  session_history sim_hw installed_app
    (cmd_erase ++ cmd_prog4 ++ cmd_erase ++ cmd_enc0
     ++ [PROTO_CHECK_CRC; PROTO_EOC])
  = [(PROTO_CHIP_ERASE, OK); (PROTO_PROG_MULTI, OK);
     (PROTO_CHIP_ERASE, OK); (PROTO_PROG_MULTI_ENCRYPTED, FAILED);
     (PROTO_CHECK_CRC, FAILED)] /\
  num_to_flash
    (session_state sim_hw installed_app
       (cmd_erase ++ cmd_prog4 ++ cmd_erase ++ cmd_enc0)) = 0xffffffff.
Proof. vm_compute. split; reflexivity. Qed.

(** * The further properties on the concrete platform *)

(** ** The simulated drivers keep the further contracts *)

Lemma nth_upd_zero n l : nth n (upd n 0 l) 0 = 0.
Proof.
  revert n. induction l as [|h t IH]; intros [|n]; cbn [upd nth]; auto.
Qed.

Lemma sim_key_writable b faults : KeyWritable (HW := sim_platform b faults).
Proof.
  constructor. intros f p. cbn.
  unfold sim_phy_read_word, sim_phy_write_word.
  destruct ((key_address b <=? p) && (p <? key_address b + 16)
            && ((p - key_address b) mod 4 =? 0)); [| reflexivity].
  cbn [keyw]. apply nth_upd_zero.
Qed.

Lemma journaled_journal {F : Type} (HW : Platform F) :
  Journal (HW := journaled HW) snd.
Proof. constructor; reflexivity. Qed.

Lemma mapped_reliable b app : Reliable (HW := mapped_platform b app).
Proof.
  destruct (sim_reliable b) as [H1 H2 H3 H4].
  constructor; [exact H1 | exact H2 | exact H3 | exact H4].
Qed.

Lemma mapped_app_mapped b app :
  AppMapped (HW := mapped_platform b app) app.
Proof.
  constructor. intros a f Ha.
  cbn [phy_read_word flash_func_read_word board_info mapped_platform] in *.
  destruct (Z.leb_spec app (app + a)); [| lia].
  destruct (Z.ltb_spec (app + a) (app + fw_size b)); [| lia].
  cbn [andb]. replace (app + a - app) with a by lia. reflexivity.
Qed.

Lemma mapped_board_ok : board_ok (HW := mapped_hw).
Proof. exact tiny_board_ok. Qed.

(** ** The receive ring, the transports and the tick *)

(** X1 on a ring holding two bytes: a third is queued behind them, and
    the first is the one that comes out. *)
Lemma ring_put_appends_and_get_pops_oldest_witness :
  Rx.ring_ok (Rx.puts [1; 2] Rx.reset) /\
  Rx.queued (Rx.buf_put 0x141 (Rx.puts [1; 2] Rx.reset)) = [1; 2; 0x41] /\
  fst (Rx.buf_get (Rx.puts [1; 2] Rx.reset)) = 1 /\
  Rx.queued (snd (Rx.buf_get (Rx.puts [1; 2] Rx.reset))) = [2].
Proof.
  assert (Hok : Rx.ring_ok (Rx.puts [1; 2] Rx.reset)).
  { unfold Rx.ring_ok. cbn. repeat split; lia. }
  split; [exact Hok |].
  destruct (ring_put_appends_and_get_pops_oldest 0x141
              (Rx.puts [1; 2] Rx.reset) Hok)
    as ((_ & H & _) & H1 & H2 & _).
  split; [exact H |]. split; [exact H1 | exact H2].
Defined.

(** X2: with nothing arriving and thirty ticks between any two steps of
    the loop, [cin_wait(50)] on the clock with four timers. *)
Lemma cin_wait_gives_up_only_after_timeout_ticks_witness :
  (1 < length (SysTick.timer four_timers))%nat /\ 1%nat <> 2%nat /\
  0 <= 50 <= Z.of_nat (Wait.total slow_rounds) /\
  exists x rest p' c',
    Wait.cin_wait true true 2 1 slow_rounds 50 nothing_waiting four_timers
    = Some (x, rest, p', c') /\
    (x = -1 \/ 0 <= x < 256) /\
    (x = -1 ->
     50 <= Z.of_nat (Wait.total slow_rounds - Wait.total rest) /\
     nth 1 (SysTick.timer c') 0 = 0) /\
    (0 <= fst (Transport.cin true true nothing_waiting) ->
     x = fst (Transport.cin true true nothing_waiting) /\
     rest = slow_rounds).
Proof.
  assert (H1 : (1 < length (SysTick.timer four_timers))%nat) by (cbn; lia).
  assert (H2 : 1%nat <> 2%nat) by lia.
  assert (H3 : 0 <= 50 <= Z.of_nat (Wait.total slow_rounds)) by (cbn; lia).
  split; [exact H1 |]. split; [exact H2 |]. split; [exact H3 |].
  exact (cin_wait_gives_up_only_after_timeout_ticks true true 2 1
           slow_rounds 50 nothing_waiting four_timers H1 H2 H3).
Defined.

(** X3 on three bytes, the last wider than eight bits. *)
Lemma ring_fifo_witness :
  Rx.ring_ok Rx.reset /\ Rx.queued Rx.reset = [] /\
  fst (Rx.gets 3 (Rx.puts [0x12; 0x10; 0x300] Rx.reset)) = [0x12; 0x10; 0].
Proof.
  assert (Hok : Rx.ring_ok Rx.reset).
  { unfold Rx.ring_ok. cbn. repeat split; lia. }
  split; [exact Hok |]. split; [reflexivity |].
  destruct (ring_fifo [0x12; 0x10; 0x300] Rx.reset Hok eq_refl) as [H _].
  - cbn. lia.
  - exact H.
Defined.

(** X4 on a port pinned to USB: the byte waiting on the serial port
    stays unread and nothing is sent there. *)
Lemma pinned_transport_is_the_only_one_witness :
  Transport.bl_type on_usb = Transport.USB /\
  Transport.uart_rx
    (Transport.run true true
       [Transport.Cin; Transport.Cout [0x12; 0x10]; Transport.Lock;
        Transport.Cin; Transport.Cin] on_usb) = [0x21] /\
  Transport.uart_tx
    (Transport.run true true
       [Transport.Cin; Transport.Cout [0x12; 0x10]; Transport.Lock;
        Transport.Cin; Transport.Cin] on_usb) = [].
Proof.
  split; [reflexivity |].
  destruct (pinned_transport_is_the_only_one true true
              [Transport.Cin; Transport.Cout [0x12; 0x10]; Transport.Lock;
               Transport.Cin; Transport.Cin]
              Transport.USB Transport.USART on_usb eq_refl)
    as (_ & H1 & H2); try discriminate.
  split; [exact H1 | exact H2].
Defined.

(** X5: an INVALID answer before anything was accepted is not sent. *)
Lemma nothing_sent_before_the_pin_witness :
  Transport.bl_type both_waiting = Transport.NONE /\
  Transport.usb_tx
    (Transport.run true true
       [Transport.Cin; Transport.Cin; Transport.Cout [0x12; 0x13]]
       both_waiting) = [] /\
  Transport.uart_tx
    (Transport.run true true
       [Transport.Cin; Transport.Cin; Transport.Cout [0x12; 0x13]]
       both_waiting) = [].
Proof.
  split; [reflexivity |].
  destruct (nothing_sent_before_the_pin true true
              [Transport.Cin; Transport.Cin; Transport.Cout [0x12; 0x13]]
              both_waiting eq_refl eq_refl) as (_ & H1 & H2).
  split; [exact H1 | exact H2].
Defined.

(** X6: with a byte waiting on both transports, USB is pinned. *)
Lemma pin_follows_the_last_byte_witness :
  Transport.bl_type both_waiting = Transport.NONE /\
  0 <= fst (Transport.cin true true both_waiting) /\
  Transport.bl_type
    (Transport.lock (snd (Transport.cin true true both_waiting)))
  = Transport.USB.
Proof.
  split; [reflexivity |].
  assert (Hc : 0 <= fst (Transport.cin true true both_waiting))
    by (vm_compute; discriminate).
  split; [exact Hc |].
  destruct (pin_follows_the_last_byte true true both_waiting eq_refl Hc)
    as (_ & _ & H).
  apply H; [reflexivity | discriminate].
Defined.

(** X7: seven ticks run the timer that holds 5 down to 0. *)
Lemma timers_count_down_to_zero_witness :
  (1%nat <> 2%nat \/
   SysTick._led_state four_timers <> SysTick.LED_BLINK) /\
  0 <= nth 1 (SysTick.timer four_timers) 0 /\
  nth 1 (SysTick.timer (SysTick.ticks 2 7 four_timers)) 0 = 0.
Proof.
  assert (H1 : 1%nat <> 2%nat \/
               SysTick._led_state four_timers <> SysTick.LED_BLINK)
    by (left; discriminate).
  assert (H2 : 0 <= nth 1 (SysTick.timer four_timers) 0)
    by (vm_compute; discriminate).
  split; [exact H1 |]. split; [exact H2 |].
  exact (timers_count_down_to_zero 2 7 1 four_timers H1 H2).
Defined.

(** X8: [delay(100)] takes a hundred ticks. *)
Lemma delay_takes_msec_ticks_witness :
  (3 < length (SysTick.timer four_timers))%nat /\
  exists c',
    SysTick.delay 2 3 100 100 four_timers = Some (100%nat, c') /\
    nth 3 (SysTick.timer c') 0 = 0.
Proof.
  assert (H1 : (3 < length (SysTick.timer four_timers))%nat)
    by (cbn; lia).
  split; [exact H1 |].
  apply (delay_takes_msec_ticks 2 3 four_timers 100 100 H1).
  - left. discriminate.
  - lia.
  - lia.
Defined.

(** X9: after 51 ticks the LED has been toggled twice. *)
Lemma blink_toggles_every_50_ticks_witness :
  (2 < length (SysTick.timer four_timers))%nat /\
  SysTick.led_bootloader
    (SysTick.ticks 2 51 (SysTick.led_set 2 SysTick.LED_BLINK four_timers))
  = false.
Proof.
  assert (H1 : (2 < length (SysTick.timer four_timers))%nat)
    by (cbn; lia).
  split; [exact H1 |].
  exact (blink_toggles_every_50_ticks 2 51 four_timers H1).
Defined.

(** ** The session *)

(** X11: GET_SYNC without its EOC is refused, nothing more arrives, and
    the bootloader returns on its timeout. *)
Lemma timeout_return_means_nothing_was_accepted_witness :
  session_ending sim_hw blank [PROTO_GET_SYNC; 0x99] = Returned_timeout /\
  forallb (fun cr => negb (accepted (snd cr)))
          (session_history sim_hw blank [PROTO_GET_SYNC; 0x99]) = true.
Proof.
  split; [reflexivity |].
  destruct (timeout_return_means_nothing_was_accepted (HW := sim_hw)
              1000 blank (map Some [PROTO_GET_SYNC; 0x99]) 3
              (session_history sim_hw blank [PROTO_GET_SYNC; 0x99])
              (session_ending sim_hw blank [PROTO_GET_SYNC; 0x99])
              (session_state sim_hw blank [PROTO_GET_SYNC; 0x99]))
    as [_ H].
  - vm_compute. reflexivity.
  - reflexivity.
  - exact H.
Defined.

(** X12: after an erase and an unencrypted upload in the same session
    the key is zeroed, and CHECK_KEY still answers OK. *)
Lemma check_key_answers_the_key_at_entry_witness :
  validate_key (HW := sim_hw) (flash s_uploaded) = 1 /\
  fst (bootloader_step (HW := sim_hw) PROTO_CHECK_KEY
         (set_rx [Some PROTO_EOC] s_uploaded)) = OK.
Proof.
  split; [reflexivity |].
  destruct (check_key_answers_the_key_at_entry (HW := sim_hw)
              1000 installed_app (map Some (cmd_erase ++ cmd_prog4))
              (S (length (cmd_erase ++ cmd_prog4)))
              (session_history sim_hw installed_app (cmd_erase ++ cmd_prog4))
              (session_ending sim_hw installed_app (cmd_erase ++ cmd_prog4))
              s_uploaded [])
    as [_ H].
  - vm_compute. reflexivity.
  - exact H.
Defined.

(** X13 on the byte 0x55. *)
Lemma unknown_command_byte_is_ignored_witness :
  ~ In 0x55 command_bytes /\
  bootloader_step (HW := sim_hw) 0x55 s_erased = (NO_REPLY, s_erased).
Proof.
  assert (H : ~ In 0x55 command_bytes)
    by (cbn; intuition discriminate).
  split; [exact H |].
  apply (unknown_command_byte_is_ignored (HW := sim_hw) 0x55 s_erased), H.
Defined.

(** X15: an upload before the erase is refused and changes nothing. *)
Lemma refused_command_has_programmed_nothing_witness :
  refused (fst (bootloader_step (HW := sim_hw) PROTO_PROG_MULTI
                  (feed (tl cmd_prog8) s_entered))) = true /\
  untouched (feed (tl cmd_prog8) s_entered)
    (snd (bootloader_step (HW := sim_hw) PROTO_PROG_MULTI
            (feed (tl cmd_prog8) s_entered))).
Proof.
  assert (H : refused (fst (bootloader_step (HW := sim_hw) PROTO_PROG_MULTI
                              (feed (tl cmd_prog8) s_entered))) = true)
    by reflexivity.
  split; [exact H |].
  exact (refused_command_has_programmed_nothing (HW := sim_hw)
           PROTO_PROG_MULTI (feed (tl cmd_prog8) s_entered) H).
Defined.

(** X16 on GET_CRC after an upload. *)
Lemma queries_change_nothing_witness :
  In PROTO_GET_CRC query_bytes /\
  same_core (feed [PROTO_EOC] s_uploaded)
    (snd (bootloader_step (HW := sim_hw) PROTO_GET_CRC
            (feed [PROTO_EOC] s_uploaded))).
Proof.
  assert (H : In PROTO_GET_CRC query_bytes) by (cbn; tauto).
  split; [exact H |].
  destruct (queries_change_nothing (HW := sim_hw) PROTO_GET_CRC
              (feed [PROTO_EOC] s_uploaded) H) as [Hc _].
  exact Hc.
Defined.

(** X17: an upload sent first thing is answered INVALID, and so would
    the next one be. *)
Lemma nothing_is_programmed_before_an_erase_witness :
  0 < fw_size (board_info (Platform := sim_hw)) /\
  fw_size (board_info (Platform := sim_hw)) + 256 <= 2 ^ 32 /\
  forallb (fun cr => negb (erase_ran (fst cr) (snd cr)))
          (session_history sim_hw blank cmd_prog4) = true /\
  before_erase (HW := sim_hw) (session_state sim_hw blank cmd_prog4) /\
  fst (bootloader_step (HW := sim_hw) PROTO_PROG_MULTI
         (set_rx (map Some (tl cmd_prog4))
                 (session_state sim_hw blank cmd_prog4))) = INVALID.
Proof.
  assert (H0 : 0 < fw_size (board_info (Platform := sim_hw)))
    by (vm_compute; reflexivity).
  assert (H1 : fw_size (board_info (Platform := sim_hw)) + 256 <= 2 ^ 32)
    by (vm_compute; discriminate).
  split; [exact H0 |]. split; [exact H1 |]. split; [reflexivity |].
  destruct (nothing_is_programmed_before_an_erase (HW := sim_hw) H0 H1
              1000 blank (map Some cmd_prog4) (S (length cmd_prog4))
              (session_history sim_hw blank cmd_prog4)
              (session_ending sim_hw blank cmd_prog4)
              (session_state sim_hw blank cmd_prog4))
    as [Hb Hn].
  - vm_compute. reflexivity.
  - reflexivity.
  - split; [exact Hb |].
    apply (Hn PROTO_PROG_MULTI 4
             (map Some [0x00; 0x10; 0x00; 0x20; PROTO_EOC])).
    + left. reflexivity.
    + vm_compute. discriminate.
Defined.

(** X18: erase, upload of two words and BOOT write at offsets 0, 4 and
    0 again. *)
Lemma writes_stay_inside_the_application_region_witness :
  0 < fw_size (board_info (Platform := journal_hw)) /\
  fw_size (board_info (Platform := journal_hw)) + 256 <= 2 ^ 32 /\
  (forall a, BOOT_DELAY_ADDRESS (board_info (Platform := journal_hw))
             = Some a ->
             0 <= a < fw_size (board_info (Platform := journal_hw))) /\
  snd (flash (snd (bootloader (HW := journal_hw) 1000 (blank, [])
                     (map Some (cmd_erase ++ cmd_prog8 ++ cmd_boot)))))
  = [0; 4; 0] /\
  exists ws,
    snd (flash (snd (bootloader (HW := journal_hw) 1000 (blank, [])
                       (map Some (cmd_erase ++ cmd_prog8 ++ cmd_boot)))))
    = snd (blank, @nil Z) ++ ws /\
    in_region (HW := journal_hw) ws.
Proof.
  assert (H0 : 0 < fw_size (board_info (Platform := journal_hw)))
    by (vm_compute; reflexivity).
  assert (H1 : fw_size (board_info (Platform := journal_hw)) + 256 <= 2 ^ 32)
    by (vm_compute; discriminate).
  assert (H2 : forall a,
             BOOT_DELAY_ADDRESS (board_info (Platform := journal_hw))
             = Some a ->
             0 <= a < fw_size (board_info (Platform := journal_hw))).
  { intros a Ha. cbn in Ha. injection Ha as <-. cbn. lia. }
  split; [exact H0 |]. split; [exact H1 |]. split; [exact H2 |].
  split; [vm_compute; reflexivity |].
  destruct (writes_stay_inside_the_application_region (HW := journal_hw)
              snd (J := journaled_journal sim_hw) (blank, []) H0 H1 H2
              1000 (map Some (cmd_erase ++ cmd_prog8 ++ cmd_boot))
              (S (length (cmd_erase ++ cmd_prog8 ++ cmd_boot)))
              (fst (fst (bootloader (HW := journal_hw) 1000 (blank, [])
                           (map Some (cmd_erase ++ cmd_prog8 ++ cmd_boot)))))
              (snd (fst (bootloader (HW := journal_hw) 1000 (blank, [])
                           (map Some (cmd_erase ++ cmd_prog8 ++ cmd_boot)))))
              (snd (bootloader (HW := journal_hw) 1000 (blank, [])
                      (map Some (cmd_erase ++ cmd_prog8 ++ cmd_boot)))))
    as [_ H].
  - vm_compute. reflexivity.
  - exact H.
Defined.

(** ** The key *)

(** X20 on the erased chip with the intact key. *)
Lemma zero_key_makes_the_key_invalid_witness :
  validate_key (HW := sim_hw) (flash s_erased) = 0 /\
  validate_key (HW := sim_hw)
    (flash (snd (zero_key (HW := sim_hw) s_erased))) = 1.
Proof.
  split; [reflexivity |].
  exact (zero_key_makes_the_key_invalid (HW := sim_hw)
           (KI := sim_key_isolated _ _) (KW := sim_key_writable _ _)
           s_erased).
Defined.

(** X21: after the erase and the unencrypted upload the next session
    finds the key invalid. *)
Lemma a_plain_upload_voids_the_key_witness :
  ENABLE_ENCRYPTION (board_info (Platform := sim_hw)) = true /\
  zero_key_calls (trace s_uploaded) <> O /\
  key_state (bootloader_init (HW := sim_hw) 1000 (flash s_uploaded) []) = 1.
Proof.
  assert (H0 : ENABLE_ENCRYPTION (board_info (Platform := sim_hw)) = true)
    by reflexivity.
  assert (H1 : zero_key_calls (trace s_uploaded) <> O)
    by (vm_compute; discriminate).
  split; [exact H0 |]. split; [exact H1 |].
  destruct (a_plain_upload_voids_the_key (HW := sim_hw)
              (KI := sim_key_isolated _ _) (KW := sim_key_writable _ _)
              1000 1000 installed_app (map Some (cmd_erase ++ cmd_prog4)) []
              (S (length (cmd_erase ++ cmd_prog4)))
              (session_history sim_hw installed_app (cmd_erase ++ cmd_prog4))
              (session_ending sim_hw installed_app (cmd_erase ++ cmd_prog4))
              s_uploaded H0)
    as [_ H].
  - vm_compute. reflexivity.
  - exact H1.
  - exact H.
Defined.

(** X22: on the flash with the zeroed key an encrypted packet is
    answered BAD_KEY after the erase. *)
Lemma void_key_blocks_encrypted_programming_witness :
  ENABLE_ENCRYPTION (board_info (Platform := sim_hw)) = true /\
  validate_key (HW := sim_hw) voided <> 0 /\
  fst (bootloader_step (HW := sim_hw) PROTO_PROG_MULTI_ENCRYPTED
         (set_rx (map Some (tl cmd_enc32))
                 (session_state sim_hw voided cmd_erase))) = BAD_KEY /\
  untouched (session_state sim_hw voided cmd_erase)
    (snd (bootloader_step (HW := sim_hw) PROTO_PROG_MULTI_ENCRYPTED
            (set_rx (map Some (tl cmd_enc32))
                    (session_state sim_hw voided cmd_erase)))).
Proof.
  assert (H0 : ENABLE_ENCRYPTION (board_info (Platform := sim_hw)) = true)
    by reflexivity.
  assert (H1 : validate_key (HW := sim_hw) voided <> 0)
    by (vm_compute; discriminate).
  split; [exact H0 |]. split; [exact H1 |]. split; [reflexivity |].
  destruct (void_key_blocks_encrypted_programming (HW := sim_hw)
              1000 voided (map Some cmd_erase) (S (length cmd_erase))
              (session_history sim_hw voided cmd_erase)
              (session_ending sim_hw voided cmd_erase)
              (session_state sim_hw voided cmd_erase)
              (map Some (tl cmd_enc32)) H0 H1)
    as [_ H].
  - vm_compute. reflexivity.
  - exact H.
Defined.

(** ** Leaving for the application *)

(** X23: an erase and an upload without BOOT leave nothing to jump
    into. *)
Lemma no_jump_into_an_unfinished_upload_witness :
  board_ok (HW := mapped_hw) /\
  0 < fw_size (board_info (Platform := mapped_hw)) /\
  flash_func_read_word (Platform := mapped_hw) 0 blank = ERASED /\
  session_ending mapped_hw blank (cmd_erase ++ cmd_prog_vectors)
  <> Returned_boot /\
  jump_to_app (HW := mapped_hw) tiny_app_address
    (flash (session_state mapped_hw blank (cmd_erase ++ cmd_prog_vectors)))
  = None.
Proof.
  assert (H0 : 0 < fw_size (board_info (Platform := mapped_hw)))
    by (vm_compute; reflexivity).
  assert (H1 : session_ending mapped_hw blank (cmd_erase ++ cmd_prog_vectors)
               <> Returned_boot) by (vm_compute; discriminate).
  split; [exact mapped_board_ok |]. split; [exact H0 |].
  split; [reflexivity |]. split; [exact H1 |].
  destruct (no_jump_into_an_unfinished_upload (HW := mapped_hw)
              tiny_app_address (AM := mapped_app_mapped _ _)
              (RL := mapped_reliable _ _) mapped_board_ok H0
              1000 blank (map Some (cmd_erase ++ cmd_prog_vectors))
              (S (length (cmd_erase ++ cmd_prog_vectors)))
              (session_history mapped_hw blank
                 (cmd_erase ++ cmd_prog_vectors))
              (session_ending mapped_hw blank
                 (cmd_erase ++ cmd_prog_vectors))
              (session_state mapped_hw blank
                 (cmd_erase ++ cmd_prog_vectors)))
    as [H _].
  apply H.
  - reflexivity.
  - vm_compute. reflexivity.
  - exact H1.
Defined.

(** X24: after the upload of the two vectors, BOOT makes the
    application startable at its entry point. *)
Lemma accepted_boot_installs_the_first_word_witness :
  4 < fw_size (board_info (Platform := mapped_hw)) /\
  first_word (session_state mapped_hw blank (cmd_erase ++ cmd_prog_vectors))
  <> ERASED /\
  fst (bootloader_step (HW := mapped_hw) PROTO_BOOT
         (feed [PROTO_EOC]
            (session_state mapped_hw blank
               (cmd_erase ++ cmd_prog_vectors)))) = BOOTED /\
  jump_to_app (HW := mapped_hw) tiny_app_address
    (flash (snd (bootloader_step (HW := mapped_hw) PROTO_BOOT
                   (feed [PROTO_EOC]
                      (session_state mapped_hw blank
                         (cmd_erase ++ cmd_prog_vectors))))))
  = Some (0x20001000, 0x08004009).
Proof.
  assert (H0 : 4 < fw_size (board_info (Platform := mapped_hw)))
    by (vm_compute; reflexivity).
  assert (H1 : first_word
                 (feed [PROTO_EOC]
                    (session_state mapped_hw blank
                       (cmd_erase ++ cmd_prog_vectors))) <> ERASED)
    by (vm_compute; discriminate).
  split; [exact H0 |]. split; [exact H1 |]. split; [reflexivity |].
  exact (accepted_boot_installs_the_first_word (HW := mapped_hw)
           tiny_app_address (AM := mapped_app_mapped _ _)
           (RL := mapped_reliable _ _)
           (feed [PROTO_EOC]
              (session_state mapped_hw blank (cmd_erase ++ cmd_prog_vectors)))
           H0 H1 eq_refl).
Defined.

(** ** Words and sums *)

(** X25 on the stack top of the scenarios. *)
Lemma cin_word_reads_what_cout_word_sends_witness :
  0 <= 0x20001000 < 2 ^ 32 /\
  fst (cin_word 0 100 (feed (word_bytes 0x20001000) s_erased))
  = Val (0, 0x20001000).
Proof.
  assert (H0 : 0 <= 0x20001000 < 2 ^ 32) by lia.
  split; [exact H0 |].
  destruct (cin_word_reads_what_cout_word_sends
              0x20001000 0 100 (feed (word_bytes 0x20001000) s_erased)
              s_erased [] H0) as (_ & _ & H).
  destruct (H eq_refl) as [Hr _]. exact Hr.
Defined.

(** X26 on three values, one of them wider than a byte, and after two
    zero bytes. *)
Lemma crc32_is_32_bit_and_ignores_leading_zero_bytes_witness :
  0 <= 0 < 2 ^ 32 /\
  0 <= crc32 [1; 0x102; 3] 0 < 2 ^ 32 /\
  crc32 [1; 2; 3] 0 = crc32 [1; 0x102; 3] 0 /\
  crc32 [0; 0; 1; 0x102; 3] 0 = crc32 [1; 0x102; 3] 0.
Proof.
  assert (H0 : 0 <= 0 < 2 ^ 32) by lia.
  split; [exact H0 |].
  destruct (crc32_is_32_bit_and_ignores_leading_zero_bytes
              [1; 0x102; 3] 0 2 H0) as (H1 & H2 & H3 & _).
  split; [exact H1 |]. split; [exact H2 | exact H3].
Defined.

(** ** Uploads *)

(** X28: the eight bytes uploaded at address 0 after the erase. *)
Lemma prog_multi_programs_the_payload_witness :
  fw_size (board_info (Platform := sim_hw)) + 256 <= 2 ^ 32 /\
  fst (bootloader_step (HW := sim_hw) PROTO_PROG_MULTI
         (feed (tl cmd_prog8) s_erased)) = OK /\
  flash_func_read_word (Platform := sim_hw) 4
    (flash (snd (bootloader_step (HW := sim_hw) PROTO_PROG_MULTI
                   (feed (tl cmd_prog8) s_erased)))) = 0x44332211 /\
  flash_func_read_word (Platform := sim_hw) 0
    (flash (snd (bootloader_step (HW := sim_hw) PROTO_PROG_MULTI
                   (feed (tl cmd_prog8) s_erased)))) = ERASED /\
  first_word (snd (bootloader_step (HW := sim_hw) PROTO_PROG_MULTI
                     (feed (tl cmd_prog8) s_erased))) = 0xDDCCBBAA.
Proof.
  assert (H1 : fw_size (board_info (Platform := sim_hw)) + 256 <= 2 ^ 32)
    by (vm_compute; discriminate).
  split; [exact H1 |]. split; [reflexivity |].
  destruct (prog_multi_programs_the_payload (HW := sim_hw)
              (RL := sim_reliable _) H1 (feed (tl cmd_prog8) s_erased) 8
              [0xAA; 0xBB; 0xCC; 0xDD; 0x11; 0x22; 0x33; 0x44] [])
    as (_ & _ & Hw & _ & Hf).
  - reflexivity.
  - reflexivity.
  - vm_compute. split; discriminate.
  - reflexivity.
  - reflexivity.
  - split; [exact (Hw 1 ltac:(vm_compute; split; [discriminate | reflexivity]))
           |].
    split; [exact (Hw 0 ltac:(vm_compute; split; [discriminate | reflexivity]))
           |].
    apply Hf; [reflexivity | vm_compute; reflexivity].
Defined.

(** X29: a delay of five seconds is accepted over the signature, and a
    second SET_DELAY is not. *)
Lemma set_delay_is_accepted_once_witness :
  BOOT_DELAY_ADDRESS (board_info (Platform := sim_hw)) = Some 16 /\
  fst (bootloader_step (HW := sim_hw) PROTO_SET_DELAY
         (feed (tl cmd_delay5) (session_state sim_hw with_signature [])))
  = OK /\
  flash_func_read_word (Platform := sim_hw) 16
    (flash (snd (bootloader_step (HW := sim_hw) PROTO_SET_DELAY
                   (feed (tl cmd_delay5)
                      (session_state sim_hw with_signature [])))))
  = 0xb7b1b205 /\
  fst (bootloader_step (HW := sim_hw) PROTO_SET_DELAY
         (set_rx (map Some (tl cmd_delay5))
            (snd (bootloader_step (HW := sim_hw) PROTO_SET_DELAY
                    (feed (tl cmd_delay5)
                       (session_state sim_hw with_signature []))))))
  <> OK.
Proof.
  assert (H0 : BOOT_DELAY_ADDRESS (board_info (Platform := sim_hw))
               = Some 16) by reflexivity.
  assert (H1 : fst (bootloader_step (HW := sim_hw) PROTO_SET_DELAY
                      (feed (tl cmd_delay5)
                         (session_state sim_hw with_signature []))) = OK)
    by reflexivity.
  split; [exact H0 |]. split; [exact H1 |].
  destruct (set_delay_is_accepted_once (HW := sim_hw) 16
              (feed (tl cmd_delay5) (session_state sim_hw with_signature []))
              H0 H1)
    as (v & e & rest & Hrx & _ & _ & _ & Hw & Hno).
  injection Hrx as <- _ _.
  split; [exact Hw |].
  apply Hno. vm_compute. discriminate.
Defined.

(** X30: the first encrypted packet after the erase: its header and its
    first word. *)
Lemma prog_multi_encrypted_programs_the_plaintext_witness :
  fw_size (board_info (Platform := sim_hw)) + 256 <= 2 ^ 32 /\
  fst (bootloader_step (HW := sim_hw) PROTO_PROG_MULTI_ENCRYPTED
         (feed (tl cmd_enc32) s_erased)) = OK /\
  num_to_flash (snd (bootloader_step (HW := sim_hw)
                       PROTO_PROG_MULTI_ENCRYPTED
                       (feed (tl cmd_enc32) s_erased))) = 16 /\
  first_word (snd (bootloader_step (HW := sim_hw)
                     PROTO_PROG_MULTI_ENCRYPTED
                     (feed (tl cmd_enc32) s_erased))) = 16 /\
  iv (snd (bootloader_step (HW := sim_hw) PROTO_PROG_MULTI_ENCRYPTED
             (feed (tl cmd_enc32) s_erased))) = repeat 0 16.
Proof.
  assert (H1 : fw_size (board_info (Platform := sim_hw)) + 256 <= 2 ^ 32)
    by (vm_compute; discriminate).
  split; [exact H1 |]. split; [reflexivity |].
  destruct (prog_multi_encrypted_programs_the_plaintext (HW := sim_hw)
              (RL := sim_reliable _) H1 (feed (tl cmd_enc32) s_erased) 32
              enc_payload [])
    as (_ & Hv & _ & Hz).
  - reflexivity.
  - reflexivity.
  - reflexivity.
  - vm_compute. split; discriminate.
  - reflexivity.
  - reflexivity.
  - reflexivity.
  - destruct (Hz eq_refl) as (Hn & _ & Hf & _).
    split; [exact Hn |]. split; [exact Hf | exact Hv].
Defined.

(** X10 on GET_DEVICE asking for the vector area as the first command of
    a session, its two bytes read from USB: the sixteen bytes are handed
    to [cout] before the pinning statement, and INSYNC/OK is all that is
    sent. *)
Lemma accepted_command_sends_a_known_number_of_bytes_witness :
  fst (bootloader_step (HW := sim_hw) PROTO_GET_DEVICE first_get_device)
  = OK /\
  Transport.calls first_get_device_calls
  = step_calls (HW := sim_hw) PROTO_GET_DEVICE first_get_device /\
  length (Transport.bufs first_get_device_calls) = 18%nat /\
  Transport.usb_tx (Transport.run true true first_get_device_calls
                      both_waiting)
  = [PROTO_INSYNC; PROTO_OK] /\
  exists data : list Z,
    length data = 16%nat /\
    Transport.tx_of Transport.USB
      (Transport.run true true first_get_device_calls both_waiting)
    = Transport.tx_of Transport.USB both_waiting
      ++ (if Transport.forwards true true Transport.USB both_waiting
          then data ++ [PROTO_INSYNC; PROTO_OK]
          else if Transport.forwards true true Transport.USB
                    (Transport.run true true first_get_device_calls
                       both_waiting)
               then [PROTO_INSYNC; PROTO_OK] else []).
Proof.
  assert (H1 : fst (bootloader_step (HW := sim_hw) PROTO_GET_DEVICE
                      first_get_device) = OK) by (vm_compute; reflexivity).
  assert (H2 : Transport.calls first_get_device_calls
               = step_calls (HW := sim_hw) PROTO_GET_DEVICE first_get_device)
    by (vm_compute; reflexivity).
  split; [exact H1 |]. split; [exact H2 |].
  split; [vm_compute; reflexivity |]. split; [vm_compute; reflexivity |].
  exact (accepted_command_sends_a_known_number_of_bytes (HW := sim_hw)
           true true PROTO_GET_DEVICE first_get_device
           first_get_device_calls both_waiting Transport.USB H1 H2).
Defined.

(** X14 on a GET_SYNC followed by a byte that is not the EOC: on the port
    pinned to USB the answer INSYNC/INVALID is sent there; as the first
    command of a session nothing is sent. *)
Lemma every_answer_is_insync_and_status_witness :
  Transport.calls refused_sync_calls
  = step_calls (HW := sim_hw) PROTO_GET_SYNC refused_sync /\
  Transport.usb_tx (Transport.run true true refused_sync_calls on_usb)
  = [PROTO_INSYNC; PROTO_INVALID] /\
  Transport.usb_tx (Transport.run true true refused_sync_calls both_waiting)
  = [] /\
  exists data : list Z,
    (accepted (fst (bootloader_step (HW := sim_hw) PROTO_GET_SYNC
                      refused_sync)) = false -> data = []) /\
    Transport.tx_of Transport.USB
      (Transport.run true true refused_sync_calls on_usb)
    = Transport.tx_of Transport.USB on_usb
      ++ match reply_code (fst (bootloader_step (HW := sim_hw)
                                  PROTO_GET_SYNC refused_sync)) with
         | None => []
         | Some k =>
             if Transport.forwards true true Transport.USB on_usb
             then data ++ [PROTO_INSYNC; k]
             else if accepted (fst (bootloader_step (HW := sim_hw)
                                      PROTO_GET_SYNC refused_sync))
                     && Transport.forwards true true Transport.USB
                          (Transport.run true true refused_sync_calls on_usb)
                  then [PROTO_INSYNC; k] else []
         end.
Proof.
  assert (H : Transport.calls refused_sync_calls
              = step_calls (HW := sim_hw) PROTO_GET_SYNC refused_sync)
    by (vm_compute; reflexivity).
  split; [exact H |].
  split; [vm_compute; reflexivity |]. split; [vm_compute; reflexivity |].
  exact (every_answer_is_insync_and_status (HW := sim_hw) true true
           PROTO_GET_SYNC refused_sync refused_sync_calls on_usb
           Transport.USB H).
Defined.

(** X27: sixteen bytes and no EOC: refused, and the vector is the sixteen
    bytes. *)
Lemma set_iv_stores_the_bytes_as_they_arrive_witness :
  ENABLE_ENCRYPTION (board_info (Platform := sim_hw)) = true /\
  iv (snd (bootloader_step (HW := sim_hw) PROTO_SET_IV
             (feed vector_bytes s_entered)))
  = [1; 2; 3; 4; 5; 6; 7; 8; 9; 10; 11; 12; 13; 14; 15; 16] /\
  fst (bootloader_step (HW := sim_hw) PROTO_SET_IV
         (feed vector_bytes s_entered)) = INVALID.
Proof.
  assert (H1 : ENABLE_ENCRYPTION (board_info (Platform := sim_hw)) = true)
    by reflexivity.
  split; [exact H1 |].
  destruct (set_iv_stores_the_bytes_as_they_arrive (HW := sim_hw)
              (feed vector_bytes s_entered) vector_bytes [] H1)
    as (Hv & _ & Hr).
  - reflexivity.
  - cbn. lia.
  - reflexivity.
  - split; [exact Hv | exact Hr].
Defined.
